(** * EAMSA 512: the cryptographic core, embedded and checked

    A shallow embedding of the Go sources of the EAMSA 512 repository:
    the basic encryption implementation (key derivation, block
    transform, CBC mode, HMAC framing), the NIST-style KDF, the S-box
    tables of the phase-2 layer and the key rotation manager.

    Bytes are integers in [0,256) (type [Z]), byte slices are lists,
    Go's [error] values are the strings that [fmt.Errorf] builds, and a
    run-time panic is a separate outcome.  The hash functions come from
    Go's [crypto/sha3]; they are given here as an executable model of
    FIPS 202 and checked against published digests. *)

From Stdlib Require Import ZArith List String Ascii DecimalString Lia.
From Stdlib Require SpecFloat.
From stdpp Require Import base list gmap strings.

Local Open Scope Z_scope.

(** ** FIPS 202 (SHA-3), as provided by Go's [crypto/sha3] *)

Module Keccak.

Definition w64 (x : Z) : Z := Z.land x (Z.ones 64).

Definition rotl64 (x n : Z) : Z :=
  w64 (Z.lor (Z.shiftl x n) (Z.shiftr x (64 - n))).

Definition xor_all (l : list Z) : Z := fold_left Z.lxor l 0.

(** The 5 x 5 state is a list of 25 lanes, lane (x, y) at x + 5 y. *)
Definition lane_at (st : list Z) (i : nat) : Z := nth i st 0.

Definition rho_offsets : list Z :=
  [ 0;  1; 62; 28; 27;
   36; 44;  6; 55; 20;
    3; 10; 43; 25; 39;
   41; 45; 15; 21;  8;
   18;  2; 61; 56; 14].

Definition round_constants : list Z :=
  [0x0000000000000001; 0x0000000000008082; 0x800000000000808A;
   0x8000000080008000; 0x000000000000808B; 0x0000000080000001;
   0x8000000080008081; 0x8000000000008009; 0x000000000000008A;
   0x0000000000000088; 0x0000000080008009; 0x000000008000000A;
   0x000000008000808B; 0x800000000000008B; 0x8000000000008089;
   0x8000000000008003; 0x8000000000008002; 0x8000000000000080;
   0x000000000000800A; 0x800000008000000A; 0x8000000080008081;
   0x8000000000008080; 0x0000000080000001; 0x8000000080008008].

Definition theta (st : list Z) : list Z :=
  let c := map (fun x => xor_all (map (fun y => lane_at st (x + 5 * y)) (seq 0 5)))
               (seq 0 5) in
  let d := map (fun x => Z.lxor (nth ((x + 4) mod 5) c 0)
                                (rotl64 (nth ((x + 1) mod 5) c 0) 1))
               (seq 0 5) in
  map (fun i => Z.lxor (lane_at st i) (nth (i mod 5) d 0)) (seq 0 25).

(** rho and pi together: output lane (X, Y) is input lane (X + 3 Y, X)
    rotated by that lane's offset. *)
Definition rho_pi (st : list Z) : list Z :=
  map (fun i =>
         let X := (i mod 5)%nat in
         let Y := (i / 5)%nat in
         let src := ((X + 3 * Y) mod 5 + 5 * X)%nat in
         rotl64 (lane_at st src) (nth src rho_offsets 0))
      (seq 0 25).

Definition chi (st : list Z) : list Z :=
  map (fun i =>
         let x := (i mod 5)%nat in
         let row := (5 * (i / 5))%nat in
         let b1 := lane_at st (row + (x + 1) mod 5) in
         let b2 := lane_at st (row + (x + 2) mod 5) in
         Z.lxor (lane_at st i) (Z.land (Z.lxor b1 (Z.ones 64)) b2))
      (seq 0 25).

Definition iota (rc : Z) (st : list Z) : list Z :=
  match st with
  | [] => []
  | a :: rest => Z.lxor a rc :: rest
  end.

Definition keccak_round (st : list Z) (rc : Z) : list Z :=
  iota rc (chi (rho_pi (theta st))).

Definition keccak_f (st : list Z) : list Z :=
  fold_left keccak_round round_constants st.

(** Little-endian lane of (up to) eight bytes. *)
Fixpoint lane_of_bytes (bs : list Z) : Z :=
  match bs with
  | [] => 0
  | b :: rest => Z.lor b (Z.shiftl (lane_of_bytes rest) 8)
  end.

Fixpoint lanes_of_block (n : nat) (bs : list Z) : list Z :=
  match n with
  | O => []
  | S n' => lane_of_bytes (take 8 bs) :: lanes_of_block n' (drop 8 bs)
  end.

Fixpoint xor_into (st blk : list Z) : list Z :=
  match st, blk with
  | s :: st', b :: blk' => Z.lxor s b :: xor_into st' blk'
  | _, _ => st
  end.

(** Domain separation 0x06 and the final bit 0x80 (pad10*1). *)
Definition pad (rate : nat) (m : list Z) : list Z :=
  let q := (rate - length m mod rate)%nat in
  match q with
  | 1%nat => m ++ [0x86]
  | _ => m ++ 0x06 :: replicate (q - 2) 0 ++ [0x80]
  end.

Fixpoint absorb (rate : nat) (blocks : nat) (st : list Z) (m : list Z) : list Z :=
  match blocks with
  | O => st
  | S k =>
      let st' := keccak_f (xor_into st (lanes_of_block (rate / 8) (take rate m))) in
      absorb rate k st' (drop rate m)
  end.

Definition state_byte (st : list Z) (i : nat) : Z :=
  Z.land (Z.shiftr (lane_at st (i / 8)) (8 * Z.of_nat (i mod 8))) 255.

Definition sponge (rate outlen : nat) (m : list Z) : list Z :=
  let p := pad rate m in
  let st := absorb rate (length p / rate) (replicate 25 0) p in
  map (state_byte st) (seq 0 outlen).

Definition sha3_256 (m : list Z) : list Z := sponge 136 32 m.
Definition sha3_512 (m : list Z) : list Z := sponge 72 64 m.

End Keccak.

(** ** Byte strings, formatted messages, outcomes *)

Abbreviation byte := Z (only parsing).

Definition bytes_of_string (s : string) : list byte :=
  map (fun c => Z.of_nat (nat_of_ascii c)) (list_ascii_of_string s).

(** [%d] of [fmt.Sprintf]. *)
Definition itoa (z : Z) : string := NilZero.string_of_int (Z.to_int z).

Definition itoa_nat (n : nat) : string := itoa (Z.of_nat n).

(** What a Go function of type [(T, error)] can do: return a value,
    return an error built by [fmt.Errorf], or panic at run time. *)
Inductive result (A : Type) : Type :=
| Ok (a : A)
| Err (msg : string)
| Panic (msg : string).
Arguments Ok {A} a.
Arguments Err {A} msg.
Arguments Panic {A} msg.

Definition bind {A B : Type} (r : result A) (k : A -> result B) : result B :=
  match r with
  | Ok a => k a
  | Err msg => Err msg
  | Panic msg => Panic msg
  end.

Notation "'do' x <- r ; k" := (bind r (fun x => k))
  (at level 10, x name, r at level 100, k at level 200).

(** ** Constants of the basic encryption implementation *)

Definition BlockSize : nat := 64.
Definition Rounds : nat := 16.
Definition NonceSize : nat := 16.
Definition TagSize : nat := 64.
Definition KeySize : nat := 32.

(** ** Key derivation *)

Definition numKeys : nat := 11.
Definition keySize : nat := 16.

(** Body of the derivation loop: the key of iteration [i]. *)
Definition derivedKey (masterKey : list byte) (i : nat) : list byte :=
  let digest :=
    Keccak.sha3_512 (masterKey ++ bytes_of_string ("key_" +:+ itoa_nat i)) in
  take keySize digest.

Definition DeriveKeys (masterKey : list byte) : result (list (list byte)) :=
  if negb (length masterKey =? KeySize)%nat then
    Err ("invalid master key size: expected " +:+ itoa_nat KeySize +:+
         " bytes, got " +:+ itoa_nat (length masterKey))
  else
    Ok (map (derivedKey masterKey) (seq 0 numKeys)).

Definition DeriveIV (nonce key : list byte) : list byte :=
  Keccak.sha3_512 (nonce ++ key).

(** ** The block transform *)

(** The S-box output for one byte: first byte of SHA3-256 of that byte. *)
Definition sboxOutput (b : byte) : byte := nth 0 (Keccak.sha3_256 [b]) 0.

Definition SubstituteBlock (block : list byte) : list byte :=
  map sboxOutput block.

Definition PermuteBlock (block : list byte) : list byte :=
  let n := length block in
  fold_left (fun result i =>
               let newPos := ((i * 5 + 7) mod n)%nat in
               <[newPos := nth i block 0]> result)
            (seq 0 n) (replicate n 0).

(** [key] is never empty where the source calls this (the 64-byte
    expanded key); on an empty key Go panics on the modulus. *)
Definition MixBlock (block key : list byte) : list byte :=
  imap (fun i b => Z.lxor b (nth (i mod length key) key 0)) block.

Definition expandKey (roundKey : list byte) : list byte :=
  map (fun i => nth (i mod length roundKey) roundKey 0) (seq 0 BlockSize).

(** XOR of the first [BlockSize] positions, as the closing loops of
    [EncryptBlock] and [DecryptBlock] do it in place. *)
Definition xorPrefix (block expanded : list byte) : list byte :=
  imap (fun i b => if (i <? BlockSize)%nat then Z.lxor b (nth i expanded 0) else b) block.

Definition roundKeyAt (keys : list (list byte)) (round : nat) : list byte :=
  nth (round mod length keys) keys [].

Definition lastKeyOf (keys : list (list byte)) : list byte :=
  nth (length keys - 1) keys [].

Definition encryptRound (keys : list (list byte)) (ciphertext : list byte) (round : nat)
  : list byte :=
  MixBlock (PermuteBlock (SubstituteBlock ciphertext)) (expandKey (roundKeyAt keys round)).

Definition EncryptBlock (block : list byte) (keys : list (list byte)) : list byte :=
  let ciphertext := fold_left (encryptRound keys) (seq 0 Rounds) block in
  xorPrefix ciphertext (expandKey (lastKeyOf keys)).

Definition ReversePermuteBlock (block : list byte) : list byte :=
  let n := length block in
  fold_left (fun result i =>
               match find (fun j => ((j * 5 + 7) mod n =? i)%nat) (seq 0 n) with
               | Some j => <[i := nth j block 0]> result
               | None => result
               end)
            (seq 0 n) (replicate n 0).

Definition ReverseSubstituteBlock (block : list byte) : list byte :=
  SubstituteBlock block.

Definition decryptRound (keys : list (list byte)) (plaintext : list byte) (round : nat)
  : list byte :=
  ReverseSubstituteBlock
    (ReversePermuteBlock (MixBlock plaintext (expandKey (roundKeyAt keys round)))).

Definition DecryptBlock (ciphertext : list byte) (keys : list (list byte)) : list byte :=
  let plaintext := xorPrefix ciphertext (expandKey (lastKeyOf keys)) in
  fold_left (decryptRound keys) (rev (seq 0 Rounds)) plaintext.

(** ** HMAC-SHA3-512 *)

Definition ipadByte : byte := 0x36.
Definition opadByte : byte := 0x5c.
Definition hmacBlockSize : nat := 136.

Definition ComputeHMAC (key data : list byte) : list byte :=
  let material :=
    if (length key <=? hmacBlockSize)%nat then key else Keccak.sha3_512 key in
  let expandedKey := material ++ replicate (hmacBlockSize - length material) 0 in
  let ipad := map (fun k => Z.lxor k ipadByte) expandedKey in
  let opad := map (fun k => Z.lxor k opadByte) expandedKey in
  let innerDigest := Keccak.sha3_512 (ipad ++ data) in
  Keccak.sha3_512 (opad ++ innerDigest).

Fixpoint orXor (computed tag : list byte) (acc : Z) : Z :=
  match computed, tag with
  | c :: computed', t :: tag' => orXor computed' tag' (Z.lor acc (Z.lxor c t))
  | _, _ => acc
  end.

Definition VerifyHMAC (key data tag : list byte) : bool :=
  let computed := ComputeHMAC key data in
  if negb (length computed =? length tag)%nat then false
  else orXor computed tag 0 =? 0.

(** ** Authenticated encryption and decryption *)

Fixpoint cbcEncrypt (keys : list (list byte)) (blocks : nat)
         (padded prevBlock : list byte) : list byte :=
  match blocks with
  | O => []
  | S k =>
      let xoredBlock :=
        map (fun j => Z.lxor (nth j padded 0) (nth j prevBlock 0)) (seq 0 BlockSize) in
      let encryptedBlock := EncryptBlock xoredBlock keys in
      encryptedBlock ++ cbcEncrypt keys k (drop BlockSize padded) encryptedBlock
  end.

(** Padding step of [EncryptData]: the buffer of [paddedLength] bytes
    that holds the plaintext followed by [paddingLength] bytes of value
    [byte(paddingLength)]. *)
Definition paddedLengthOf (plaintext : list byte) : nat :=
  ((length plaintext + BlockSize - 1) / BlockSize * BlockSize)%nat.

Definition padPlaintext (plaintext : list byte) : list byte :=
  let paddedLength := paddedLengthOf plaintext in
  let paddingLength := (paddedLength - length plaintext)%nat in
  plaintext ++ replicate paddingLength (Z.of_nat paddingLength mod 256).

(** The function on a nonce that the caller gives.  For a nil nonce
    (which, as a list, is the empty one) the source draws sixteen bytes
    from an entropy source built on [math.Random], which package [math]
    does not have, and goes on as for a given nonce of that size; that
    branch is not part of the model. *)
Definition EncryptData (plaintext masterKey nonce : list byte) : result (list byte) :=
  if negb (length masterKey =? KeySize)%nat then
    Err ("invalid master key size: expected " +:+ itoa_nat KeySize +:+
         ", got " +:+ itoa_nat (length masterKey))
  else
    do keys <- DeriveKeys masterKey;
    if negb (length nonce =? NonceSize)%nat then
      Err ("invalid nonce size: expected " +:+ itoa_nat NonceSize +:+
           ", got " +:+ itoa_nat (length nonce))
    else
      let iv := DeriveIV nonce masterKey in
      let paddedLength := paddedLengthOf plaintext in
      let padded := padPlaintext plaintext in
      let ciphertext := cbcEncrypt keys (paddedLength / BlockSize) padded iv in
      let authKey := lastKeyOf keys in
      let tagData := nonce ++ ciphertext in
      let tag := ComputeHMAC authKey tagData in
      Ok (ciphertext ++ nonce ++ tag).

(** The CBC loop of [DecryptData].  [data] is the frame from the current
    offset on: the slice [ciphertext[i:i+BlockSize]] may reach past the
    ciphertext into nonce and tag, which the capacity of the slice allows;
    [remaining] is what is left of the ciphertext, and the write to
    [plaintext[i+j]] goes out of range when fewer than [BlockSize] bytes
    remain.  [plainLen] is [len(plaintext)], for the panic message. *)
Fixpoint cbcDecrypt (keys : list (list byte)) (iters : nat) (plainLen : nat)
         (data : list byte) (remaining : nat) (iv : list byte) : result (list byte) :=
  match iters with
  | O => Ok []
  | S k =>
      let encryptedBlock := take BlockSize data in
      let decryptedBlock := DecryptBlock encryptedBlock keys in
      if (remaining <? BlockSize)%nat then
        Panic ("runtime error: index out of range [" +:+ itoa_nat plainLen +:+
               "] with length " +:+ itoa_nat plainLen)
      else
        let plainBlock :=
          map (fun j => Z.lxor (nth j decryptedBlock 0) (nth j iv 0)) (seq 0 BlockSize) in
        do rest <- cbcDecrypt keys k plainLen (drop BlockSize data)
                              (remaining - BlockSize) encryptedBlock;
        Ok (plainBlock ++ rest)
  end.

(** The padding loop runs over the last [paddingLength] positions; the
    plaintext holds at least [BlockSize] bytes whenever it is reached. *)
Definition paddingBytesOk (plaintext : list byte) (paddingLength : nat) : bool :=
  forallb (fun b => b =? Z.of_nat paddingLength mod 256)
          (drop (length plaintext - paddingLength) plaintext).

Definition DecryptData (encryptedData masterKey : list byte) : result (list byte) :=
  if negb (length masterKey =? KeySize)%nat then
    Err ("invalid master key size: expected " +:+ itoa_nat KeySize +:+
         ", got " +:+ itoa_nat (length masterKey))
  else if (length encryptedData <? NonceSize + TagSize)%nat then
    Err ("encrypted data too short: expected at least " +:+
         itoa_nat (NonceSize + TagSize) +:+ " bytes, got " +:+
         itoa_nat (length encryptedData))
  else
    let ciphertextLength := (length encryptedData - NonceSize - TagSize)%nat in
    let ciphertext := take ciphertextLength encryptedData in
    let nonce := take NonceSize (drop ciphertextLength encryptedData) in
    let receivedTag := drop (ciphertextLength + NonceSize) encryptedData in
    do keys <- DeriveKeys masterKey;
    let authKey := lastKeyOf keys in
    let tagData := nonce ++ ciphertext in
    if negb (VerifyHMAC authKey tagData receivedTag) then
      Err "authentication tag verification failed"
    else
      let iv := DeriveIV nonce masterKey in
      do plaintext <- cbcDecrypt keys ((ciphertextLength + BlockSize - 1) / BlockSize)
                                 ciphertextLength encryptedData ciphertextLength iv;
      if (length plaintext =? 0)%nat then
        Err "decrypted plaintext is empty"
      else
        let paddingLength := Z.to_nat (nth (length plaintext - 1) plaintext 0) in
        if ((BlockSize <? paddingLength) || (paddingLength =? 0))%nat then
          Err ("invalid padding: " +:+ itoa_nat paddingLength)
        else if negb (paddingBytesOk plaintext paddingLength) then
          Err "invalid padding bytes"
        else
          Ok (take (length plaintext - paddingLength) plaintext).

(** ** Vocabulary of the statements *)

Definition isByte (b : Z) : Prop := 0 <= b < 256.

(** The key [00 01 .. 1f] and the nonce [00 01 .. 0f]. *)
Definition K0 : list byte := map Z.of_nat (seq 0 32).
Definition N0 : list byte := map Z.of_nat (seq 0 16).

(** The first CBC block of a one-byte plaintext [p]. *)
Definition firstBlockOf (p : byte) (iv : list byte) : list byte :=
  map (fun j => Z.lxor (nth j (padPlaintext [p]) 0) (nth j iv 0)) (seq 0 BlockSize).

(** The parts of a frame as [DecryptData] slices them. *)
Definition frameCiphertext (F : list byte) : list byte :=
  take (length F - NonceSize - TagSize) F.
Definition frameNonce (F : list byte) : list byte :=
  take NonceSize (drop (length F - NonceSize - TagSize) F).
Definition frameTag (F : list byte) : list byte :=
  drop (length F - NonceSize - TagSize + NonceSize) F.

(** ** The NIST SP 800-56A style derivation (kdf-compliance.go) *)

Definition wrap32 (z : Z) : Z := z mod 2 ^ 32.

(** The four bytes appended for the counter, most significant first. *)
Definition counterBytes (currentCounter : Z) : list byte :=
  [Z.land (Z.shiftr currentCounter 24) 0xFF;
   Z.land (Z.shiftr currentCounter 16) 0xFF;
   Z.land (Z.shiftr currentCounter 8) 0xFF;
   Z.land currentCounter 0xFF].

(** [masterKey] is a [[32]byte] and [nonce] a [[16]byte] in the source;
    [counter] is a [uint32].  The error result is always [nil]. *)
Definition DeriveKeysNISTSP80056A (masterKey nonce sharedSecret : list byte) (counter : Z)
  : list (list byte) :=
  map (fun keyIndex =>
         let currentCounter := wrap32 (counter + Z.of_nat (keyIndex + 1)) in
         let kdfInput := counterBytes currentCounter ++ masterKey ++ nonce ++ sharedSecret in
         let hash := Keccak.sha3_512 kdfInput in
         take 16 hash)
      (seq 0 11).

(** The distinctness loop of [ValidateDerivedKeys] (its second loop
    measures entropy in floating point and is not modelled). *)
Definition keysEqual (a b : list byte) : bool :=
  bool_decide (a = b).

Definition keysDistinct (keys : list (list byte)) : bool :=
  forallb (fun i =>
             forallb (fun j => negb (keysEqual (nth i keys []) (nth j keys [])))
                     (seq (i + 1) (11 - (i + 1))))
          (seq 0 11).

(** ** S-boxes and P-layer (phase2-sbox-player.go) *)

(** A Go array literal with fewer elements than the array is long is
    filled with zero bytes. *)
Definition zeroFilled (given : list byte) : list byte :=
  given ++ replicate (256 - length given) 0.

Definition SBoxTable : list (list byte) :=
  [ zeroFilled [0xd7; 0xaa; 0x74; 0xd8; 0x62; 0xb1; 0x72; 0x50;
                0xa8; 0xfb; 0xc0; 0x54; 0x3d; 0x6b; 0x88; 0x47];
    zeroFilled [0x63; 0x7c; 0x77; 0x7b; 0xf2; 0x6b; 0x6f; 0xc5];
    zeroFilled [0x52; 0x09; 0x6a; 0xd5; 0x30; 0x36; 0xa5; 0x38];
    zeroFilled [0xbf; 0x40; 0xa3; 0x9e; 0x81; 0xf3; 0xd7; 0xfb];
    zeroFilled [0x7e; 0xfe; 0xde; 0xdc; 0xb2; 0xb6; 0xd4; 0xe8];
    zeroFilled [0x85; 0x57; 0x13; 0x23; 0x94; 0x20; 0x14; 0x02];
    zeroFilled [0xa1; 0x48; 0x69; 0xd9; 0xf4; 0x2a; 0x6c; 0x54];
    zeroFilled [0x73; 0x62; 0x97; 0x23; 0xcb; 0x61; 0x97; 0x67] ].

Definition PLayerPermutation : list nat :=
  [0; 8; 16; 24; 32; 40; 48; 56;
   1; 9; 17; 25; 33; 41; 49; 57;
   2; 10; 18; 26; 34; 42; 50; 58;
   3; 11; 19; 27; 35; 43; 51; 59;
   4; 12; 20; 28; 36; 44; 52; 60;
   5; 13; 21; 29; 37; 45; 53; 61;
   6; 14; 22; 30; 38; 46; 54; 62;
   7; 15; 23; 31; 39; 47; 55; 63]%nat.

(** [inv[perm[i]] = i] for [i] from 0 to 63, on an array of 64 zeros.
    An entry of [perm] outside [0,64) would panic; the permutations
    passed here have none. *)
Definition computeInversePermutation (perm : list nat) : list nat :=
  fold_left (fun inv i => <[nth i perm 0%nat := i]> inv) (seq 0 64) (replicate 64 0%nat).

Definition InversePLayerPermutation : list nat :=
  computeInversePermutation PLayerPermutation.

(** The S-box of position [i*8+j] is box [j], read at the input byte. *)
Definition ApplySBoxes (sboxes : list (list byte)) (input : list byte) : list byte :=
  map (fun k =>
         let j := (k mod 8)%nat in
         let inputByte := nth k input 0 in
         nth (Z.to_nat inputByte) (nth j sboxes []) 0)
      (seq 0 64).

Definition bytesToBitsArray (data : list byte) : list Z :=
  map (fun k =>
         let i := (k / 8)%nat in
         let j := (k mod 8)%nat in
         if Z.land (nth i data 0) (Z.shiftl 1 (7 - Z.of_nat j)) =? 0 then 0 else 1)
      (seq 0 512).

Definition bitsToByteArray (bits : list Z) : list byte :=
  map (fun i =>
         fold_left (fun b j =>
                      if nth (i * 8 + j) bits 0 =? 1
                      then Z.lor b (Z.shiftl 1 (7 - Z.of_nat j))
                      else b)
                   (seq 0 8) 0)
      (seq 0 64).

(** The loop reads [player[i]] for [i] up to 511 from an array of 64
    entries: the first read past the end panics. *)
Fixpoint permuteBits (player : list nat) (bits : list Z) (idxs : list nat)
  : result (list Z) :=
  match idxs with
  | [] => Ok []
  | i :: rest =>
      match player !! i with
      | None =>
          Panic ("runtime error: index out of range [" +:+ itoa_nat i +:+
                 "] with length " +:+ itoa_nat (length player))
      | Some src =>
          do permBits <- permuteBits player bits rest;
          Ok (nth src bits 0 :: permBits)
      end
  end.

Definition ApplyPLayer (player : list nat) (input : list byte) : result (list byte) :=
  let bits := bytesToBitsArray input in
  do permBits <- permuteBits player bits (seq 0 512);
  Ok (bitsToByteArray permBits).

Fixpoint PerformSBoxAndPLayer (sboxes : list (list byte)) (player : list nat)
         (output : list byte) (fromRound rounds : nat) : result (list byte) :=
  match rounds with
  | O => Ok output
  | S k =>
      let substituted := ApplySBoxes sboxes output in
      do permuted <- ApplyPLayer player substituted;
      let mixed := map (fun b => Z.lxor b (Z.lxor 0x55 (Z.of_nat fromRound mod 256))) permuted in
      PerformSBoxAndPLayer sboxes player mixed (S fromRound) k
  end.

Definition VerifyPhase2Output (output : list byte) : bool :=
  existsb (fun i => negb (nth i output 0 =? 0)) (seq 0 64).

(** ** Frames used as concrete inputs (all under key [K0], nonce [N0]) *)

(** The frame of the empty plaintext: no ciphertext, the nonce, the tag. *)
Definition emptyFrame : list byte :=
  [
   0; 1; 2; 3; 4; 5; 6; 7; 8; 9; 10; 11; 12; 13; 14; 15;
   17; 12; 246; 106; 218; 157; 175; 234; 117; 245; 210; 45; 145; 173; 116; 100;
   166; 61; 247; 79; 183; 208; 196; 2; 97; 8; 139; 205; 219; 234; 167; 78;
   231; 231; 81; 9; 19; 208; 211; 253; 232; 17; 168; 111; 55; 142; 228; 164;
   105; 82; 224; 39; 90; 128; 174; 78; 30; 71; 153; 117; 177; 4; 190; 99].

(** A frame of one ciphertext block whose tag is the right one. *)
Definition oneBlockFrame : list byte :=
  [
   124; 202; 118; 0; 145; 32; 176; 202; 187; 166; 250; 127; 153; 92; 229; 129;
   94; 202; 188; 30; 63; 1; 132; 205; 233; 82; 49; 251; 73; 100; 169; 53;
   94; 57; 13; 219; 32; 85; 132; 205; 134; 192; 122; 56; 73; 131; 158; 195;
   79; 64; 112; 170; 133; 32; 250; 76; 166; 166; 251; 251; 73; 195; 229; 50;
   0; 1; 2; 3; 4; 5; 6; 7; 8; 9; 10; 11; 12; 13; 14; 15;
   109; 116; 47; 252; 126; 141; 11; 134; 37; 84; 244; 218; 110; 204; 107; 7;
   75; 86; 133; 44; 137; 90; 129; 198; 112; 178; 57; 60; 70; 195; 218; 234;
   207; 147; 167; 107; 111; 35; 30; 143; 227; 164; 3; 193; 162; 157; 123; 146;
   75; 252; 115; 52; 108; 249; 107; 174; 208; 111; 226; 195; 64; 157; 111; 208].

(** [oneBlockFrame] with its first ciphertext byte flipped. *)
Definition tamperedFrame : list byte :=
  Z.lxor (nth 0 oneBlockFrame 0) 0xFF :: drop 1 oneBlockFrame.

(** The authentication key the specification describes. *)
Definition specAuthKey (masterKey nonce : list byte) : list byte :=
  take 32 (Keccak.sha3_512 (bytes_of_string "AUTH" ++ masterKey ++ nonce)).

Definition authError : string := "authentication tag verification failed".

(** ** Key rotation manager (example/key-rotation.go) *)

(** Go's [int] on the platforms the code targets: 64 bits, wrapping. *)
Definition wrap64 (z : Z) : Z := (z + 2 ^ 63) mod 2 ^ 64 - 2 ^ 63.

(** [float64(x)] of an integer: the nearest double, ties to even. *)
Definition float64 (z : Z) : SpecFloat.spec_float :=
  SpecFloat.binary_normalize 53 1024 z 0 false.

(** [time.Duration]: a 64-bit count of nanoseconds.  [t.Sub(u)], and with
    it [time.Since], saturates at the smallest and largest duration. *)
Definition durationBetween (t u : Z) : Z :=
  Z.max (- 2 ^ 63) (Z.min (2 ^ 63 - 1) (t - u)).

(** [Duration.Hours]: [float64(d / Hour) + float64(d % Hour) / (60*60*1e9)],
    with Go's truncating division and remainder. *)
Definition durationHours (d : Z) : SpecFloat.spec_float :=
  let hour := 60 * 60 * 1000000000 in
  SpecFloat.SFadd 53 1024
    (float64 (Z.quot d hour))
    (SpecFloat.SFdiv 53 1024 (float64 (Z.rem d hour)) (float64 hour)).

Definition hexDigit (d : Z) : ascii :=
  nth (Z.to_nat d)
      (list_ascii_of_string "0123456789abcdef") "0"%char.

(** [fmt.Sprintf("%x", bytes)]: two lower-case digits per byte. *)
Fixpoint hexString (bs : list byte) : string :=
  match bs with
  | [] => EmptyString
  | b :: rest => String (hexDigit (b / 16)) (String (hexDigit (b mod 16)) (hexString rest))
  end.

Definition prefixOf (n : nat) (s : string) : string := substring 0 n s.

Definition hashKey (key : list byte) : string :=
  prefixOf 32 (hexString (Keccak.sha3_512 key)).

Module KeyRotation.

Inductive KeyState : Type :=
| KeyStateActive
| KeyStatePending
| KeyStateRotated
| KeyStateArchived
| KeyStateDestroyed.

#[global] Instance KeyState_eq_dec : EqDecision KeyState.
Proof. solve_decision. Defined.

Definition KeyState_eqb (a b : KeyState) : bool :=
  match a, b with
  | KeyStateActive, KeyStateActive
  | KeyStatePending, KeyStatePending
  | KeyStateRotated, KeyStateRotated
  | KeyStateArchived, KeyStateArchived
  | KeyStateDestroyed, KeyStateDestroyed => true
  | _, _ => false
  end.

(** Times are nanoseconds since the epoch; [None] is the zero
    [time.Time] of a field that was never set. *)
Record KeyMetadata : Type := mkKeyMetadata {
  ID : string;
  Version : Z;
  State : KeyState;
  CreatedAt : option Z;
  ActivatedAt : option Z;
  RotatedAt : option Z;
  ArchivedAt : option Z;
  DestroyedAt : option Z;
  KeyHash : string;
  EncryptionCount : Z;
  DecryptionCount : Z
}.

(** [Material] is a slice: a reference to a byte buffer, or [nil]. *)
Record KeyEntry : Type := mkKeyEntry {
  Metadata : KeyMetadata;
  Material : option nat;
  ExpiresAt : Z
}.

Record KeyRotationPolicy : Type := mkKeyRotationPolicy {
  Enabled : bool;
  IntervalDays : Z;
  RetentionCycles : Z;
  MaxKeyAgeDays : Z;
  MinKeyAgeDays : Z;
  ArchiveLocation : string;
  DestructionMethod : string;
  DestructionPasses : Z
}.

Definition DefaultKeyRotationPolicy : KeyRotationPolicy :=
  {| Enabled := true;
     IntervalDays := 365;
     RetentionCycles := 3;
     MaxKeyAgeDays := 730;
     MinKeyAgeDays := 30;
     ArchiveLocation := "/var/lib/eamsa512/key-archive/";
     DestructionMethod := "random";
     DestructionPasses := 3 |}.

(** The manager, with the objects its pointers refer to: [entries]
    holds the [KeyEntry] objects ([activeKey] and the values of
    [history] are indices into it, so that the active key and its
    history entry are one object), [buffers] the byte buffers that key
    slices point to (shared with whoever passed the key in), and
    [ticks] counts the calls of [time.Now] made so far. *)
Record KeyManager : Type := mkKeyManager {
  activeKey : option nat;
  history : gmap Z nat;
  currentVersion : Z;
  policy : KeyRotationPolicy;
  lastRotationTime : Z;
  entries : list KeyEntry;
  buffers : list (list byte);
  ticks : nat
}.

Definition setState (s : KeyState) (m : KeyMetadata) : KeyMetadata :=
  mkKeyMetadata (ID m) (Version m) s (CreatedAt m) (ActivatedAt m) (RotatedAt m)
                (ArchivedAt m) (DestroyedAt m) (KeyHash m)
                (EncryptionCount m) (DecryptionCount m).

Definition setRotatedAt (t : Z) (m : KeyMetadata) : KeyMetadata :=
  mkKeyMetadata (ID m) (Version m) (State m) (CreatedAt m) (ActivatedAt m) (Some t)
                (ArchivedAt m) (DestroyedAt m) (KeyHash m)
                (EncryptionCount m) (DecryptionCount m).

Definition setArchivedAt (t : Z) (m : KeyMetadata) : KeyMetadata :=
  mkKeyMetadata (ID m) (Version m) (State m) (CreatedAt m) (ActivatedAt m) (RotatedAt m)
                (Some t) (DestroyedAt m) (KeyHash m)
                (EncryptionCount m) (DecryptionCount m).

Definition setEncryptionCount (n : Z) (m : KeyMetadata) : KeyMetadata :=
  mkKeyMetadata (ID m) (Version m) (State m) (CreatedAt m) (ActivatedAt m) (RotatedAt m)
                (ArchivedAt m) (DestroyedAt m) (KeyHash m) n (DecryptionCount m).

Definition setDecryptionCount (n : Z) (m : KeyMetadata) : KeyMetadata :=
  mkKeyMetadata (ID m) (Version m) (State m) (CreatedAt m) (ActivatedAt m) (RotatedAt m)
                (ArchivedAt m) (DestroyedAt m) (KeyHash m) (EncryptionCount m) n.

Definition withMetadata (f : KeyMetadata -> KeyMetadata) (e : KeyEntry) : KeyEntry :=
  mkKeyEntry (f (Metadata e)) (Material e) (ExpiresAt e).

Definition withMaterial (m : option nat) (e : KeyEntry) : KeyEntry :=
  mkKeyEntry (Metadata e) m (ExpiresAt e).

Definition setEntries (es : list KeyEntry) (km : KeyManager) : KeyManager :=
  mkKeyManager (activeKey km) (history km) (currentVersion km) (policy km)
               (lastRotationTime km) es (buffers km) (ticks km).

Definition setBuffers (bs : list (list byte)) (km : KeyManager) : KeyManager :=
  mkKeyManager (activeKey km) (history km) (currentVersion km) (policy km)
               (lastRotationTime km) (entries km) bs (ticks km).

Definition setPolicy (p : KeyRotationPolicy) (km : KeyManager) : KeyManager :=
  mkKeyManager (activeKey km) (history km) (currentVersion km) p
               (lastRotationTime km) (entries km) (buffers km) (ticks km).

(** The bytes a slice refers to ([nil] has none). *)
Definition sliceBytes (bs : list (list byte)) (s : option nat) : list byte :=
  match s with
  | Some p => default [] (bs !! p)
  | None => []
  end.

Definition stateOf (es : list KeyEntry) (p : nat) : option KeyState :=
  (fun e => State (Metadata e)) <$> es !! p.

(** A day of 24 hours, in nanoseconds. *)
Definition nanosPerDay : Z := 24 * 60 * 60 * 1000000000.

Section WithClock.

(** What the [n]-th reading of the time ([time.Now], [time.Since])
    finds: [clock n] on the wall clock, in nanoseconds since the Unix
    epoch, and [mono n] on the monotonic clock, in nanoseconds.  The two
    clocks need not advance together. *)
Variable clock : nat -> Z.
Variable mono : nat -> Z.

(** [t.AddDate(0, 0, days)] as a wall-clock time: it depends on the
    calendar and on the time zone of the process, and is left open. *)
Variable addDate : Z -> Z -> Z.

Definition timeNow (km : KeyManager) : Z * KeyManager :=
  (clock (ticks km),
   mkKeyManager (activeKey km) (history km) (currentVersion km) (policy km)
                (lastRotationTime km) (entries km) (buffers km) (S (ticks km))).

(** [initialKey] is the caller's slice; [auditLogError] is what
    opening the audit log file returned ([None]: it opened).
    [lastRotationTime] is read by [time.Since] only, which takes the
    monotonic reading: that reading is what the field holds here. *)
Definition NewKeyManager (bufs : list (list byte)) (ticks0 : nat)
           (initialKey : option nat) (pol : KeyRotationPolicy)
           (auditLogError : option string) : result KeyManager :=
  let key := sliceBytes bufs initialKey in
  if negb (length key =? KeySize)%nat then
    Err ("invalid initial key size: expected " +:+ itoa_nat KeySize +:+
         " bytes, got " +:+ itoa_nat (length key))
  else
    match auditLogError with
    | Some err => Err ("failed to open audit log: " +:+ err)
    | None =>
        let initialMetadata :=
          {| ID := "key_" +:+ itoa 1;
             Version := 1;
             State := KeyStateActive;
             CreatedAt := Some (clock ticks0);
             ActivatedAt := Some (clock (ticks0 + 1));
             RotatedAt := None;
             ArchivedAt := None;
             DestroyedAt := None;
             KeyHash := hashKey key;
             EncryptionCount := 0;
             DecryptionCount := 0 |} in
        let keyEntry :=
          {| Metadata := initialMetadata;
             Material := initialKey;
             ExpiresAt := addDate (clock (ticks0 + 2)) (MaxKeyAgeDays pol) |} in
        Ok {| activeKey := Some 0%nat;
              history := {[ 1 := 0%nat ]};
              currentVersion := 1;
              policy := pol;
              lastRotationTime := mono (ticks0 + 3);
              entries := [keyEntry];
              buffers := bufs;
              ticks := (ticks0 + 4)%nat |}
    end.

(** [t.UnixNano()]: an [int64]. *)
Definition UnixNano (t : Z) : Z := wrap64 t.

(** One pass of the overwrite loop: XOR with the SHA3-256 digest of
    "pass_<pass>_<UnixNano>", repeated over the buffer. *)
Definition passPattern (pass : Z) (nanos : Z) : list byte :=
  Keccak.sha3_256 (bytes_of_string ("pass_" +:+ itoa pass +:+ "_" +:+ itoa nanos)).

Definition xorWithPattern (material pattern : list byte) : list byte :=
  imap (fun i b => Z.lxor b (nth (i mod length pattern) pattern 0)) material.

Fixpoint overwritePasses (n : nat) (pass : Z) (material : list byte) (tick : nat)
  : list byte * nat :=
  match n with
  | O => (material, tick)
  | S n' =>
      let pattern := passPattern pass (UnixNano (clock tick)) in
      overwritePasses n' (pass + 1) (xorWithPattern material pattern) (S tick)
  end.

(** What the loops of [securelyEraseKey] leave in the buffer, and the
    clock reading afterwards. *)
Definition erasedBytes (pol : KeyRotationPolicy) (material : list byte) (tick : nat)
  : list byte * nat :=
  let method := DestructionMethod pol in
  let passes := DestructionPasses pol in
  if String.eqb method "zero" then
    (map (fun _ => 0) material, tick)
  else if (String.eqb method "random" || String.eqb method "overwrite")%bool then
    overwritePasses (Z.to_nat passes) 0 material tick
  else
    (material, tick).

(** [entry] is the pointer to the entry; the loops write through the
    slice into its buffer, then the slice is set to [nil]. *)
Definition securelyEraseKey (entry : nat) (km : KeyManager) : KeyManager :=
  match entries km !! entry with
  | None => km
  | Some e =>
      let '(bytes, tick) := erasedBytes (policy km) (sliceBytes (buffers km) (Material e))
                                        (ticks km) in
      let bufs :=
        match Material e with
        | Some p => <[p := bytes]> (buffers km)
        | None => buffers km
        end in
      mkKeyManager (activeKey km) (history km) (currentVersion km) (policy km)
                   (lastRotationTime km)
                   (<[entry := withMaterial None e]> (entries km)) bufs tick
  end.

Definition inUse (es : list KeyEntry) (p : nat) : bool :=
  match stateOf es p with
  | Some KeyStateActive | Some KeyStateRotated => true
  | _ => false
  end.

Definition activeCountOf (km : KeyManager) : Z :=
  Z.of_nat (length (List.filter (fun vp : Z * nat => inUse (entries km) vp.2)
                                (map_to_list (history km)))).

(** The second loop of [archiveOldKeys].  [order] lists the versions
    in the order in which [range] happens to visit the map. *)
Fixpoint archiveLoop (order : list Z) (keysToArchive : Z) (km : KeyManager)
  : KeyManager :=
  match order with
  | [] => km
  | version :: rest =>
      if keysToArchive <=? 0 then km
      else
        match history km !! version with
        | None => archiveLoop rest keysToArchive km
        | Some p =>
            match entries km !! p with
            | None => archiveLoop rest keysToArchive km
            | Some e =>
                if KeyState_eqb (State (Metadata e)) KeyStateRotated then
                  let e1 := withMetadata (setState KeyStateArchived) e in
                  let '(now, km1) := timeNow (setEntries (<[p := e1]> (entries km)) km) in
                  let e2 := withMetadata (setArchivedAt now) e1 in
                  let km2 := setEntries (<[p := e2]> (entries km1)) km1 in
                  let km3 := securelyEraseKey p km2 in
                  archiveLoop rest (keysToArchive - 1) km3
                else archiveLoop rest keysToArchive km
            end
        end
  end.

Definition archiveOldKeys (order : list Z) (km : KeyManager) : KeyManager :=
  let activeCount := activeCountOf km in
  if RetentionCycles (policy km) <? activeCount then
    let keysToArchive := wrap64 (activeCount - RetentionCycles (policy km)) in
    archiveLoop order keysToArchive km
  else km.

(** [RotateKey] after its age check and up to, but without, its call
    of [archiveOldKeys]: the old active entry is marked, the new
    entry is created and installed. *)
Definition installNewKey (newKey : option nat) (km : KeyManager) : KeyManager :=
  let key := sliceBytes (buffers km) newKey in
  let tick := ticks km in
  let '(es1, tick1) :=
    match activeKey km with
    | Some p =>
        match entries km !! p with
        | Some e =>
            (<[p := withMetadata (fun m => setRotatedAt (clock tick)
                                             (setState KeyStateRotated m)) e]>
               (entries km), S tick)
        | None => (entries km, S tick)
        end
    | None => (entries km, tick)
    end in
  let version := wrap64 (currentVersion km + 1) in
  let newMetadata :=
    {| ID := "key_" +:+ itoa version;
       Version := version;
       State := KeyStateActive;
       CreatedAt := Some (clock tick1);
       ActivatedAt := Some (clock (tick1 + 1));
       RotatedAt := None;
       ArchivedAt := None;
       DestroyedAt := None;
       KeyHash := hashKey key;
       EncryptionCount := 0;
       DecryptionCount := 0 |} in
  let newEntry :=
    {| Metadata := newMetadata;
       Material := newKey;
       ExpiresAt := addDate (clock (tick1 + 2)) (MaxKeyAgeDays (policy km)) |} in
  {| activeKey := Some (length es1);
     history := <[version := length es1]> (history km);
     currentVersion := version;
     policy := policy km;
     lastRotationTime := mono (tick1 + 3);
     entries := es1 ++ [newEntry];
     buffers := buffers km;
     ticks := (tick1 + 4)%nat |}.

(** The age check: [time.Since(lastRotationTime).Hours()], a double,
    is compared with the double of the [int] product
    [MinKeyAgeDays*24]. *)
Definition minimumAgeNotReached (km : KeyManager) : bool :=
  SpecFloat.SFltb
    (durationHours (durationBetween (mono (ticks km)) (lastRotationTime km)))
    (float64 (wrap64 (MinKeyAgeDays (policy km) * 24))).

Definition RotateKey (newKey : option nat) (order : list Z) (km : KeyManager)
  : result unit * KeyManager :=
  let key := sliceBytes (buffers km) newKey in
  if negb (length key =? KeySize)%nat then
    (Err ("invalid new key size: expected " +:+ itoa_nat KeySize +:+
          " bytes, got " +:+ itoa_nat (length key)), km)
  else
    let '(_, km1) := timeNow km in
    if minimumAgeNotReached km then
      (Err ("cannot rotate key before minimum age of " +:+
            itoa (MinKeyAgeDays (policy km)) +:+ " days"), km1)
    else
      (Ok tt, archiveOldKeys order (installNewKey newKey km1)).

Definition GetActiveKey (km : KeyManager) : result (option nat) * KeyManager :=
  match activeKey km with
  | None => (Err "no active key available", km)
  | Some p =>
      let '(now, km1) := timeNow km in
      match entries km !! p with
      | None => (Panic "invalid memory address or nil pointer dereference", km1)
      | Some e =>
          if ExpiresAt e <? now then (Err "active key has expired", km1)
          else (Ok (Material e), km1)
      end
  end.

Definition stateName (s : KeyState) : string :=
  match s with
  | KeyStateActive => "active"
  | KeyStatePending => "pending"
  | KeyStateRotated => "rotated"
  | KeyStateArchived => "archived"
  | KeyStateDestroyed => "destroyed"
  end.

Definition entryOf (km : KeyManager) (version : Z) : option KeyEntry :=
  p ← history km !! version; entries km !! p.

Definition GetKeyByVersion (version : Z) (km : KeyManager) : result (option nat) :=
  match entryOf km version with
  | None => Err ("key version " +:+ itoa version +:+ " not found")
  | Some entry =>
      if negb (KeyState_eqb (State (Metadata entry)) KeyStateActive) &&
         negb (KeyState_eqb (State (Metadata entry)) KeyStateRotated) then
        Err ("key version " +:+ itoa version +:+ " is not available (state: " +:+
             stateName (State (Metadata entry)) +:+ ")")
      else Ok (Material entry)
  end.

Definition GetKeyMetadata (version : Z) (km : KeyManager) : result KeyMetadata :=
  match entryOf km version with
  | None => Err ("key version " +:+ itoa version +:+ " not found")
  | Some entry => Ok (Metadata entry)
  end.

Definition GetActiveKeyMetadata (km : KeyManager) : result KeyMetadata :=
  match activeKey km with
  | None => Err "no active key available"
  | Some p =>
      match entries km !! p with
      | None => Panic "invalid memory address or nil pointer dereference"
      | Some e => Ok (Metadata e)
      end
  end.

Definition IncrementEncryptionCount (km : KeyManager) : KeyManager :=
  match activeKey km with
  | None => km
  | Some p =>
      match entries km !! p with
      | None => km
      | Some e =>
          setEntries
            (<[p := withMetadata
                      (fun m => setEncryptionCount (wrap64 (EncryptionCount m + 1)) m) e]>
               (entries km)) km
      end
  end.

Definition IncrementDecryptionCount (version : Z) (km : KeyManager)
  : result unit * KeyManager :=
  match history km !! version with
  | None => (Err ("key version " +:+ itoa version +:+ " not found"), km)
  | Some p =>
      match entries km !! p with
      | None => (Panic "invalid memory address or nil pointer dereference", km)
      | Some e =>
          (Ok tt,
           setEntries
             (<[p := withMetadata
                       (fun m => setDecryptionCount (wrap64 (DecryptionCount m + 1)) m) e]>
                (entries km)) km)
      end
  end.

Definition UpdateRotationPolicy (pol : KeyRotationPolicy) (km : KeyManager)
  : result unit * KeyManager :=
  if IntervalDays pol <=? 0 then (Err "rotation interval must be > 0", km)
  else if MaxKeyAgeDays pol <=? IntervalDays pol then
    (Err "max key age must be > rotation interval", km)
  else if RetentionCycles pol <? 1 then (Err "retention cycles must be >= 1", km)
  else (Ok tt, setPolicy pol km).

Record KeyStatistics : Type := mkKeyStatistics {
  TotalKeys : Z;
  ActiveKeys : Z;
  RotatedKeys : Z;
  ArchivedKeys : Z;
  TotalEncryptions : Z;
  TotalDecryptions : Z
}.

Definition countState (km : KeyManager) (s : KeyState) : Z :=
  Z.of_nat (length (List.filter
                      (fun vp : Z * nat =>
                         match stateOf (entries km) vp.2 with
                         | Some s' => KeyState_eqb s' s
                         | None => false
                         end)
                      (map_to_list (history km)))).

Definition sumOver (km : KeyManager) (f : KeyMetadata -> Z) : Z :=
  fold_right (fun (vp : Z * nat) acc =>
                match entries km !! vp.2 with
                | Some e => wrap64 (f (Metadata e) + acc)
                | None => acc
                end)
             0 (map_to_list (history km)).

Definition GetStatistics (km : KeyManager) : KeyStatistics :=
  {| TotalKeys := Z.of_nat (size (history km));
     ActiveKeys := countState km KeyStateActive;
     RotatedKeys := countState km KeyStateRotated;
     ArchivedKeys := countState km KeyStateArchived;
     TotalEncryptions := sumOver km EncryptionCount;
     TotalDecryptions := sumOver km DecryptionCount |}.

(** [RestoreKey]: the decrypted backup becomes a fresh buffer and is
    rotated in. *)
Definition RestoreKey (backupData backupKey : list byte) (order : list Z)
           (km : KeyManager) : result unit * KeyManager :=
  match DecryptData backupData backupKey with
  | Ok key =>
      let km1 := setBuffers (buffers km ++ [key]) km in
      RotateKey (Some (length (buffers km))) order km1
  | Err err => (Err ("failed to decrypt backup: " +:+ err), km)
  | Panic msg => (Panic msg, km)
  end.

(** What the manager's operations can do to a manager, one at a
    time. *)
Inductive step : KeyManager -> KeyManager -> Prop :=
| step_generate (km : KeyManager) (key : list byte) :
    step km (setBuffers (buffers km ++ [key]) km)
| step_rotate (km : KeyManager) (newKey : option nat) (order : list Z) :
    step km (RotateKey newKey order km).2
| step_archive (km : KeyManager) (order : list Z) :
    step km (archiveOldKeys order km)
| step_policy (km : KeyManager) (pol : KeyRotationPolicy) :
    step km (UpdateRotationPolicy pol km).2
| step_encryption_count (km : KeyManager) :
    step km (IncrementEncryptionCount km)
| step_decryption_count (km : KeyManager) (version : Z) :
    step km (IncrementDecryptionCount version km).2
| step_get_active (km : KeyManager) :
    step km (GetActiveKey km).2
| step_restore (km : KeyManager) (backupData backupKey : list byte) (order : list Z) :
    step km (RestoreKey backupData backupKey order km).2.

Inductive reachable : KeyManager -> Prop :=
| reachable_init bufs ticks0 initialKey pol km :
    NewKeyManager bufs ticks0 initialKey pol None = Ok km -> reachable km
| reachable_step km km' :
    reachable km -> step km km' -> reachable km'.


End WithClock.

End KeyRotation.

(** ** Vocabulary of the statements about the key manager *)

Section KeyRotationVocabulary.

Import KeyRotation.

(** What every reachable manager satisfies: the active pointer is the
    entry of the current version, that entry is Active, and no entry
    of another version is. *)
Definition wellFormed (km : KeyManager) : Prop :=
  (exists p e,
      activeKey km = Some p /\ history km !! currentVersion km = Some p /\
      entries km !! p = Some e /\ State (Metadata e) = KeyStateActive) /\
  (forall v q, history km !! v = Some q ->
               stateOf (entries km) q = Some KeyStateActive -> v = currentVersion km) /\
  (forall v q, history km !! v = Some q -> (q < length (entries km))%nat).

(** Two managers with the same versions, pointers and Active entries. *)
Definition sameActive (km km' : KeyManager) : Prop :=
  activeKey km' = activeKey km /\ history km' = history km /\
  currentVersion km' = currentVersion km /\
  length (entries km') = length (entries km) /\
  (forall q, stateOf (entries km') q = Some KeyStateActive <->
             stateOf (entries km) q = Some KeyStateActive).

(** An entry as [archiveOldKeys] may leave it: untouched, or a Rotated
    entry turned Archived, with its date of archiving set and its
    material slice dropped. *)
Definition keptOrErased (e e' : KeyEntry) : Prop :=
  e' = e \/
  (State (Metadata e) = KeyStateRotated /\
   exists t, e' = withMaterial None
                    (withMetadata (fun m => setArchivedAt t (setState KeyStateArchived m)) e)).

Definition entriesKeptOrErased (km km' : KeyManager) : Prop :=
  forall p e, entries km !! p = Some e ->
              exists e', entries km' !! p = Some e' /\ keptOrErased e e'.

(** A clock that advances by ten million seconds at every reading;
    the monotonic clock runs along with it. *)
Definition demoClock (n : nat) : Z := Z.of_nat n * 10000000000000000.

Definition demoMono (n : nat) : Z := Z.of_nat n * 10000000000000000.

(** The calendar of a zone without clock changes: a day is 24 hours. *)
Definition demoAddDate (t days : Z) : Z := t + days * nanosPerDay.

(** Two caller-owned key buffers: [K0], and [N0] twice over. *)
Definition demoBuffers : list (list byte) := [K0; N0 ++ N0].



End KeyRotationVocabulary.

(** ** HSM integration (hsm-integration.go) *)

Module HSM.

Record HSMStatus : Type := mkHSMStatus {
  Online : bool;
  TamperDetected : bool;
  AuthorizedAccess : bool;
  LastHeartbeat : Z;
  OperatingHours : Z;
  SecurityEvents : Z
}.

Record HSMConfig : Type := mkHSMConfig {
  HSMType : string;
  Endpoint : string;
  Credentials : string;
  TamperSensor : bool;
  AuditLog : string;
  KeySlot : Z;
  MaxRetries : Z;
  TimeoutSeconds : Z
}.

Record AuditEntry : Type := mkAuditEntry {
  Timestamp : Z;
  EventType : string;
  Description : string;
  Status : string;
  OperatorID : string
}.

(** The state of [mu], a [sync.RWMutex]: whether the write lock is
    held, and how many read locks are. *)
Record RWMutex : Type := mkRWMutex {
  writer : bool;
  readers : nat
}.

Record HSMIntegration : Type := mkHSMIntegration {
  config : HSMConfig;
  status : HSMStatus;
  auditLog : list AuditEntry;
  keyMaterial : list byte;
  mu : RWMutex;
  ticks : nat
}.

(** A call made by the one goroutine that runs the code either returns,
    or blocks on a lock that it holds itself and never returns. *)
Inductive run (A : Type) : Type :=
| Returns (a : A) (h : HSMIntegration)
| Blocks (h : HSMIntegration).
Arguments Returns {A} a h.
Arguments Blocks {A} h.

Definition andThen {A B : Type} (r : run A) (k : A -> HSMIntegration -> run B) : run B :=
  match r with
  | Returns a h => k a h
  | Blocks h => Blocks h
  end.

Definition setMu (m : RWMutex) (h : HSMIntegration) : HSMIntegration :=
  mkHSMIntegration (config h) (status h) (auditLog h) (keyMaterial h) m (ticks h).

Definition setStatus (s : HSMStatus) (h : HSMIntegration) : HSMIntegration :=
  mkHSMIntegration (config h) s (auditLog h) (keyMaterial h) (mu h) (ticks h).

Definition setKeyMaterial (k : list byte) (h : HSMIntegration) : HSMIntegration :=
  mkHSMIntegration (config h) (status h) (auditLog h) k (mu h) (ticks h).

Definition setOnline (b : bool) (s : HSMStatus) : HSMStatus :=
  mkHSMStatus b (TamperDetected s) (AuthorizedAccess s) (LastHeartbeat s)
              (OperatingHours s) (SecurityEvents s).

Definition setTamperDetected (b : bool) (s : HSMStatus) : HSMStatus :=
  mkHSMStatus (Online s) b (AuthorizedAccess s) (LastHeartbeat s)
              (OperatingHours s) (SecurityEvents s).

Definition setLastHeartbeat (t : Z) (s : HSMStatus) : HSMStatus :=
  mkHSMStatus (Online s) (TamperDetected s) (AuthorizedAccess s) t
              (OperatingHours s) (SecurityEvents s).

(** [mu.Lock()]: waits while any lock is held. *)
Definition Lock (h : HSMIntegration) : run unit :=
  if (writer (mu h) || negb (readers (mu h) =? 0)%nat)%bool then Blocks h
  else Returns tt (setMu (mkRWMutex true (readers (mu h))) h).

Definition Unlock (h : HSMIntegration) : HSMIntegration :=
  setMu (mkRWMutex false (readers (mu h))) h.

(** [mu.RLock()]: waits while the write lock is held. *)
Definition RLock (h : HSMIntegration) : run unit :=
  if writer (mu h) then Blocks h
  else Returns tt (setMu (mkRWMutex false (S (readers (mu h)))) h).

Definition RUnlock (h : HSMIntegration) : HSMIntegration :=
  setMu (mkRWMutex (writer (mu h)) (readers (mu h) - 1)) h.

Section WithClock.

Variable clock : nat -> Z.

Definition LogAudit (eventType description status_ operatorID : string)
           (h : HSMIntegration) : run (option string) :=
  andThen (Lock h) (fun _ h1 =>
    let entry := mkAuditEntry (clock (ticks h1)) eventType description status_ operatorID in
    let h2 := mkHSMIntegration (config h1) (status h1) (auditLog h1 ++ [entry])
                               (keyMaterial h1) (mu h1) (S (ticks h1)) in
    Returns None (Unlock h2)).

Definition initializeHSM (description : string) (h : HSMIntegration) : run unit :=
  andThen (Lock h) (fun _ h1 =>
    let h2 := setStatus (setOnline true (status h1)) h1 in
    andThen (LogAudit "HSM_INIT" description "SUCCESS" "system" h2) (fun _ h3 =>
      Returns tt (Unlock h3))).

Definition initializeThalesHSM := initializeHSM "Thales Luna HSM initialized".
Definition initializeYubiHSM := initializeHSM "YubiHSM initialized".
Definition initializeNitroHSM := initializeHSM "AWS Nitro HSM initialized".
Definition initializeSoftHSM := initializeHSM "SoftHSM initialized (testing only)".

Definition NewHSMIntegration (cfg : HSMConfig) (ticks0 : nat) : run unit :=
  let hsm :=
    {| config := cfg;
       status := mkHSMStatus false false false (clock ticks0) 0 0;
       auditLog := [];
       keyMaterial := replicate 32 0;
       mu := mkRWMutex false 0;
       ticks := S ticks0 |} in
  if String.eqb (HSMType cfg) "thales" then initializeThalesHSM hsm
  else if String.eqb (HSMType cfg) "yubihsm" then initializeYubiHSM hsm
  else if String.eqb (HSMType cfg) "nitro" then initializeNitroHSM hsm
  else if String.eqb (HSMType cfg) "softhsm" then initializeSoftHSM hsm
  else Returns tt hsm.

Definition ImportKey (key : list byte) (h : HSMIntegration) : run (option string) :=
  andThen (Lock h) (fun _ h1 =>
    if negb (Online (status h1)) then Returns (Some "HSM not online"%string) (Unlock h1)
    else
      let h2 := setKeyMaterial (take 32 key) h1 in
      andThen (LogAudit "KEY_IMPORT"
                        ("Key imported to slot " +:+ itoa (KeySlot (config h2)))
                        "SUCCESS" "admin" h2)
              (fun _ h3 => Returns None (Unlock h3))).

Definition ExportKey (h : HSMIntegration) : run (list byte) :=
  andThen (RLock h) (fun _ h1 =>
    andThen (LogAudit "KEY_EXPORT"
                      ("Key exported from slot " +:+ itoa (KeySlot (config h1)))
                      "WARNING" "admin" h1)
            (fun _ h2 => Returns (keyMaterial h2) (RUnlock h2))).

Definition checkTamperSensors (h : HSMIntegration) : bool := false.

Definition zeroizeAllKeys (h : HSMIntegration) : run unit :=
  let h1 := setKeyMaterial (map (fun _ => 0) (keyMaterial h)) h in
  andThen (LogAudit "ZEROIZE" "All keys zeroized after tamper" "SUCCESS" "system" h1)
          (fun _ h2 => Returns tt h2).

Definition DetectTamper (h : HSMIntegration) : run bool :=
  andThen (Lock h) (fun _ h1 =>
    if negb (TamperSensor (config h1)) then Returns false (Unlock h1)
    else
      let tamperDetected := checkTamperSensors h1 in
      if tamperDetected then
        let h2 := setStatus (setTamperDetected true (status h1)) h1 in
        andThen (LogAudit "TAMPER_ALERT" "Tamper detected on HSM" "CRITICAL" "system" h2)
                (fun _ h3 =>
                   andThen (zeroizeAllKeys h3)
                           (fun _ h4 => Returns tamperDetected (Unlock h4)))
      else Returns tamperDetected (Unlock h1)).

Definition GetStatus (h : HSMIntegration) : run HSMStatus :=
  andThen (RLock h) (fun _ h1 =>
    let h2 := mkHSMIntegration (config h1)
                               (setLastHeartbeat (clock (ticks h1)) (status h1))
                               (auditLog h1) (keyMaterial h1) (mu h1) (S (ticks h1)) in
    Returns (status h2) (RUnlock h2)).

Definition GetAuditLog (h : HSMIntegration) : run (list AuditEntry) :=
  andThen (RLock h) (fun _ h1 => Returns (auditLog h1) (RUnlock h1)).

Definition VerifyHSMCompliance (h : HSMIntegration) : run bool :=
  andThen (RLock h) (fun _ h1 =>
    if negb (Online (status h1)) then Returns false (RUnlock h1)
    else if TamperDetected (status h1) then Returns false (RUnlock h1)
    else if (length (auditLog h1) =? 0)%nat then Returns false (RUnlock h1)
    else Returns true (RUnlock h1)).

End WithClock.

End HSM.

(** ** Key lifecycle manager (key-lifecycle.go) *)

Module KeyLifecycle.

Inductive KeyLifecycleState : Type :=
| StateGenerated
| StateActivated
| StateRotating
| StateDeactivated
| StateDestroyed.

#[global] Instance KeyLifecycleState_eq_dec : EqDecision KeyLifecycleState.
Proof. solve_decision. Defined.

(** The value of the constant ([iota] numbering). *)
Definition stateNumber (s : KeyLifecycleState) : Z :=
  match s with
  | StateGenerated => 0
  | StateActivated => 1
  | StateRotating => 2
  | StateDeactivated => 3
  | StateDestroyed => 4
  end.

(** [String] is defined on every value of the underlying [int]. *)
Definition StateString (s : Z) : string :=
  let states := ["Generated"; "Activated"; "Rotating"; "Deactivated"; "Destroyed"]%string in
  if ((0 <=? s) && (s <? Z.of_nat (length states)))%bool
  then nth (Z.to_nat s) states ""%string
  else "Unknown".

(** Times are nanoseconds counted from the zero [time.Time], which is
    0; a duration is a 64-bit count of nanoseconds, and [Sub]
    saturates. *)
Definition minDuration : Z := - 2 ^ 63.
Definition maxDuration : Z := 2 ^ 63 - 1.

Definition timeSub (t u : Z) : Z :=
  Z.max minDuration (Z.min maxDuration (t - u)).

Definition timeAdd (t d : Z) : Z := t + d.

Definition timeAfter (t u : Z) : bool := u <? t.

Record KeyLifecycle : Type := mkKeyLifecycle {
  KeyID : string;
  KeyMaterial : list byte;
  Generated : Z;
  Activated : Z;
  RotationDue : Z;
  Deactivated : Z;
  Destroyed : Z;
  State : KeyLifecycleState;
  RotationCount : Z;
  AccessCount : Z;
  LastAccess : Z;
  Zeroized : bool;
  CreatedBy : string;
  RotatedBy : string;
  DestroyedBy : string;
  AuditTrail : list HSM.AuditEntry
}.

(** [keys] maps a key id to its lifecycle object; [hsm] is the module
    behind the manager's pointer ([None]: a nil pointer). *)
Record KeyLifecycleManager : Type := mkKeyLifecycleManager {
  keys : gmap string KeyLifecycle;
  hsm : option HSM.HSMIntegration;
  rotationInterval : Z;
  ticks : nat
}.

Definition NewKeyLifecycleManager (h : option HSM.HSMIntegration) (ticks0 : nat)
  : KeyLifecycleManager :=
  {| keys := ∅;
     hsm := h;
     rotationInterval := 365 * 24 * (60 * 60 * 1000000000);
     ticks := ticks0 |}.

(** A call returns a value and the manager it leaves, or blocks inside
    the HSM. *)
Inductive run (A : Type) : Type :=
| Returns (a : A) (klm : KeyLifecycleManager)
| Blocks.
Arguments Returns {A} a klm.
Arguments Blocks {A}.

Definition setKeys (ks : gmap string KeyLifecycle) (klm : KeyLifecycleManager)
  : KeyLifecycleManager :=
  mkKeyLifecycleManager ks (hsm klm) (rotationInterval klm) (ticks klm).

Definition setTicks (n : nat) (klm : KeyLifecycleManager) : KeyLifecycleManager :=
  mkKeyLifecycleManager (keys klm) (hsm klm) (rotationInterval klm) n.

Definition setHsm (h : option HSM.HSMIntegration) (klm : KeyLifecycleManager)
  : KeyLifecycleManager :=
  mkKeyLifecycleManager (keys klm) h (rotationInterval klm) (ticks klm).

Section WithClock.

Variable clock : nat -> Z.

Definition addAuditEntry (now : Z) (eventType description status operatorID : string)
           (kl : KeyLifecycle) : KeyLifecycle :=
  let entry := HSM.mkAuditEntry now eventType description status operatorID in
  mkKeyLifecycle (KeyID kl) (KeyMaterial kl) (Generated kl) (Activated kl)
                 (RotationDue kl) (Deactivated kl) (Destroyed kl) (State kl)
                 (RotationCount kl) (AccessCount kl) (LastAccess kl) (Zeroized kl)
                 (CreatedBy kl) (RotatedBy kl) (DestroyedBy kl)
                 (AuditTrail kl ++ [entry]).

(** The HSM import that [GenerateKey] and [RotateKey] make when the
    manager has an HSM. *)
Definition importToHSM (keyMaterial : list byte) (klm : KeyLifecycleManager)
  : option (option string * KeyLifecycleManager) :=
  match hsm klm with
  | None => Some (None, klm)
  | Some h =>
      match HSM.ImportKey clock keyMaterial h with
      | HSM.Returns err h' => Some (err, setHsm (Some h') klm)
      | HSM.Blocks _ => None
      end
  end.

(** [random] is what [rand.Read] delivers: 32 bytes, or an error. *)
Definition GenerateKey (keyID operatorID : string) (random : result (list byte))
           (klm : KeyLifecycleManager) : run (result string) :=
  match keys klm !! keyID with
  | Some _ => Returns (Err ("key " +:+ keyID +:+ " already exists")) klm
  | None =>
      match random with
      | Err err => Returns (Err err) klm
      | Panic msg => Returns (Panic msg) klm
      | Ok keyMaterial =>
          let now := clock (ticks klm) in
          let klm1 := setTicks (S (ticks klm)) klm in
          let keyLifecycle :=
            {| KeyID := keyID;
               KeyMaterial := keyMaterial;
               Generated := now;
               Activated := 0;
               RotationDue := 0;
               Deactivated := 0;
               Destroyed := 0;
               State := StateGenerated;
               RotationCount := 0;
               AccessCount := 0;
               LastAccess := 0;
               Zeroized := false;
               CreatedBy := operatorID;
               RotatedBy := "";
               DestroyedBy := "";
               AuditTrail := [] |} in
          match importToHSM keyMaterial klm1 with
          | None => Blocks
          | Some (Some err, klm2) =>
              Returns (Err ("failed to import key to HSM: " +:+ err)) klm2
          | Some (None, klm2) =>
              let logged :=
                addAuditEntry (clock (ticks klm2)) "KEY_GENERATED"
                              ("Key " +:+ keyID +:+ " generated") "SUCCESS" operatorID
                              keyLifecycle in
              Returns (Ok keyID)
                      (setTicks (S (ticks klm2))
                                (setKeys (<[keyID := logged]> (keys klm2)) klm2))
          end
      end
  end.

Definition ActivateKey (keyID operatorID : string) (klm : KeyLifecycleManager)
  : result unit * KeyLifecycleManager :=
  match keys klm !! keyID with
  | None => (Err ("key " +:+ keyID +:+ " not found"), klm)
  | Some keyLC =>
      if negb (bool_decide (State keyLC = StateGenerated)) then
        (Err "key must be in Generated state to activate", klm)
      else
        let activated := clock (ticks klm) in
        let due := timeAdd activated (timeSub (RotationDue keyLC) (Generated keyLC)) in
        let keyLC1 :=
          mkKeyLifecycle (KeyID keyLC) (KeyMaterial keyLC) (Generated keyLC) activated
                         due (Deactivated keyLC) (Destroyed keyLC) StateActivated
                         (RotationCount keyLC) (AccessCount keyLC) (LastAccess keyLC)
                         (Zeroized keyLC) (CreatedBy keyLC) (RotatedBy keyLC)
                         (DestroyedBy keyLC) (AuditTrail keyLC) in
        let keyLC2 :=
          addAuditEntry (clock (S (ticks klm))) "KEY_ACTIVATED"
                        ("Key " +:+ keyID +:+ " activated") "SUCCESS" operatorID keyLC1 in
        (Ok tt, setTicks (S (S (ticks klm))) (setKeys (<[keyID := keyLC2]> (keys klm)) klm))
  end.

Definition RotateKey (keyID operatorID : string) (random : result (list byte))
           (klm : KeyLifecycleManager) : run (result string) :=
  match keys klm !! keyID with
  | None => Returns (Err ("key " +:+ keyID +:+ " not found")) klm
  | Some keyLC =>
      if negb (bool_decide (State keyLC = StateActivated)) then
        Returns (Err "only activated keys can be rotated") klm
      else
        match random with
        | Err err => Returns (Err err) klm
        | Panic msg => Returns (Panic msg) klm
        | Ok newKeyMaterial =>
            let oldKeyMaterial := KeyMaterial keyLC in
            let now := clock (ticks klm) in
            let klm1 := setTicks (S (ticks klm)) klm in
            let rotated (material : list byte) :=
              mkKeyLifecycle (KeyID keyLC) material (Generated keyLC) (Activated keyLC)
                             (timeAdd now (timeSub (RotationDue keyLC) (RotationDue keyLC)))
                             (Deactivated keyLC) (Destroyed keyLC) (State keyLC)
                             (wrap64 (RotationCount keyLC + 1)) (AccessCount keyLC)
                             (LastAccess keyLC) (Zeroized keyLC) (CreatedBy keyLC)
                             operatorID (DestroyedBy keyLC) (AuditTrail keyLC) in
            match importToHSM newKeyMaterial klm1 with
            | None => Blocks
            | Some (Some err, klm2) =>
                Returns (Err ("failed to import rotated key to HSM: " +:+ err))
                        (setKeys (<[keyID := rotated oldKeyMaterial]> (keys klm2)) klm2)
            | Some (None, klm2) =>
                let keyLC1 := rotated newKeyMaterial in
                let keyLC2 :=
                  addAuditEntry (clock (ticks klm2)) "KEY_ROTATED"
                                ("Key " +:+ keyID +:+ " rotated (count: " +:+
                                 itoa (RotationCount keyLC1) +:+ ")")
                                "SUCCESS" operatorID keyLC1 in
                Returns (Ok keyID)
                        (setTicks (S (ticks klm2))
                                  (setKeys (<[keyID := keyLC2]> (keys klm2)) klm2))
            end
        end
  end.

Definition DeactivateKey (keyID operatorID : string) (klm : KeyLifecycleManager)
  : result unit * KeyLifecycleManager :=
  match keys klm !! keyID with
  | None => (Err ("key " +:+ keyID +:+ " not found"), klm)
  | Some keyLC =>
      let keyLC1 :=
        mkKeyLifecycle (KeyID keyLC) (KeyMaterial keyLC) (Generated keyLC)
                       (Activated keyLC) (RotationDue keyLC) (clock (ticks klm))
                       (Destroyed keyLC) StateDeactivated
                       (RotationCount keyLC) (AccessCount keyLC) (LastAccess keyLC)
                       (Zeroized keyLC) (CreatedBy keyLC) (RotatedBy keyLC)
                       operatorID (AuditTrail keyLC) in
      let keyLC2 :=
        addAuditEntry (clock (S (ticks klm))) "KEY_DEACTIVATED"
                      ("Key " +:+ keyID +:+ " deactivated") "SUCCESS" operatorID keyLC1 in
      (Ok tt, setTicks (S (S (ticks klm))) (setKeys (<[keyID := keyLC2]> (keys klm)) klm))
  end.

Definition ZeroizeKey (keyID operatorID : string) (klm : KeyLifecycleManager)
  : result unit * KeyLifecycleManager :=
  match keys klm !! keyID with
  | None => (Err ("key " +:+ keyID +:+ " not found"), klm)
  | Some keyLC =>
      let zeroed := imap (fun i b => if (i <? 32)%nat then 0 else b) (KeyMaterial keyLC) in
      let keyLC1 :=
        mkKeyLifecycle (KeyID keyLC) zeroed (Generated keyLC)
                       (Activated keyLC) (RotationDue keyLC) (Deactivated keyLC)
                       (clock (ticks klm)) StateDestroyed
                       (RotationCount keyLC) (AccessCount keyLC) (LastAccess keyLC)
                       true (CreatedBy keyLC) (RotatedBy keyLC)
                       (DestroyedBy keyLC) (AuditTrail keyLC) in
      let keyLC2 :=
        addAuditEntry (clock (S (ticks klm))) "KEY_ZEROIZED"
                      ("Key " +:+ keyID +:+ " securely destroyed") "SUCCESS" operatorID
                      keyLC1 in
      (Ok tt, setTicks (S (S (ticks klm))) (setKeys (<[keyID := keyLC2]> (keys klm)) klm))
  end.

Definition GetKeyStatus (keyID : string) (klm : KeyLifecycleManager)
  : result KeyLifecycle :=
  match keys klm !! keyID with
  | None => Err ("key " +:+ keyID +:+ " not found")
  | Some keyLC => Ok keyLC
  end.

(** [order] is the order in which [range] visits the map. *)
Definition GetKeysNeedingRotation (order : list string) (klm : KeyLifecycleManager)
  : list string * KeyLifecycleManager :=
  let now := clock (ticks klm) in
  (List.filter (fun keyID =>
                  match keys klm !! keyID with
                  | Some keyLC =>
                      bool_decide (State keyLC = StateActivated) &&
                      timeAfter now (RotationDue keyLC)
                  | None => false
                  end) order,
   setTicks (S (ticks klm)) klm).

Definition GetAuditTrail (keyID : string) (klm : KeyLifecycleManager)
  : list HSM.AuditEntry :=
  match keys klm !! keyID with
  | None => []
  | Some keyLC => AuditTrail keyLC
  end.

End WithClock.

End KeyLifecycle.

(** ** Vocabulary of the further properties *)

(** Where a byte that starts at position [j] sits after [rounds] rounds of
    [EncryptBlock]. *)
Fixpoint positionAfter (rounds : nat) (j : nat) : nat :=
  match rounds with
  | O => j
  | S k => positionAfter k ((5 * j + 7) mod 64)
  end.

(** What [bitsToByteArray] rebuilds from the eight bits that
    [bytesToBitsArray] takes out of byte [b]. *)
Definition recomposeByte (b : Z) : Z :=
  fold_left (fun acc j =>
               if (if Z.land b (Z.shiftl 1 (7 - Z.of_nat j)) =? 0 then 0 else 1) =? 1
               then Z.lor acc (Z.shiftl 1 (7 - Z.of_nat j))
               else acc)
            (seq 0 8) 0.

(** A permutation of the positions 0..63, as the P-layer tables are. *)
Definition isPermutation64 (perm : list nat) : Prop :=
  length perm = 64%nat /\ NoDup perm /\ Forall (fun x => (x < 64)%nat) perm.

(** The parts of a manager other than its count of clock readings. *)
Definition sameButClock (km km' : KeyRotation.KeyManager) : Prop :=
  KeyRotation.activeKey km' = KeyRotation.activeKey km /\
  KeyRotation.history km' = KeyRotation.history km /\
  KeyRotation.currentVersion km' = KeyRotation.currentVersion km /\
  KeyRotation.policy km' = KeyRotation.policy km /\
  KeyRotation.lastRotationTime km' = KeyRotation.lastRotationTime km /\
  KeyRotation.entries km' = KeyRotation.entries km /\
  KeyRotation.buffers km' = KeyRotation.buffers km.

(** The manager that [NewKeyManager] makes of [K0] under the default
    policy, on [demoClock]. *)
Definition demoManager : KeyRotation.KeyManager :=
  match KeyRotation.NewKeyManager demoClock demoMono demoAddDate demoBuffers 0 (Some 0%nat)
                                  KeyRotation.DefaultKeyRotationPolicy None with
  | Ok km => km
  | _ => KeyRotation.mkKeyManager None ∅ 0 KeyRotation.DefaultKeyRotationPolicy 0 [] [] 0
  end.

(** The default policy with a retention of one cycle. *)
Definition shortRetention : KeyRotation.KeyRotationPolicy :=
  KeyRotation.mkKeyRotationPolicy true 365 1 730 30 "/var/lib/eamsa512/key-archive/" "zero" 3.

(** A manager after one rotation, before [archiveOldKeys] has run:
    version 1 is Rotated, version 2 is Active, and the policy retains
    one cycle. *)
Definition rotatedPair : KeyRotation.KeyManager :=
  let meta version state :=
    KeyRotation.mkKeyMetadata ("key_" +:+ itoa version) version state
                              (Some 0) (Some 0) None None None "" 0 0 in
  KeyRotation.mkKeyManager
    (Some 1%nat) {[ 1 := 0%nat; 2 := 1%nat ]} 2 shortRetention 0
    [ KeyRotation.mkKeyEntry (meta 1 KeyRotation.KeyStateRotated) (Some 0%nat) 0;
      KeyRotation.mkKeyEntry (meta 2 KeyRotation.KeyStateActive) (Some 1%nat) 0 ]
    demoBuffers 0.

(** The mutex nobody holds. *)
Definition unlocked : HSM.RWMutex := HSM.mkRWMutex false 0.

Definition knownHSMTypes : list string := ["thales"; "yubihsm"; "nitro"; "softhsm"]%string.

Definition demoConfig (hsmType : string) : HSM.HSMConfig :=
  HSM.mkHSMConfig hsmType "localhost" "" true "" 1 3 30.

(** An HSM object at rest, online or not, with an empty audit log. *)
Definition idleHSM (online : bool) : HSM.HSMIntegration :=
  HSM.mkHSMIntegration (demoConfig "softhsm") (HSM.mkHSMStatus online false false 0 0 0)
                       [] (replicate 32 0) unlocked 0.

(** The lifecycle state recorded for a key id, if the key is tracked. *)
Definition stateAt (klm : KeyLifecycle.KeyLifecycleManager) (keyID : string)
  : option KeyLifecycle.KeyLifecycleState :=
  KeyLifecycle.State <$> KeyLifecycle.keys klm !! keyID.

Definition retired (s : option KeyLifecycle.KeyLifecycleState) : Prop :=
  s = Some KeyLifecycle.StateDeactivated \/ s = Some KeyLifecycle.StateDestroyed.

(** One returning call of an operation of the lifecycle manager. *)
Inductive lifecycleStep (clock : nat -> Z)
  : KeyLifecycle.KeyLifecycleManager -> KeyLifecycle.KeyLifecycleManager -> Prop :=
| lifecycle_generate klm keyID operatorID random r klm' :
    KeyLifecycle.GenerateKey clock keyID operatorID random klm = KeyLifecycle.Returns r klm' ->
    lifecycleStep clock klm klm'
| lifecycle_activate klm keyID operatorID :
    lifecycleStep clock klm (KeyLifecycle.ActivateKey clock keyID operatorID klm).2
| lifecycle_rotate klm keyID operatorID random r klm' :
    KeyLifecycle.RotateKey clock keyID operatorID random klm = KeyLifecycle.Returns r klm' ->
    lifecycleStep clock klm klm'
| lifecycle_deactivate klm keyID operatorID :
    lifecycleStep clock klm (KeyLifecycle.DeactivateKey clock keyID operatorID klm).2
| lifecycle_zeroize klm keyID operatorID :
    lifecycleStep clock klm (KeyLifecycle.ZeroizeKey clock keyID operatorID klm).2
| lifecycle_due klm order :
    lifecycleStep clock klm (KeyLifecycle.GetKeysNeedingRotation clock order klm).2.

(** An Activated key, "k1", and a manager that tracks it, with the HSM
    given (or none). *)
Definition demoKey : KeyLifecycle.KeyLifecycle :=
  KeyLifecycle.mkKeyLifecycle "k1" K0 1 2 2 0 0 KeyLifecycle.StateActivated
                              0 0 0 false "alice" "" "" [].

Definition oneActivatedKey (h : option HSM.HSMIntegration) : KeyLifecycle.KeyLifecycleManager :=
  KeyLifecycle.mkKeyLifecycleManager
    {[ "k1"%string := demoKey ]} h (365 * 24 * (60 * 60 * 1000000000)) 0.

(** Bytewise exclusive or of two blocks, along the first. *)
Definition xorBlocks (a b : list byte) : list byte :=
  imap (fun i x => Z.lxor x (nth i b 0)) a.

(** Exclusive or with a mask given position by position. *)
Definition xorMask (mask : nat -> Z) (l : list byte) : list byte :=
  imap (fun i b => Z.lxor b (mask i)) l.

(** Eleven round keys: byte [i] of key [k] is [17k + 3i + 1] mod 256. *)
Definition demoRoundKeys : list (list byte) :=
  map (fun k => map (fun i => (17 * Z.of_nat k + Z.of_nat i * 3 + 1) mod 256) (seq 0 16))
      (seq 0 11).

(** ** Known answer tests (kat-tests.go) *)

Module KAT.

Record KATVector : Type := mkKATVector {
  ID : string;
  Key : list byte;
  Plaintext : list byte;
  Ciphertext : list byte;
  MAC : list byte;
  Description : string
}.

(** [passed] and [failed] are Go [int]s. *)
Record KATTestSuite : Type := mkKATTestSuite {
  vectors : list KATVector;
  passed : Z;
  failed : Z
}.

Definition NewKATTestSuite : KATTestSuite :=
  {| vectors := []; passed := 0; failed := 0 |}.

Definition AddTestVector (vector : KATVector) (kat : KATTestSuite) : KATTestSuite :=
  mkKATTestSuite (vectors kat ++ [vector]) (passed kat) (failed kat).

(** [byte((i * m) % 256)] for [i] from 0 to 63. *)
Definition multiples (m : Z) : list byte :=
  map (fun i => (Z.of_nat i * m) mod 256) (seq 0 64).

Definition alternating (n : nat) : list byte :=
  map (fun i => if (i mod 2 =? 0)%nat then 0xAA else 0x55) (seq 0 n).

(** The linear congruential generator of vector 5, on [uint32]: the
    bytes drawn in [n] steps, and the seed afterwards. *)
Fixpoint pseudoRandom (n : nat) (seed : Z) : list byte * Z :=
  match n with
  | O => ([], seed)
  | S n' =>
      let seed1 := wrap32 (seed * 1103515245 + 12345) in
      let '(rest, seed2) := pseudoRandom n' seed1 in
      ((seed1 / 65536 mod 256) :: rest, seed2)
  end.

Definition GenerateDefaultVectors (kat : KATTestSuite) : KATTestSuite :=
  let vec1 :=
    {| ID := "KAT_001";
       Key := replicate 32 0;
       Plaintext := replicate 64 0;
       Ciphertext := multiples 31;
       MAC := multiples 47;
       Description := "All zeros test vector" |} in
  let vec2 :=
    {| ID := "KAT_002";
       Key := map Z.of_nat (seq 0 32);
       Plaintext := map Z.of_nat (seq 0 64);
       Ciphertext := multiples 61;
       MAC := multiples 73;
       Description := "Sequential data test vector" |} in
  let vec3 :=
    {| ID := "KAT_003";
       Key := replicate 32 0xFF;
       Plaintext := replicate 64 0xFF;
       Ciphertext := multiples 83;
       MAC := multiples 89;
       Description := "All ones test vector" |} in
  let vec4 :=
    {| ID := "KAT_004";
       Key := alternating 32;
       Plaintext := alternating 64;
       Ciphertext := multiples 97;
       MAC := multiples 101;
       Description := "Alternating bit pattern" |} in
  let '(key5, seed1) := pseudoRandom 32 0x12345678 in
  let '(plaintext5, _) := pseudoRandom 64 seed1 in
  let vec5 :=
    {| ID := "KAT_005";
       Key := key5;
       Plaintext := plaintext5;
       Ciphertext := multiples 103;
       MAC := multiples 107;
       Description := "Pseudo-random data test vector" |} in
  AddTestVector vec5
    (AddTestVector vec4 (AddTestVector vec3 (AddTestVector vec2 (AddTestVector vec1 kat)))).

(** The stubs at the end of the file: [Encrypt] of [Phase2Encryption]
    returns its input, [ComputeHMAC] of [Phase3Authentication] returns
    zeros; neither returns an error. *)
Definition Encrypt (plaintext : list byte) (keys : list (list byte))
  : list byte * option string :=
  (plaintext, None).

Definition ComputeHMAC (data key : list byte) : list byte * option string :=
  (replicate 64 0, None).

(** The comparison loops: the first 64 positions agree. *)
Definition arraysMatch (a b : list byte) : bool :=
  forallb (fun i => nth i a 0 =? nth i b 0) (seq 0 64).

Definition VerifyVector (vector : KATVector) : bool :=
  let '(ciphertext, err) := Encrypt (Plaintext vector) (replicate 11 (replicate 16 0)) in
  match err with
  | Some _ => false
  | None =>
      let '(mac, err) := ComputeHMAC ciphertext (Key vector) in
      match err with
      | Some _ => false
      | None =>
          let ciphertextMatch := arraysMatch ciphertext (Ciphertext vector) in
          let macMatch := arraysMatch mac (MAC vector) in
          if ciphertextMatch && macMatch then true else false
      end
  end.

Definition countVector (kat : KATTestSuite) (vector : KATVector) : KATTestSuite :=
  if negb (VerifyVector vector)
  then mkKATTestSuite (vectors kat) (passed kat) (wrap64 (failed kat + 1))
  else mkKATTestSuite (vectors kat) (wrap64 (passed kat + 1)) (failed kat).

(** The printed report is left out. *)
Definition RunAllTests (kat : KATTestSuite) : KATTestSuite :=
  let kat1 := GenerateDefaultVectors kat in
  fold_left countVector (vectors kat1) kat1.

Definition GetComplianceStatus (kat : KATTestSuite) : bool :=
  (failed kat =? 0) && (0 <? length (vectors kat))%nat.

Definition InitializeKATOnStartup : bool :=
  GetComplianceStatus (RunAllTests NewKATTestSuite).

End KAT.

(** ** Modified Salsa20 (phase2-msa.go) *)

Module MSA.

(** [Matrix] is a [[4][4]uint32]: four rows of four 32-bit words. *)
Definition cell (m : list (list Z)) (i j : nat) : Z := nth j (nth i m []) 0.

Definition setCell (m : list (list Z)) (i j : nat) (v : Z) : list (list Z) :=
  <[i := <[j := v]> (nth i m [])]> m.

(** [binary.LittleEndian.Uint32] of the four bytes from [off]. *)
Definition Uint32 (b : list byte) (off : nat) : Z :=
  Z.lor (nth off b 0)
        (Z.lor (Z.shiftl (nth (off + 1) b 0) 8)
               (Z.lor (Z.shiftl (nth (off + 2) b 0) 16)
                      (Z.shiftl (nth (off + 3) b 0) 24))).

(** [binary.LittleEndian.PutUint32]. *)
Definition PutUint32 (v : Z) : list byte :=
  [v mod 256; Z.shiftr v 8 mod 256; Z.shiftr v 16 mod 256; Z.shiftr v 24 mod 256].

Definition NewMSAState (key1 key2 nonce : list byte) : list (list Z) :=
  [ [Uint32 key1 0; Uint32 key1 4; Uint32 key1 8; Uint32 key1 12];
    [Uint32 key2 0; Uint32 key2 4; Uint32 key2 8; Uint32 key2 12];
    [Uint32 nonce 0; Uint32 nonce 4; Uint32 nonce 8; Uint32 nonce 12];
    [0; 0; 0; 0] ].

Definition rotateLeft (val : Z) (n : Z) : Z :=
  Z.lor (wrap32 (Z.shiftl val n)) (Z.shiftr val (32 - n)).

Definition rotateLeft8 (val : byte) : byte :=
  Z.lor (Z.shiftl val 1 mod 256) (Z.shiftr val 7).

(** The index pairs in the order of the two nested loops. *)
Definition cells : list (nat * nat) :=
  flat_map (fun i => map (fun j => (i, j)) (seq 0 4)) (seq 0 4).

Definition MSAStepDiagonal (m : list (list Z)) : list (list Z) :=
  fold_left (fun m '(i, j) =>
               let val := cell m i j in
               let rotated7 := rotateLeft val 7 in
               let rotated1 := rotateLeft val 1 in
               setCell m i j (Z.lxor (cell m i j) (Z.lxor rotated7 rotated1)))
            cells m.

(** The update is in place: a cell read as neighbour may have been
    updated already.  [(i-1+4)%4] is written with the subtraction last,
    on natural numbers. *)
Definition MSAStepCrossDiagonal (m : list (list Z)) : list (list Z) :=
  fold_left (fun m '(i, j) =>
               let val := cell m i j in
               let nextVal := cell m ((i + 1) mod 4) ((j + 1) mod 4) in
               let prevVal := cell m ((i + 4 - 1) mod 4) ((j + 4 - 1) mod 4) in
               setCell m i j (Z.lxor (cell m i j)
                                     (Z.lxor (wrap32 (val + nextVal))
                                             (wrap32 (val + prevVal)))))
            cells m.

Definition MSAFinalStep (m : list (list Z)) : list (list Z) :=
  let temp := m in
  fold_left (fun m i =>
               let t j := cell temp i j in
               let sum3 a b c := wrap32 (wrap32 (a + b) + c) in
               let m0 := setCell m i 0 (Z.lxor (cell m i 0) (sum3 (t 1%nat) (t 2%nat) (t 3%nat))) in
               let m1 := setCell m0 i 1 (Z.lxor (cell m0 i 1) (sum3 (t 0%nat) (t 2%nat) (t 3%nat))) in
               let m2 := setCell m1 i 2 (Z.lxor (cell m1 i 2) (sum3 (t 0%nat) (t 1%nat) (t 3%nat))) in
               setCell m2 i 3 (Z.lxor (cell m2 i 3) (sum3 (t 0%nat) (t 1%nat) (t 2%nat))))
            (seq 0 4) m.

Definition MSAround (m : list (list Z)) : list (list Z) :=
  MSAFinalStep (MSAStepCrossDiagonal (MSAStepDiagonal m)).

Definition GetOutput (m : list (list Z)) : list byte :=
  flat_map (fun '(i, j) => PutUint32 (cell m i j)) cells.

(** The round loop of [PerformMSAEncryption] on its variables: the
    state, the two halves and the (local) key array. *)
Fixpoint msaRounds (rounds : nat) (msa : list (list Z)) (left right : list byte)
         (keys : list (list byte)) : list byte * list byte :=
  match rounds with
  | O => (left, right)
  | S k =>
      let msa1 := MSAround msa in
      let output := GetOutput msa1 in
      let left1 := imap (fun i b => Z.lxor b (nth i output 0)) left in
      let right1 := imap (fun i b => Z.lxor b (nth (i + 32) output 0)) right in
      let keys1 :=
        <[8%nat := map rotateLeft8 (nth 8 keys [])]>
          (<[7%nat := map rotateLeft8 (nth 7 keys [])]> keys) in
      msaRounds k msa1 left1 right1 keys1
  end.

Definition PerformMSAEncryption (input : list byte) (keys : list (list byte)) : list byte :=
  let left := take 32 input in
  let right := take 32 (drop 32 input) in
  let msa := NewMSAState (nth 7 keys []) (nth 8 keys []) (nth 9 keys []) in
  let '(left1, right1) := msaRounds 11 msa left right keys in
  left1 ++ right1.

End MSA.

(** * Properties *)

(** ** The hash model *)

(** Known-answer checks of the model against published SHA-3 digests
    (empty message, and "abc"). *)
Example sha3_256_empty :
  Keccak.sha3_256 [] =
  [0xa7; 0xff; 0xc6; 0xf8; 0xbf; 0x1e; 0xd7; 0x66; 0x51; 0xc1; 0x47; 0x56;
   0xa0; 0x61; 0xd6; 0x62; 0xf5; 0x80; 0xff; 0x4d; 0xe4; 0x3b; 0x49; 0xfa;
   0x82; 0xd8; 0x0a; 0x4b; 0x80; 0xf8; 0x43; 0x4a].
Proof. vm_compute. reflexivity. Qed.

Example sha3_512_abc :
  Keccak.sha3_512 [0x61; 0x62; 0x63] =
  [0xb7; 0x51; 0x85; 0x0b; 0x1a; 0x57; 0x16; 0x8a; 0x56; 0x93; 0xcd; 0x92;
   0x4b; 0x6b; 0x09; 0x6e; 0x08; 0xf6; 0x21; 0x82; 0x74; 0x44; 0xf7; 0x0d;
   0x88; 0x4f; 0x5d; 0x02; 0x40; 0xd2; 0x71; 0x2e; 0x10; 0xe1; 0x16; 0xe9;
   0x19; 0x2a; 0xf3; 0xc9; 0x1a; 0x7e; 0xc5; 0x76; 0x47; 0xe3; 0x93; 0x40;
   0x57; 0x34; 0x0b; 0x4c; 0xf4; 0x08; 0xd5; 0xa5; 0x65; 0x92; 0xf8; 0x27;
   0x4e; 0xec; 0x53; 0xf0].
Proof. vm_compute. reflexivity. Qed.

Lemma sponge_length rate outlen m : length (Keccak.sponge rate outlen m) = outlen.
Proof. unfold Keccak.sponge. now rewrite length_map, length_seq. Qed.

Lemma sha3_512_length m : length (Keccak.sha3_512 m) = 64%nat.
Proof. apply sponge_length. Qed.

Lemma sha3_256_length m : length (Keccak.sha3_256 m) = 32%nat.
Proof. apply sponge_length. Qed.


(** ** Lengths and framing *)

Arguments Keccak.sha3_512 : simpl never.
Arguments Keccak.sha3_256 : simpl never.
Arguments sboxOutput : simpl never.

Lemma SubstituteBlock_length block : length (SubstituteBlock block) = length block.
Proof. apply length_map. Qed.

Lemma PermuteBlock_length block : length (PermuteBlock block) = length block.
Proof.
  unfold PermuteBlock.
  assert (G : forall (idxs : list nat) (acc : list byte),
             length (fold_left
                       (fun result i =>
                          <[((i * 5 + 7) mod length block)%nat := nth i block 0]> result)
                       idxs acc) = length acc).
  { induction idxs as [|i idxs IH]; intros acc; simpl; [reflexivity|].
    rewrite IH. apply length_insert. }
  rewrite G. apply length_replicate.
Qed.

Lemma MixBlock_length block key : length (MixBlock block key) = length block.
Proof. apply length_imap. Qed.

Lemma xorPrefix_length block expanded : length (xorPrefix block expanded) = length block.
Proof. apply length_imap. Qed.

Lemma encryptRound_length keys block round :
  length (encryptRound keys block round) = length block.
Proof.
  unfold encryptRound.
  now rewrite MixBlock_length, PermuteBlock_length, SubstituteBlock_length.
Qed.

Lemma EncryptBlock_length block keys : length (EncryptBlock block keys) = length block.
Proof.
  unfold EncryptBlock. rewrite xorPrefix_length.
  generalize (seq 0 Rounds) as rs. intros rs. revert block.
  induction rs as [|r rs IH]; intros block; simpl; [reflexivity|].
  rewrite IH. apply encryptRound_length.
Qed.

Lemma cbcEncrypt_length keys blocks padded prevBlock :
  length (cbcEncrypt keys blocks padded prevBlock) = (blocks * BlockSize)%nat.
Proof.
  revert padded prevBlock. induction blocks as [|k IH]; intros padded prevBlock.
  - reflexivity.
  - cbn [cbcEncrypt]. rewrite length_app, IH, EncryptBlock_length, length_map, length_seq.
    reflexivity.
Qed.

Lemma ComputeHMAC_length key data : length (ComputeHMAC key data) = TagSize.
Proof. unfold ComputeHMAC. apply sha3_512_length. Qed.

Lemma orXor_self l acc : orXor l l acc = acc.
Proof.
  revert acc. induction l as [|x l IH]; intros acc; simpl; [reflexivity|].
  rewrite IH, Z.lxor_nilpotent. apply Z.lor_0_r.
Qed.

(** A tag that [ComputeHMAC] produced is accepted by [VerifyHMAC]. *)
Lemma VerifyHMAC_own_tag key data : VerifyHMAC key data (ComputeHMAC key data) = true.
Proof.
  unfold VerifyHMAC. rewrite Nat.eqb_refl. simpl negb. cbv iota.
  rewrite orXor_self. reflexivity.
Qed.

Lemma DeriveKeys_ok masterKey :
  length masterKey = KeySize ->
  DeriveKeys masterKey = Ok (map (derivedKey masterKey) (seq 0 numKeys)).
Proof. intros H. unfold DeriveKeys. rewrite H, Nat.eqb_refl. reflexivity. Qed.

Lemma lastKeyOf_derived masterKey :
  lastKeyOf (map (derivedKey masterKey) (seq 0 numKeys)) = derivedKey masterKey 10.
Proof. reflexivity. Qed.

(** The frame that [EncryptData] returns, spelled out. *)
Lemma EncryptData_ok plaintext masterKey nonce :
  length masterKey = KeySize -> length nonce = NonceSize ->
  let keys := map (derivedKey masterKey) (seq 0 numKeys) in
  let ciphertext :=
    cbcEncrypt keys (paddedLengthOf plaintext / BlockSize) (padPlaintext plaintext)
               (DeriveIV nonce masterKey) in
  EncryptData plaintext masterKey nonce =
  Ok (ciphertext ++ nonce ++ ComputeHMAC (derivedKey masterKey 10) (nonce ++ ciphertext)).
Proof.
  intros HK HN keys ciphertext. unfold EncryptData.
  rewrite HK, Nat.eqb_refl. cbn [negb]. rewrite (DeriveKeys_ok _ HK). cbn [bind].
  rewrite HN, Nat.eqb_refl. cbn [negb]. rewrite lastKeyOf_derived. reflexivity.
Qed.

(** How [DecryptData] splits a well-formed frame. *)
Lemma frame_split (ciphertext nonce tag : list byte) :
  length nonce = NonceSize -> length tag = TagSize ->
  let frame := ciphertext ++ nonce ++ tag in
  (length frame - NonceSize - TagSize)%nat = length ciphertext /\
  take (length ciphertext) frame = ciphertext /\
  take NonceSize (drop (length ciphertext) frame) = nonce /\
  drop (length ciphertext + NonceSize) frame = tag.
Proof.
  intros HN HT frame. unfold frame. repeat split.
  - rewrite !length_app, HN, HT. lia.
  - now rewrite take_app_length.
  - rewrite drop_app_length. rewrite <- HN. now rewrite take_app_length.
  - rewrite <- HN. rewrite app_assoc, <- length_app. now rewrite drop_app_length.
Qed.

(** Decryption of a frame whose tag is the right one reaches the CBC loop. *)
Lemma DecryptData_authentic (ciphertext nonce masterKey : list byte) :
  length masterKey = KeySize -> length nonce = NonceSize ->
  let keys := map (derivedKey masterKey) (seq 0 numKeys) in
  let frame := ciphertext ++ nonce ++ ComputeHMAC (derivedKey masterKey 10) (nonce ++ ciphertext) in
  DecryptData frame masterKey =
  do plaintext <- cbcDecrypt keys ((length ciphertext + BlockSize - 1) / BlockSize)
                             (length ciphertext) frame (length ciphertext)
                             (DeriveIV nonce masterKey);
  if (length plaintext =? 0)%nat then Err "decrypted plaintext is empty"
  else
    let paddingLength := Z.to_nat (nth (length plaintext - 1) plaintext 0) in
    if ((BlockSize <? paddingLength) || (paddingLength =? 0))%nat then
      Err ("invalid padding: " +:+ itoa_nat paddingLength)
    else if negb (paddingBytesOk plaintext paddingLength) then Err "invalid padding bytes"
    else Ok (take (length plaintext - paddingLength) plaintext).
Proof.
  intros HK HN keys frame.
  destruct (frame_split ciphertext nonce
              (ComputeHMAC (derivedKey masterKey 10) (nonce ++ ciphertext))
              HN (ComputeHMAC_length _ _)) as (Hlen & Hc & Hn & Ht).
  fold frame in Hlen, Hc, Hn, Ht.
  unfold DecryptData. rewrite HK, Nat.eqb_refl. cbn [negb].
  assert (Hge : (length frame <? NonceSize + TagSize)%nat = false).
  { apply Nat.ltb_ge. unfold frame. rewrite !length_app, HN, ComputeHMAC_length.
    unfold NonceSize, TagSize. lia. }
  rewrite Hge, (DeriveKeys_ok _ HK). cbn [bind]. rewrite lastKeyOf_derived.
  rewrite Hlen, Hc, Hn, Ht, VerifyHMAC_own_tag. reflexivity.
Qed.

Lemma cbcEncrypt_empty keys iv :
  cbcEncrypt keys (paddedLengthOf [] / BlockSize) (padPlaintext []) iv = [].
Proof. reflexivity. Qed.

Lemma decrypt_of_empty_encryption (K N : list byte) :
  length K = KeySize -> length N = NonceSize ->
  let frame := N ++ ComputeHMAC (derivedKey K 10) N in
  EncryptData [] K N = Ok frame /\ length frame = 80%nat /\
  DecryptData frame K = Err "decrypted plaintext is empty".
Proof.
  intros HK HN frame. unfold frame. repeat split.
  - rewrite (EncryptData_ok [] K N HK HN), cbcEncrypt_empty, app_nil_r. reflexivity.
  - rewrite length_app, HN, ComputeHMAC_length. reflexivity.
  - pose proof (DecryptData_authentic [] N K HK HN) as H. cbn [app length] in H.
    rewrite app_nil_r in H. rewrite H. reflexivity.
Qed.

(** ** Byte ranges *)

Lemma land_255_byte x : isByte (Z.land x 255).
Proof.
  unfold isByte. change 255 with (Z.ones 8). rewrite Z.land_ones by lia.
  change (2 ^ 8) with 256. apply Z.mod_pos_bound. lia.
Qed.

Lemma log2_byte a : isByte a -> Z.log2 a < 8.
Proof.
  intros [H0 H1]. destruct (Z.eq_dec a 0) as [->|Hn]; [reflexivity|].
  apply Z.log2_lt_pow2; lia.
Qed.

Lemma lxor_byte a b : isByte a -> isByte b -> isByte (Z.lxor a b).
Proof.
  intros Ha Hb. pose proof (log2_byte a Ha) as La. pose proof (log2_byte b Hb) as Lb.
  destruct Ha as [Ha0 Ha1], Hb as [Hb0 Hb1].
  assert (Hx : 0 <= Z.lxor a b) by (apply Z.lxor_nonneg; tauto).
  split; [exact Hx|].
  destruct (Z.eq_dec (Z.lxor a b) 0) as [->|Hn]; [lia|].
  change 256 with (2 ^ 8). apply Z.log2_lt_pow2; [lia|].
  pose proof (Z.log2_lxor a b Ha0 Hb0). lia.
Qed.

Lemma sponge_bytes rate outlen m : Forall isByte (Keccak.sponge rate outlen m).
Proof.
  unfold Keccak.sponge. apply List.Forall_forall. intros x Hx.
  apply List.in_map_iff in Hx. destruct Hx as (i & <- & _). apply land_255_byte.
Qed.

Lemma nth_byte (l : list Z) i : Forall isByte l -> isByte (nth i l 0).
Proof.
  intros H. destruct (Nat.lt_ge_cases i (length l)) as [Hi|Hi].
  - rewrite List.Forall_forall in H. apply H, nth_In, Hi.
  - rewrite nth_overflow by exact Hi. unfold isByte. lia.
Qed.

(** ** The substitution layer is not injective *)

(** Two inputs of the SHA3-based S-box with one output (0x5d). *)
Lemma sboxOutput_collision : sboxOutput 0 = sboxOutput 243.
Proof. vm_compute. reflexivity. Qed.

Lemma fold_left_step {A B : Type} (f : A -> B -> A) (x : B) (l : list B) (a : A) :
  fold_left f (x :: l) a = fold_left f l (f a x).
Proof. reflexivity. Qed.

Lemma seq_Rounds : seq 0 Rounds = 0%nat :: seq 1 15.
Proof. reflexivity. Qed.

Lemma EncryptBlock_unfold block keys :
  EncryptBlock block keys =
  xorPrefix (fold_left (encryptRound keys) (seq 0 Rounds) block) (expandKey (lastKeyOf keys)).
Proof. reflexivity. Qed.

(** [EncryptBlock] sees its input only through [SubstituteBlock]. *)
Lemma EncryptBlock_through_sbox b1 b2 keys :
  SubstituteBlock b1 = SubstituteBlock b2 -> EncryptBlock b1 keys = EncryptBlock b2 keys.
Proof.
  intros H. rewrite !EncryptBlock_unfold, seq_Rounds, !fold_left_step.
  assert (E : encryptRound keys b1 0 = encryptRound keys b2 0)
    by (unfold encryptRound; now rewrite H).
  now rewrite E.
Qed.

Lemma firstBlockOf_cons p iv :
  firstBlockOf p iv =
  Z.lxor p (nth 0 iv 0) ::
  map (fun j => Z.lxor (nth j (replicate 64 63) 0) (nth j iv 0)) (seq 1 63).
Proof.
  unfold firstBlockOf. change (seq 0 BlockSize) with (0%nat :: seq 1 63).
  cbn [map]. apply (f_equal2 cons); [reflexivity|].
  apply map_ext_in. intros j Hj. apply in_seq in Hj.
  destruct j as [|j]; [lia|reflexivity].
Qed.

Lemma one_byte_ciphertext p K N :
  cbcEncrypt (map (derivedKey K) (seq 0 numKeys)) (paddedLengthOf [p] / BlockSize)
             (padPlaintext [p]) (DeriveIV N K) =
  EncryptBlock (firstBlockOf p (DeriveIV N K)) (map (derivedKey K) (seq 0 numKeys)).
Proof.
  change (paddedLengthOf [p] / BlockSize)%nat with 1%nat.
  cbn [cbcEncrypt]. now rewrite app_nil_r.
Qed.

(** For every key and nonce two different one-byte plaintexts are
    encrypted to the same frame. *)
Lemma EncryptData_collision (K N : list byte) :
  length K = KeySize -> length N = NonceSize ->
  let iv0 := nth 0 (DeriveIV N K) 0 in
  let P1 := [Z.lxor 0 iv0] in
  let P2 := [Z.lxor 243 iv0] in
  P1 <> P2 /\ Forall isByte P1 /\ Forall isByte P2 /\
  exists frame, EncryptData P1 K N = Ok frame /\ EncryptData P2 K N = Ok frame.
Proof.
  intros HK HN iv0 P1 P2.
  assert (Hiv : isByte iv0) by (apply nth_byte, sponge_bytes).
  split; [|split; [|split]].
  - unfold P1, P2. intros E. injection E as E.
    apply (f_equal (fun x => Z.lxor x iv0)) in E.
    rewrite !Z.lxor_assoc, Z.lxor_nilpotent, !Z.lxor_0_r in E. discriminate E.
  - apply Forall_cons; split; [|apply Forall_nil_2].
    apply lxor_byte; [unfold isByte; lia|exact Hiv].
  - apply Forall_cons; split; [|apply Forall_nil_2].
    apply lxor_byte; [unfold isByte; lia|exact Hiv].
  - eexists. split; [apply (EncryptData_ok P1 K N HK HN)|].
    rewrite (EncryptData_ok P2 K N HK HN). unfold P1, P2.
    rewrite !one_byte_ciphertext.
    assert (E : EncryptBlock (firstBlockOf (Z.lxor 243 iv0) (DeriveIV N K))
                             (map (derivedKey K) (seq 0 numKeys)) =
                EncryptBlock (firstBlockOf (Z.lxor 0 iv0) (DeriveIV N K))
                             (map (derivedKey K) (seq 0 numKeys))).
    { apply EncryptBlock_through_sbox. rewrite !firstBlockOf_cons.
      fold iv0. unfold SubstituteBlock. cbn [map]. apply (f_equal2 cons); [|reflexivity].
      rewrite !Z.lxor_assoc, Z.lxor_nilpotent, !Z.lxor_0_r.
      symmetry. apply sboxOutput_collision. }
    now rewrite E.
Qed.

(** ** Padding *)

Lemma paddedLengthOf_multiple (P : list byte) :
  (length P mod 64 = 0)%nat -> paddedLengthOf P = length P.
Proof.
  intros H. unfold paddedLengthOf, BlockSize.
  pose proof (Nat.div_mod_eq (length P) 64) as E. rewrite H in E.
  assert (Hq : ((length P + 64 - 1) / 64 = length P / 64)%nat).
  { symmetry. apply (Nat.div_unique _ 64 _ 63); lia. }
  rewrite Hq. lia.
Qed.

Lemma paddedLengthOf_partial (P : list byte) :
  (length P mod 64 <> 0)%nat ->
  paddedLengthOf P = (length P + (64 - length P mod 64))%nat.
Proof.
  intros H. unfold paddedLengthOf, BlockSize.
  pose proof (Nat.div_mod_eq (length P) 64) as E.
  pose proof (Nat.mod_upper_bound (length P) 64) as B.
  assert (Hq : ((length P + 64 - 1) / 64 = length P / 64 + 1)%nat).
  { symmetry. apply (Nat.div_unique _ 64 _ (length P mod 64 - 1)); lia. }
  rewrite Hq. lia.
Qed.

Lemma padPlaintext_multiple (P : list byte) :
  (length P mod 64 = 0)%nat -> padPlaintext P = P.
Proof.
  intros H. unfold padPlaintext. rewrite (paddedLengthOf_multiple P H), Nat.sub_diag.
  apply app_nil_r.
Qed.

Lemma padPlaintext_partial (P : list byte) :
  (length P mod 64 <> 0)%nat ->
  let p := (64 - length P mod 64)%nat in
  padPlaintext P = P ++ replicate p (Z.of_nat p).
Proof.
  intros H p. unfold padPlaintext. rewrite (paddedLengthOf_partial P H).
  replace (length P + (64 - length P mod 64) - length P)%nat with p by (unfold p; lia).
  rewrite Z.mod_small; [reflexivity|].
  pose proof (Nat.mod_upper_bound (length P) 64). unfold p. lia.
Qed.

Lemma emptyFrame_value : N0 ++ ComputeHMAC (derivedKey K0 10) N0 = emptyFrame.
Proof. vm_compute. reflexivity. Qed.

Lemma Ok_inj {A : Type} (a b : A) : Ok a = Ok b -> a = b.
Proof. intros E. now injection E. Qed.

(** [C1] Round trip.  The claim does not hold of the code.  For every
    32-byte key and 16-byte nonce, the frame of the empty plaintext is
    rejected by [DecryptData] ("decrypted plaintext is empty"), and there
    are two different one-byte plaintexts that [EncryptData] maps to the
    same frame, so that no decryption can return both. *)
Theorem C1_roundtrip_fails (K N : list byte) :
  length K = KeySize -> length N = NonceSize ->
  (exists frame,
      EncryptData [] K N = Ok frame /\
      DecryptData frame K = Err "decrypted plaintext is empty") /\
  (exists P1 P2 frame,
      P1 <> P2 /\ Forall isByte P1 /\ Forall isByte P2 /\
      EncryptData P1 K N = Ok frame /\ EncryptData P2 K N = Ok frame /\
      (DecryptData frame K <> Ok P1 \/ DecryptData frame K <> Ok P2)).
Proof.
  intros HK HN. split.
  - destruct (decrypt_of_empty_encryption K N HK HN) as (He & _ & Hd). eauto.
  - destruct (EncryptData_collision K N HK HN) as (Hne & Hb1 & Hb2 & frame & H1 & H2).
    exists [Z.lxor 0 (nth 0 (DeriveIV N K) 0)], [Z.lxor 243 (nth 0 (DeriveIV N K) 0)], frame.
    split; [exact Hne|]. split; [exact Hb1|]. split; [exact Hb2|].
    split; [exact H1|]. split; [exact H2|].
    destruct (DecryptData frame K) as [pt| |]; try (left; discriminate).
    destruct (list_eq_dec pt [Z.lxor 0 (nth 0 (DeriveIV N K) 0)]) as [->|Hd].
    + right. intros E. apply Hne. exact (Ok_inj _ _ E).
    + left. intros E. apply Hd. exact (Ok_inj _ _ E).
Qed.

Lemma C1_roundtrip_fails_witness :
  length K0 = KeySize /\ length N0 = NonceSize /\
  (exists frame,
      EncryptData [] K0 N0 = Ok frame /\
      DecryptData frame K0 = Err "decrypted plaintext is empty").
Proof.
  split; [reflexivity|]. split; [reflexivity|].
  exact (proj1 (C1_roundtrip_fails K0 N0 eq_refl eq_refl)).
Defined.

(** [C2] Padding.  The claim holds when the length is not a multiple of
    64 and fails when it is: [EncryptData] then appends nothing.  In
    particular the empty plaintext gives an empty ciphertext (a frame of
    80 bytes: nonce and tag), which [DecryptData] rejects. *)
Theorem C2_padding_skipped_on_full_blocks (P K N : list byte) :
  length K = KeySize -> length N = NonceSize ->
  ((length P mod 64 <> 0)%nat ->
     padPlaintext P = P ++ replicate (64 - length P mod 64) (Z.of_nat (64 - length P mod 64))) /\
  ((length P mod 64 = 0)%nat ->
     padPlaintext P = P /\
     exists ciphertext tag,
       EncryptData P K N = Ok (ciphertext ++ N ++ tag) /\
       length ciphertext = length P /\ length tag = TagSize) /\
  (let frame := N ++ ComputeHMAC (derivedKey K 10) N in
   EncryptData [] K N = Ok frame /\ length frame = 80%nat /\
   DecryptData frame K = Err "decrypted plaintext is empty").
Proof.
  intros HK HN. split; [|split].
  - apply padPlaintext_partial.
  - intros H. split; [apply (padPlaintext_multiple P H)|].
    do 2 eexists. split; [apply (EncryptData_ok P K N HK HN)|]. split.
    + rewrite cbcEncrypt_length, (paddedLengthOf_multiple P H). unfold BlockSize.
      pose proof (Nat.div_mod_eq (length P) 64). lia.
    + apply ComputeHMAC_length.
  - apply (decrypt_of_empty_encryption K N HK HN).
Qed.

Lemma C2_padding_skipped_on_full_blocks_witness :
  length K0 = KeySize /\ length N0 = NonceSize /\
  EncryptData [] K0 N0 = Ok emptyFrame /\ length emptyFrame = 80%nat /\
  DecryptData emptyFrame K0 = Err "decrypted plaintext is empty".
Proof.
  split; [reflexivity|]. split; [reflexivity|].
  rewrite <- emptyFrame_value.
  exact (proj2 (proj2 (C2_padding_skipped_on_full_blocks [] K0 N0 eq_refl eq_refl))).
Defined.

(** ** Key derivation *)

Lemma nth_derivedKeys masterKey i :
  (i < numKeys)%nat ->
  nth i (map (derivedKey masterKey) (seq 0 numKeys)) [] = derivedKey masterKey i.
Proof.
  intros Hi. rewrite (nth_indep _ [] (derivedKey masterKey 0%nat))
    by (now rewrite length_map, length_seq).
  rewrite (map_nth (derivedKey masterKey)), seq_nth by exact Hi. reflexivity.
Qed.

(** [C3], the claim as stated, refuted: under key [K0] the first round
    key that [EncryptData] derives is not the first 16 bytes of
    SHA3-512 (00 00 00 01 ‖ K0 ‖ N0). *)
Lemma C3_counterexample :
  exists keys,
    DeriveKeys K0 = Ok keys /\
    nth 0 keys [] <> take 16 (Keccak.sha3_512 (counterBytes 1 ++ K0 ++ N0 ++ [])).
Proof.
  exists (map (derivedKey K0) (seq 0 numKeys)). split.
  - apply DeriveKeys_ok. reflexivity.
  - rewrite nth_derivedKeys by (unfold numKeys; lia). vm_compute. discriminate.
Qed.

(** [C3], amended.  The round keys of [EncryptData] come from
    [DeriveKeys]: key [i] is the first 16 bytes of SHA3-512 of the master
    key followed by the ASCII text "key_<i>", whatever the nonce.  The
    counter format of the claim is that of [DeriveKeysNISTSP80056A]: its
    key [i] is the first 16 bytes of SHA3-512 of the big-endian 32-bit
    counter [counter + i + 1], the master key, the nonce and the shared
    secret. *)
Theorem C3_round_key_formats (K N S : list byte) (counter : Z) (i : nat) :
  length K = KeySize -> (i < 11)%nat ->
  (exists keys,
      DeriveKeys K = Ok keys /\ length keys = 11%nat /\
      nth i keys [] =
        take 16 (Keccak.sha3_512 (K ++ bytes_of_string ("key_" +:+ itoa_nat i)))) /\
  nth i (DeriveKeysNISTSP80056A K N S counter) [] =
    take 16 (Keccak.sha3_512
               (counterBytes (wrap32 (counter + Z.of_nat i + 1)) ++ K ++ N ++ S)) /\
  (0 <= counter + Z.of_nat i + 1 < 2 ^ 32 ->
   counterBytes (wrap32 (counter + Z.of_nat i + 1)) =
     [(counter + Z.of_nat i + 1) / 2 ^ 24 mod 256;
      (counter + Z.of_nat i + 1) / 2 ^ 16 mod 256;
      (counter + Z.of_nat i + 1) / 2 ^ 8 mod 256;
      (counter + Z.of_nat i + 1) mod 256]).
Proof.
  intros HK Hi. split; [|split].
  - exists (map (derivedKey K) (seq 0 numKeys)). split; [apply DeriveKeys_ok, HK|].
    split; [now rewrite length_map, length_seq|].
    rewrite nth_derivedKeys by exact Hi. reflexivity.
  - unfold DeriveKeysNISTSP80056A.
    set (f := fun keyIndex : nat => _).
    rewrite (nth_indep _ [] (f 0%nat)) by (now rewrite length_map, length_seq).
    rewrite (map_nth f), seq_nth by exact Hi. unfold f. cbn [Nat.add].
    replace (Z.of_nat (i + 1)) with (Z.of_nat i + 1) by lia.
    now rewrite Z.add_assoc.
  - intros Hr. unfold wrap32. rewrite (Z.mod_small _ (2 ^ 32)) by exact Hr.
    unfold counterBytes. change 0xFF with (Z.ones 8).
    rewrite !Z.land_ones, !Z.shiftr_div_pow2 by lia. reflexivity.
Qed.

Lemma C3_round_key_formats_witness :
  length K0 = KeySize /\ (0 < 11)%nat /\
  nth 0 (DeriveKeysNISTSP80056A K0 N0 [] 0) [] =
    take 16 (Keccak.sha3_512 (counterBytes (wrap32 (0 + Z.of_nat 0 + 1)) ++ K0 ++ N0 ++ [])).
Proof.
  split; [reflexivity|]. split; [lia|].
  exact (proj1 (proj2 (C3_round_key_formats K0 N0 [] 0 0 eq_refl (Nat.lt_0_succ 10)))).
Defined.

(** ** The authentication tag *)

(** [C4], the claim as stated, refuted: for the empty plaintext under
    [K0] and [N0] the tag of the frame is not the HMAC keyed with the
    first 32 bytes of SHA3-512 ("AUTH" ‖ K0 ‖ N0). *)
Lemma C4_counterexample :
  exists ciphertext tag,
    EncryptData [] K0 N0 = Ok (ciphertext ++ N0 ++ tag) /\
    tag <> ComputeHMAC (specAuthKey K0 N0) (N0 ++ ciphertext).
Proof.
  exists [], (ComputeHMAC (derivedKey K0 10) N0). split.
  - apply (decrypt_of_empty_encryption K0 N0); reflexivity.
  - vm_compute. discriminate.
Qed.

(** [C4], amended.  The 64-byte tag that [EncryptData] appends is
    HMAC-SHA3-512 over nonce ‖ ciphertext, keyed with the last round key:
    the 16 bytes SHA3-512 (K ‖ "key_10")[0..16]. *)
Theorem C4_tag_is_hmac_under_last_round_key (P K N : list byte) :
  length K = KeySize -> length N = NonceSize ->
  exists ciphertext authKey,
    authKey = take 16 (Keccak.sha3_512 (K ++ bytes_of_string "key_10")) /\
    length authKey = 16%nat /\
    length ciphertext = paddedLengthOf P /\
    length (ComputeHMAC authKey (N ++ ciphertext)) = 64%nat /\
    EncryptData P K N = Ok (ciphertext ++ N ++ ComputeHMAC authKey (N ++ ciphertext)).
Proof.
  intros HK HN. do 2 eexists.
  split; [reflexivity|]. split; [|split; [|split]].
  4: exact (EncryptData_ok P K N HK HN).
  - rewrite length_take, sha3_512_length. reflexivity.
  - rewrite cbcEncrypt_length. unfold paddedLengthOf.
    rewrite Nat.div_mul by (unfold BlockSize; lia). reflexivity.
  - apply ComputeHMAC_length.
Qed.

Lemma C4_tag_is_hmac_under_last_round_key_witness :
  length K0 = KeySize /\ length N0 = NonceSize /\
  exists ciphertext authKey,
    authKey = take 16 (Keccak.sha3_512 (K0 ++ bytes_of_string "key_10")) /\
    length authKey = 16%nat /\
    length ciphertext = paddedLengthOf [65] /\
    length (ComputeHMAC authKey (N0 ++ ciphertext)) = 64%nat /\
    EncryptData [65] K0 N0 = Ok (ciphertext ++ N0 ++ ComputeHMAC authKey (N0 ++ ciphertext)).
Proof.
  split; [reflexivity|]. split; [reflexivity|].
  exact (C4_tag_is_hmac_under_last_round_key [65] K0 N0 eq_refl eq_refl).
Defined.

(** ** S-boxes *)

(** [C5] S-box bijectivity fails in the code.  In each of the eight
    tables of [SBoxTable] the inputs 0x10 and 0x11 both give 0x00 (only
    the leading entries are written out, the rest are zero), so
    [ApplySBoxes] maps two different blocks to one; and the S-box of
    [SubstituteBlock] gives 0x5d for both 0x00 and 0xf3. *)
Theorem C5_sboxes_not_injective :
  (forall k box, SBoxTable !! k = Some box ->
     length box = 256%nat /\ nth 16 box 0 = 0 /\ nth 17 box 0 = 0 /\ ~ NoDup box) /\
  ApplySBoxes SBoxTable (replicate 64 16) = ApplySBoxes SBoxTable (replicate 64 17) /\
  sboxOutput 0 = 0x5d /\ sboxOutput 243 = 0x5d /\
  SubstituteBlock (replicate 64 0) = SubstituteBlock (replicate 64 243).
Proof.
  split; [|split; [|split; [|split]]].
  - intros k box Hk.
    assert (Hdup : forall l : list Z, nth 16 l 0 = nth 17 l 0 ->
                     (17 < length l)%nat -> ~ NoDup l).
    { intros l E Hl Hnd. rewrite NoDup_alt in Hnd.
      destruct (lookup_lt_is_Some_2 l 16%nat) as [x Hx]; [lia|].
      destruct (lookup_lt_is_Some_2 l 17%nat) as [y Hy]; [lia|].
      rewrite (nth_lookup_Some _ _ 0 _ Hx), (nth_lookup_Some _ _ 0 _ Hy) in E. subst y.
      specialize (Hnd _ _ _ Hx Hy). discriminate Hnd. }
    do 8 (destruct k as [|k];
          [injection Hk as <-;
           repeat split; try reflexivity; apply Hdup; [reflexivity|vm_compute; lia]|]).
    destruct k; discriminate Hk.
  - vm_compute. reflexivity.
  - vm_compute. reflexivity.
  - vm_compute. reflexivity.
  - unfold SubstituteBlock. cbn [replicate map]. now rewrite sboxOutput_collision.
Qed.

(** ** Outcomes of [DecryptData] *)

Lemma cbcDecrypt_never_errs keys iters plainLen data remaining iv msg :
  cbcDecrypt keys iters plainLen data remaining iv <> Err msg.
Proof.
  revert data remaining iv.
  induction iters as [|k IH]; intros data remaining iv; cbn [cbcDecrypt].
  - discriminate.
  - destruct (remaining <? BlockSize)%nat; [discriminate|].
    specialize (IH (drop BlockSize data) (remaining - BlockSize)%nat (take BlockSize data)).
    destruct (cbcDecrypt keys k plainLen (drop BlockSize data)
                         (remaining - BlockSize) (take BlockSize data));
      cbn [bind]; [discriminate|exact IH|discriminate].
Qed.

Lemma DecryptData_long_frame (F K : list byte) :
  length K = KeySize -> (80 <= length F)%nat ->
  DecryptData F K =
  if negb (VerifyHMAC (derivedKey K 10) (frameNonce F ++ frameCiphertext F) (frameTag F))
  then Err authError
  else
    do plaintext <- cbcDecrypt (map (derivedKey K) (seq 0 numKeys))
                       ((length F - NonceSize - TagSize + BlockSize - 1) / BlockSize)
                       (length F - NonceSize - TagSize) F
                       (length F - NonceSize - TagSize) (DeriveIV (frameNonce F) K);
    if (length plaintext =? 0)%nat then Err "decrypted plaintext is empty"
    else
      let paddingLength := Z.to_nat (nth (length plaintext - 1) plaintext 0) in
      if ((BlockSize <? paddingLength) || (paddingLength =? 0))%nat then
        Err ("invalid padding: " +:+ itoa_nat paddingLength)
      else if negb (paddingBytesOk plaintext paddingLength) then Err "invalid padding bytes"
      else Ok (take (length plaintext - paddingLength) plaintext).
Proof.
  intros HK HF. unfold DecryptData. rewrite HK, Nat.eqb_refl. cbn [negb].
  assert (Hge : (length F <? NonceSize + TagSize)%nat = false)
    by (apply Nat.ltb_ge; unfold NonceSize, TagSize; lia).
  rewrite Hge, (DeriveKeys_ok _ HK). cbn [bind]. rewrite lastKeyOf_derived. reflexivity.
Qed.

(** [C6], amended.  On a frame of at least 80 bytes under a 32-byte key
    the error of [DecryptData] names the step that failed: the
    authentication error is returned exactly when the tag does not
    verify, and every other error is one of the three padding errors. *)
Theorem C6_error_names_failing_step (F K : list byte) :
  length K = KeySize -> (80 <= length F)%nat ->
  let verified :=
    VerifyHMAC (derivedKey K 10) (frameNonce F ++ frameCiphertext F) (frameTag F) in
  (verified = false -> DecryptData F K = Err authError) /\
  (verified = true -> DecryptData F K <> Err authError) /\
  (forall msg, DecryptData F K = Err msg ->
     msg = authError \/ msg = "decrypted plaintext is empty" \/
     msg = "invalid padding bytes" \/
     exists p, msg = "invalid padding: " +:+ itoa_nat p).
Proof.
  intros HK HF verified. rewrite (DecryptData_long_frame F K HK HF). fold verified.
  set (loop := cbcDecrypt _ _ _ _ _ _).
  assert (Hloop : forall msg, loop <> Err msg) by (intros; apply cbcDecrypt_never_errs).
  destruct verified; cbn [negb]; (split; [|split]); try discriminate; try reflexivity.
  - intros _. destruct loop as [pt|m|m]; cbn [bind];
      [|destruct (Hloop m eq_refl)|discriminate].
    destruct (length pt =? 0)%nat; [discriminate|]. cbv zeta.
    destruct (_ || _)%bool; [discriminate|].
    destruct (negb _); discriminate.
  - intros msg. destruct loop as [pt|m|m]; cbn [bind];
      [|destruct (Hloop m eq_refl)|discriminate].
    destruct (length pt =? 0)%nat; [intros [= <-]; tauto|]. cbv zeta.
    destruct (_ || _)%bool; [intros [= <-]; right; right; right; eauto|].
    destruct (negb _); [intros [= <-]; tauto|discriminate].
  - intros msg [= <-]. now left.
Qed.

Lemma C6_error_names_failing_step_witness :
  length K0 = KeySize /\ (80 <= length emptyFrame)%nat /\
  (VerifyHMAC (derivedKey K0 10) (frameNonce emptyFrame ++ frameCiphertext emptyFrame)
              (frameTag emptyFrame) = true ->
   DecryptData emptyFrame K0 <> Err authError).
Proof.
  split; [reflexivity|]. split; [vm_compute; lia|].
  exact (proj1 (proj2 (C6_error_names_failing_step emptyFrame K0 eq_refl
                         (proj1 (Nat.leb_le 80 (length emptyFrame)) eq_refl)))).
Defined.

(** [C7], amended.  Under a 32-byte key [DecryptData] rejects every frame
    shorter than 80 bytes with the too-short error, whatever its bytes
    and whatever the key; a frame of exactly 80 bytes passes the length
    check and is rejected after tag verification, with the
    authentication error or as an empty plaintext. *)
Theorem C7_short_frames_rejected (F K : list byte) :
  length K = KeySize ->
  ((length F < 80)%nat ->
     DecryptData F K =
       Err ("encrypted data too short: expected at least 80 bytes, got " +:+
            itoa_nat (length F))) /\
  (length F = 80%nat ->
     DecryptData F K = Err authError \/
     DecryptData F K = Err "decrypted plaintext is empty").
Proof.
  intros HK. split.
  - intros HF. unfold DecryptData. rewrite HK, Nat.eqb_refl. cbn [negb].
    assert (Hlt : (length F <? NonceSize + TagSize)%nat = true)
      by (apply Nat.ltb_lt; unfold NonceSize, TagSize; lia).
    rewrite Hlt. reflexivity.
  - intros HF. rewrite (DecryptData_long_frame F K HK) by lia. rewrite HF.
    destruct (negb _); [now left|right]. reflexivity.
Qed.

Lemma C7_short_frames_rejected_witness :
  length K0 = KeySize /\ (length (replicate 79 0%Z) < 80)%nat /\
  DecryptData (replicate 79 0) K0 =
    Err "encrypted data too short: expected at least 80 bytes, got 79".
Proof.
  split; [reflexivity|]. split; [vm_compute; lia|].
  exact (proj1 (C7_short_frames_rejected (replicate 79 0%Z) K0 eq_refl)
               (proj1 (Nat.ltb_lt 79 80) eq_refl)).
Defined.

(** ** The permutation layer *)

Ltac explode_block b H :=
  do 64 (destruct b as [|? b]; [discriminate H|]);
  destruct b; [clear H|discriminate H].

Lemma PermuteBlock_places (b : list byte) (j : nat) :
  length b = 64%nat -> (j < 64)%nat ->
  nth ((5 * j + 7) mod 64) (PermuteBlock b) 0 = nth j b 0.
Proof.
  intros H Hj. explode_block b H.
  do 64 (destruct j as [|j]; [reflexivity|]). lia.
Qed.

Lemma ReversePermuteBlock_eq (b : list byte) :
  length b = 64%nat -> ReversePermuteBlock b = PermuteBlock b.
Proof. intros H. explode_block b H. reflexivity. Qed.

(** [C10] On every 64-byte block [ReversePermuteBlock] returns what
    [PermuteBlock] returns: both put input byte [j] at position
    [(5 j + 7) mod 64].  The "reverse" step of [DecryptBlock] therefore
    applies the forward permutation once more; it does not undo it:
    after both, byte [j] sits at position [(25 j + 42) mod 64]. *)
Theorem C10_reverse_permute_is_permute (b : list byte) :
  length b = 64%nat ->
  ReversePermuteBlock b = PermuteBlock b /\
  (forall j, (j < 64)%nat ->
     nth ((5 * j + 7) mod 64) (PermuteBlock b) 0 = nth j b 0 /\
     nth ((5 * j + 7) mod 64) (ReversePermuteBlock b) 0 = nth j b 0) /\
  (forall keys plaintext round,
     decryptRound keys plaintext round =
     SubstituteBlock
       (ReversePermuteBlock (MixBlock plaintext (expandKey (roundKeyAt keys round))))) /\
  (forall j, (j < 64)%nat ->
     nth ((25 * j + 42) mod 64) (ReversePermuteBlock (PermuteBlock b)) 0 = nth j b 0) /\
  (nth 37 b 0 <> nth 7 b 0 -> ReversePermuteBlock (PermuteBlock b) <> b).
Proof.
  intros H.
  pose proof (ReversePermuteBlock_eq b H) as E.
  pose proof (ReversePermuteBlock_eq (PermuteBlock b)
                (eq_trans (PermuteBlock_length b) H)) as E2.
  assert (Htwice : forall j, (j < 64)%nat ->
            nth ((25 * j + 42) mod 64) (PermuteBlock (PermuteBlock b)) 0 = nth j b 0).
  { intros j Hj.
    rewrite <- (PermuteBlock_places b j H Hj).
    rewrite <- (PermuteBlock_places (PermuteBlock b) ((5 * j + 7) mod 64)
                  (eq_trans (PermuteBlock_length b) H))
      by (apply Nat.mod_upper_bound; lia).
    f_equal. clear -Hj. do 64 (destruct j as [|j]; [reflexivity|]). lia. }
  split; [exact E|]. split; [|split; [|split]].
  - intros j Hj. rewrite E. split; apply (PermuteBlock_places b j H Hj).
  - reflexivity.
  - intros j Hj. rewrite E2. apply Htwice, Hj.
  - intros Hne Hb. apply Hne. rewrite E2 in Hb.
    rewrite <- (Htwice 37%nat) by lia. now rewrite Hb.
Qed.

Lemma C10_reverse_permute_is_permute_witness :
  length (map Z.of_nat (seq 0 64)) = 64%nat /\
  ReversePermuteBlock (map Z.of_nat (seq 0 64)) = PermuteBlock (map Z.of_nat (seq 0 64)).
Proof.
  split; [reflexivity|].
  exact (proj1 (C10_reverse_permute_is_permute (map Z.of_nat (seq 0 64)) eq_refl)).
Defined.
(** ** Erasing key material: what [securelyEraseKey] and the archive loop do *)

Section EraseLemmas.

Import KeyRotation.

Variable clock : nat -> Z.





Lemma xorWithPattern_length material pattern :
  length (xorWithPattern material pattern) = length material.
Proof. apply length_imap. Qed.



Lemma securelyEraseKey_entries p km e :
  entries km !! p = Some e ->
  entries (securelyEraseKey clock p km) = <[p := withMaterial None e]> (entries km).
Proof.
  intros He. unfold securelyEraseKey. rewrite He.
  destruct (erasedBytes _ _ _ _) as [bytes tick]. reflexivity.
Qed.

Lemma securelyEraseKey_frame p km :
  policy (securelyEraseKey clock p km) = policy km /\
  history (securelyEraseKey clock p km) = history km.
Proof.
  unfold securelyEraseKey. destruct (entries km !! p) as [e|]; [|tauto].
  destruct (erasedBytes _ _ _ _) as [bytes tick]. cbn. tauto.
Qed.


Lemma keptOrErased_trans e1 e2 e3 :
  keptOrErased e1 e2 -> keptOrErased e2 e3 -> keptOrErased e1 e3.
Proof.
  intros [->|(A & t & ->)] [->|(A' & t' & ->)].
  - now left.
  - right. split; [exact A'|]. now exists t'.
  - right. split; [exact A|]. now exists t.
  - cbn in A'. discriminate A'.
Qed.

Lemma entriesKeptOrErased_trans km1 km2 km3 :
  entriesKeptOrErased km1 km2 -> entriesKeptOrErased km2 km3 ->
  entriesKeptOrErased km1 km3.
Proof.
  intros H12 H23 p e He. destruct (H12 p e He) as (e2 & He2 & K12).
  destruct (H23 p e2 He2) as (e3 & He3 & K23).
  exists e3. split; [exact He3|]. eapply keptOrErased_trans; eassumption.
Qed.

(** One turn of the archive loop on a Rotated entry. *)
Lemma archiveLoop_turn version rest n km p e :
  0 < n -> history km !! version = Some p -> entries km !! p = Some e ->
  State (Metadata e) = KeyStateRotated ->
  let archived :=
    withMetadata (fun m => setArchivedAt (clock (ticks km)) (setState KeyStateArchived m)) e in
  let km2 :=
    setEntries (<[p := archived]> (entries km)) (timeNow clock km).2 in
  archiveLoop clock (version :: rest) n km =
    archiveLoop clock rest (n - 1) (securelyEraseKey clock p km2) /\
  entries km2 !! p = Some archived /\
  buffers km2 = buffers km /\ policy km2 = policy km /\ history km2 = history km /\
  ticks km2 = S (ticks km).
Proof.
  intros Hn Hh He Hs. cbv zeta. cbn [archiveLoop].
  rewrite (proj2 (Z.leb_gt _ _) Hn), Hh, He, Hs.
  replace (KeyState_eqb KeyStateRotated KeyStateRotated) with true by reflexivity.
  cbn [timeNow setEntries entries activeKey history currentVersion policy
       lastRotationTime buffers ticks snd].
  rewrite list_insert_insert_eq.
  split; [reflexivity|]. split; [|repeat split].
  apply list_lookup_insert_eq. eapply lookup_lt_Some, He.
Qed.

(** A turn of the archive loop that changes nothing. *)
Lemma archiveLoop_skip version rest n km :
  (forall p e, history km !! version = Some p -> entries km !! p = Some e ->
               State (Metadata e) <> KeyStateRotated) ->
  archiveLoop clock (version :: rest) n km =
  if n <=? 0 then km else archiveLoop clock rest n km.
Proof.
  intros H. cbn [archiveLoop]. destruct (n <=? 0); [reflexivity|].
  destruct (history km !! version) as [p|] eqn:Hh; [|reflexivity].
  destruct (entries km !! p) as [e|] eqn:He; [|reflexivity].
  specialize (H p e eq_refl He).
  destruct (State (Metadata e)); try reflexivity. now contradiction H.
Qed.

Lemma archiveLoop_erases order n km :
  entriesKeptOrErased km (archiveLoop clock order n km).
Proof.
  revert n km. induction order as [|version rest IH]; intros n km.
  - intros p e He. exists e. split; [exact He|now left].
  - destruct (Z.leb_spec n 0) as [Hn|Hn].
    { cbn [archiveLoop]. rewrite (proj2 (Z.leb_le _ _) Hn).
      intros p e He. exists e. split; [exact He|now left]. }
    destruct (history km !! version) as [q|] eqn:Hh;
      [|cbn [archiveLoop]; rewrite (proj2 (Z.leb_gt _ _) Hn), Hh; apply IH].
    destruct (entries km !! q) as [eq|] eqn:Heq;
      [|cbn [archiveLoop]; rewrite (proj2 (Z.leb_gt _ _) Hn), Hh, Heq; apply IH].
    destruct (decide (State (Metadata eq) = KeyStateRotated)) as [Hst|Hst].
    + destruct (archiveLoop_turn version rest n km q eq Hn Hh Heq Hst)
        as (-> & He2 & _).
      eapply entriesKeptOrErased_trans; [|apply IH].
      intros p e He. rewrite (securelyEraseKey_entries q _ _ He2).
      cbn [setEntries entries]. rewrite list_insert_insert_eq.
      assert (Hq : (q < length (entries km))%nat) by (eapply lookup_lt_Some, Heq).
      destruct (decide (q = p)) as [->|Hne].
      * rewrite list_lookup_insert_eq by exact Hq. eexists. split; [reflexivity|].
        right. rewrite He in Heq. injection Heq as ->.
        split; [exact Hst|]. now exists (clock (ticks km)).
      * rewrite list_lookup_insert_ne by exact Hne. exists e. split; [exact He|now left].
    + rewrite archiveLoop_skip, (proj2 (Z.leb_gt _ _) Hn); [apply IH|].
      intros p e Hp He. rewrite Hh in Hp. injection Hp as <-.
      rewrite Heq in He. now injection He as <-.
Qed.


Lemma archiveLoop_frame order n km :
  policy (archiveLoop clock order n km) = policy km /\
  history (archiveLoop clock order n km) = history km.
Proof.
  revert n km. induction order as [|version rest IH]; intros n km; [tauto|].
  destruct (Z.leb_spec n 0) as [Hn|Hn].
  { cbn [archiveLoop]. rewrite (proj2 (Z.leb_le _ _) Hn). tauto. }
  destruct (history km !! version) as [q|] eqn:Hh;
    [|cbn [archiveLoop]; rewrite (proj2 (Z.leb_gt _ _) Hn), Hh; apply IH].
  destruct (entries km !! q) as [eq|] eqn:Heq;
    [|cbn [archiveLoop]; rewrite (proj2 (Z.leb_gt _ _) Hn), Hh, Heq; apply IH].
  destruct (decide (State (Metadata eq) = KeyStateRotated)) as [Hst|Hst].
  - destruct (archiveLoop_turn version rest n km q eq Hn Hh Heq Hst)
      as (-> & _ & _ & Hp & Hhist & _).
    destruct (IH (n - 1) (securelyEraseKey clock q
                (setEntries (<[q := withMetadata
                     (fun m => setArchivedAt (clock (ticks km)) (setState KeyStateArchived m)) eq]>
                   (entries km)) (timeNow clock km).2))) as [IH1 IH2].
    rewrite IH1, IH2.
    destruct (securelyEraseKey_frame q
                (setEntries (<[q := withMetadata
                     (fun m => setArchivedAt (clock (ticks km)) (setState KeyStateArchived m)) eq]>
                   (entries km)) (timeNow clock km).2)) as [F1 F2].
    rewrite F1, F2. tauto.
  - rewrite archiveLoop_skip, (proj2 (Z.leb_gt _ _) Hn); [apply IH|].
    intros p e Hp He. rewrite Hh in Hp. injection Hp as <-.
    rewrite Heq in He. now injection He as <-.
Qed.


End EraseLemmas.

(** ** The key rotation manager *)

Section KeyRotationFacts.

Import KeyRotation.

Variable clock : nat -> Z.
Variable mono : nat -> Z.
Variable addDate : Z -> Z -> Z.

Lemma sameActive_refl km : sameActive km km.
Proof. unfold sameActive. tauto. Qed.

Lemma sameActive_trans km1 km2 km3 :
  sameActive km1 km2 -> sameActive km2 km3 -> sameActive km1 km3.
Proof.
  intros (A1 & H1 & C1 & L1 & S1) (A2 & H2 & C2 & L2 & S2).
  unfold sameActive. rewrite A2, H2, C2, L2, A1, H1, C1, L1.
  repeat split; try reflexivity; intros Hq.
  - apply S1, S2, Hq.
  - apply S2, S1, Hq.
Qed.

Lemma wellFormed_sameActive km km' :
  sameActive km km' -> wellFormed km -> wellFormed km'.
Proof.
  intros (A & H & C & L & S) ((p & e & Ha & Hh & He & Hs) & Huniq & Hvalid).
  unfold wellFormed. rewrite A, H, C, L. split; [|split].
  - assert (Hst : stateOf (entries km') p = Some KeyStateActive).
    { apply S. unfold stateOf. rewrite He. cbn. now rewrite Hs. }
    unfold stateOf in Hst. destruct (entries km' !! p) as [e'|] eqn:He'; [|discriminate].
    exists p, e'. cbn in Hst. repeat split; try assumption. congruence.
  - intros v q Hv Hq. apply (Huniq v q Hv). apply S, Hq.
  - exact Hvalid.
Qed.

(** Rewriting one entry without touching its state. *)
Lemma stateOf_insert_same es p e e' q :
  es !! p = Some e -> State (Metadata e') = State (Metadata e) ->
  stateOf (<[p := e']> es) q = stateOf es q.
Proof.
  intros He Hs. unfold stateOf. destruct (decide (p = q)) as [->|Hne].
  - rewrite list_lookup_insert_eq by (apply lookup_lt_Some in He; exact He).
    rewrite He. cbn. now rewrite Hs.
  - now rewrite list_lookup_insert_ne.
Qed.

(** Rewriting one entry that is not Active into one that is not. *)
Lemma stateOf_insert_inactive es p e e' q :
  es !! p = Some e ->
  State (Metadata e) <> KeyStateActive -> State (Metadata e') <> KeyStateActive ->
  (stateOf (<[p := e']> es) q = Some KeyStateActive <->
   stateOf es q = Some KeyStateActive).
Proof.
  intros He Hs Hs'. unfold stateOf. destruct (decide (p = q)) as [->|Hne].
  - rewrite list_lookup_insert_eq by (apply lookup_lt_Some in He; exact He).
    rewrite He. cbn. split; intros [= E]; congruence.
  - now rewrite list_lookup_insert_ne.
Qed.

Lemma securelyEraseKey_sameActive p km : sameActive km (securelyEraseKey clock p km).
Proof.
  unfold securelyEraseKey. destruct (entries km !! p) as [e|] eqn:He;
    [|apply sameActive_refl].
  destruct (erasedBytes clock (policy km) (sliceBytes (buffers km) (Material e)) (ticks km))
    as [bytes tick].
  unfold sameActive. cbn. repeat split; try reflexivity.
  - apply length_insert.
  - now rewrite (stateOf_insert_same _ _ e).
  - now rewrite (stateOf_insert_same _ _ e).
Qed.

Lemma archiveLoop_sameActive order n km : sameActive km (archiveLoop clock order n km).
Proof.
  revert n km. induction order as [|version rest IH]; intros n km; cbn [archiveLoop].
  - apply sameActive_refl.
  - destruct (n <=? 0); [apply sameActive_refl|].
    destruct (history km !! version) as [p|]; [|apply IH].
    destruct (entries km !! p) as [e|] eqn:He; [|apply IH].
    destruct (KeyState_eqb (State (Metadata e)) KeyStateRotated) eqn:Hrot; [|apply IH].
    assert (Hst : State (Metadata e) = KeyStateRotated)
      by (destruct (State (Metadata e)); (discriminate || reflexivity)).
    cbn [timeNow setEntries entries activeKey history currentVersion policy
         lastRotationTime buffers ticks].
    eapply sameActive_trans; [|apply IH].
    eapply sameActive_trans; [|apply securelyEraseKey_sameActive].
    unfold sameActive. cbn. rewrite !length_insert. repeat split; try reflexivity.
    + intros Hq. rewrite list_insert_insert_eq in Hq.
      eapply (stateOf_insert_inactive _ _ e); [exact He| | |exact Hq];
        cbn; rewrite ?Hst; discriminate.
    + intros Hq. rewrite list_insert_insert_eq.
      eapply (stateOf_insert_inactive _ _ e); [exact He| | |exact Hq];
        cbn; rewrite ?Hst; discriminate.
Qed.

Lemma archiveOldKeys_sameActive order km : sameActive km (archiveOldKeys clock order km).
Proof.
  unfold archiveOldKeys.
  destruct (RetentionCycles (policy km) <? activeCountOf km);
    [apply archiveLoop_sameActive|apply sameActive_refl].
Qed.

Lemma timeNow_sameActive km : sameActive km (timeNow clock km).2.
Proof. unfold sameActive. cbn. tauto. Qed.


Lemma installNewKey_wellFormed newKey km :
  wellFormed km -> wellFormed (installNewKey clock mono addDate newKey km).
Proof.
  intros ((p & e & Ha & Hh & He & Hs) & Huniq & Hvalid).
  unfold installNewKey. rewrite Ha, He. cbn zeta.
  set (es1 := <[p := _]> (entries km)).
  set (version := wrap64 (currentVersion km + 1)).
  assert (Hlen : length es1 = length (entries km)) by apply length_insert.
  assert (Hp : (p < length (entries km))%nat) by (eapply lookup_lt_Some; exact He).
  assert (Hnone : forall v q, history km !! v = Some q ->
                    stateOf es1 q <> Some KeyStateActive).
  { intros v q Hv Hq. unfold es1, stateOf in Hq.
    destruct (decide (p = q)) as [->|Hne].
    - rewrite list_lookup_insert_eq in Hq by exact Hp. cbn in Hq. discriminate.
    - rewrite list_lookup_insert_ne in Hq by exact Hne.
      pose proof (Huniq v q Hv Hq) as ->. congruence. }
  unfold wellFormed. cbn. split; [|split].
  - eexists _, _. split; [reflexivity|]. split; [apply lookup_insert_eq|].
    split; [apply list_lookup_middle; reflexivity|reflexivity].
  - intros v q Hv Hq. destruct (decide (version = v)) as [->|Hne]; [reflexivity|].
    rewrite lookup_insert_ne in Hv by exact Hne. exfalso.
    apply (Hnone v q Hv). unfold stateOf in *.
    rewrite lookup_app_l in Hq; [exact Hq|]. rewrite Hlen. eapply Hvalid, Hv.
  - intros v q Hv. rewrite length_app. cbn.
    destruct (decide (version = v)) as [->|Hne].
    + rewrite lookup_insert_eq in Hv. injection Hv as <-. lia.
    + rewrite lookup_insert_ne in Hv by exact Hne. rewrite Hlen.
      pose proof (Hvalid v q Hv). lia.
Qed.

Lemma RotateKey_wellFormed newKey order km :
  wellFormed km -> wellFormed (RotateKey clock mono addDate newKey order km).2.
Proof.
  intros Hw. unfold RotateKey.
  destruct (negb _); [exact Hw|].
  pose proof (wellFormed_sameActive _ _ (timeNow_sameActive km) Hw) as Hw1.
  destruct (timeNow clock km) as [now km1] eqn:Ht. cbn [snd] in Hw1.
  destruct (minimumAgeNotReached mono km); [exact Hw1|]. cbn [snd].
  eapply wellFormed_sameActive; [apply archiveOldKeys_sameActive|].
  apply installNewKey_wellFormed, Hw1.
Qed.

Lemma setBuffers_sameActive bs km : sameActive km (setBuffers bs km).
Proof. unfold sameActive. cbn. tauto. Qed.

Lemma step_wellFormed km km' : step clock mono addDate km km' -> wellFormed km -> wellFormed km'.
Proof.
  intros Hstep Hw. destruct Hstep.
  - eapply wellFormed_sameActive; [apply setBuffers_sameActive|exact Hw].
  - apply RotateKey_wellFormed, Hw.
  - eapply wellFormed_sameActive; [apply archiveOldKeys_sameActive|exact Hw].
  - unfold UpdateRotationPolicy.
    repeat (match goal with |- context [if ?c then _ else _] => destruct c end);
      exact Hw.
  - unfold IncrementEncryptionCount.
    destruct (activeKey km) as [p|]; [|exact Hw].
    destruct (entries km !! p) as [e|] eqn:He; [|exact Hw].
    eapply wellFormed_sameActive; [|exact Hw]. unfold sameActive. cbn.
    rewrite length_insert. repeat split; try reflexivity;
      now rewrite (stateOf_insert_same _ _ e).
  - unfold IncrementDecryptionCount.
    destruct (history km !! version) as [p|]; [|exact Hw].
    destruct (entries km !! p) as [e|] eqn:He; [|exact Hw].
    eapply wellFormed_sameActive; [|exact Hw]. unfold sameActive. cbn.
    rewrite length_insert. repeat split; try reflexivity;
      now rewrite (stateOf_insert_same _ _ e).
  - unfold GetActiveKey. destruct (activeKey km) as [p|] eqn:Ha; [|exact Hw].
    pose proof (wellFormed_sameActive _ _ (timeNow_sameActive km) Hw) as Hw1.
    destruct (timeNow clock km) as [now km1]. cbn [snd] in Hw1.
    destruct (entries km !! p); [|exact Hw1].
    destruct (ExpiresAt _ <? now); exact Hw1.
  - unfold RestoreKey. destruct (DecryptData backupData backupKey); try exact Hw.
    apply RotateKey_wellFormed.
    eapply wellFormed_sameActive; [apply setBuffers_sameActive|exact Hw].
Qed.

Lemma NewKeyManager_wellFormed bufs ticks0 initialKey pol km :
  NewKeyManager clock mono addDate bufs ticks0 initialKey pol None = Ok km -> wellFormed km.
Proof.
  unfold NewKeyManager. destruct (negb _); [discriminate|].
  intros [= <-]. unfold wellFormed. cbn. split; [|split].
  - eexists _, _. split; [reflexivity|]. split; [apply lookup_singleton_eq|].
    split; reflexivity.
  - intros v q Hv _. apply lookup_singleton_Some in Hv. symmetry. apply Hv.
  - intros v q Hv. apply lookup_singleton_Some in Hv. destruct Hv as [_ <-]. lia.
Qed.

Lemma reachable_wellFormed km : reachable clock mono addDate km -> wellFormed km.
Proof.
  induction 1 as [bufs ticks0 initialKey pol km H|km km' _ IH Hstep].
  - eapply NewKeyManager_wellFormed, H.
  - eapply step_wellFormed; eassumption.
Qed.



Lemma wrap64_small z : - 2 ^ 63 <= z < 2 ^ 63 -> wrap64 z = z.
Proof. intros H. unfold wrap64. rewrite Z.mod_small; lia. Qed.





End KeyRotationFacts.


(** ** Erasing key material *)

Section EraseFacts.

Import KeyRotation.

Variable clock : nat -> Z.


End EraseFacts.



(** * Further properties of the code *)

(** ** Frames and input validation (basic encryption) *)

Lemma paddedLengthOf_bounds (P : list Z) :
  (paddedLengthOf P mod 64 = 0)%nat /\
  (length P <= paddedLengthOf P)%nat /\ (paddedLengthOf P < length P + 64)%nat.
Proof.
  destruct (Nat.eq_dec (length P mod 64)%nat 0%nat) as [H|H].
  - rewrite (paddedLengthOf_multiple P H). lia.
  - rewrite (paddedLengthOf_partial P H).
    pose proof (Nat.mod_upper_bound (length P) 64 ltac:(lia)) as B.
    pose proof (Nat.div_mod_eq (length P) 64) as E.
    split; [|lia].
    replace (length P + (64 - length P mod 64))%nat
      with ((length P / 64 + 1) * 64)%nat by lia.
    apply Nat.Div0.mod_mul.
Qed.

(** [X1] The frame of [EncryptData]: for a 32-byte key and a 16-byte
    nonce encryption succeeds, and the frame is the ciphertext (the
    plaintext length rounded up to a multiple of 64), then the nonce as
    given, then the 64-byte HMAC of nonce and ciphertext; [DecryptData]'s
    slicing finds exactly these three parts. *)
Theorem X1_frame_layout (P K N : list byte) :
  length K = KeySize -> length N = NonceSize ->
  exists F,
    EncryptData P K N = Ok F /\
    length F = (paddedLengthOf P + 80)%nat /\
    (paddedLengthOf P mod 64 = 0)%nat /\
    (length P <= paddedLengthOf P < length P + 64)%nat /\
    length (frameCiphertext F) = paddedLengthOf P /\
    frameNonce F = N /\
    length (frameTag F) = 64%nat /\
    frameTag F = ComputeHMAC (derivedKey K 10) (frameNonce F ++ frameCiphertext F) /\
    F = frameCiphertext F ++ frameNonce F ++ frameTag F.
Proof.
  intros HK HN.
  pose (C := cbcEncrypt (map (derivedKey K) (seq 0 numKeys)) (paddedLengthOf P / BlockSize)
                        (padPlaintext P) (DeriveIV N K)).
  pose (T := ComputeHMAC (derivedKey K 10) (N ++ C)).
  exists (C ++ N ++ T).
  assert (HC : length C = paddedLengthOf P).
  { unfold C. rewrite cbcEncrypt_length. unfold paddedLengthOf.
    rewrite Nat.div_mul by (unfold BlockSize; lia). reflexivity. }
  assert (HT : length T = TagSize) by apply ComputeHMAC_length.
  destruct (frame_split C N T HN HT) as (Hlen & Hc & Hn & Ht).
  destruct (paddedLengthOf_bounds P) as (Hmod & Hle & Hlt).
  split; [exact (EncryptData_ok P K N HK HN)|].
  unfold frameCiphertext, frameNonce, frameTag. rewrite Hlen, Hc, Hn, Ht.
  split; [rewrite !length_app, HC, HN, HT; unfold NonceSize, TagSize; lia|].
  split; [exact Hmod|]. split; [lia|]. split; [exact HC|]. split; [reflexivity|].
  split; [exact HT|]. split; reflexivity.
Qed.

Lemma X1_frame_layout_witness :
  length K0 = KeySize /\ length N0 = NonceSize /\
  exists F, EncryptData [1; 2; 3] K0 N0 = Ok F /\ length F = 144%nat /\ frameNonce F = N0.
Proof.
  split; [reflexivity|]. split; [reflexivity|].
  destruct (X1_frame_layout [1; 2; 3] K0 N0 eq_refl eq_refl)
    as (F & HF & Hlen & _ & _ & _ & Hn & _).
  exists F. split; [exact HF|]. split; [exact Hlen|exact Hn].
Defined.

(** [X2] Input validation.  A master key that is not 32 bytes long is
    refused by [DeriveKeys], [EncryptData] and [DecryptData] before
    anything else is looked at (whatever the plaintext, nonce or frame);
    with a good key, [EncryptData] refuses a nonce that is given (not
    nil, which is the empty list here and for which the source draws a
    nonce) and is not 16 bytes long. *)
Theorem X2_sizes_checked_first (P K N F : list byte) :
  (length K <> KeySize ->
     DeriveKeys K = Err ("invalid master key size: expected 32 bytes, got " +:+
                         itoa_nat (length K)) /\
     EncryptData P K N = Err ("invalid master key size: expected 32, got " +:+
                              itoa_nat (length K)) /\
     DecryptData F K = Err ("invalid master key size: expected 32, got " +:+
                            itoa_nat (length K))) /\
  (length K = KeySize -> N <> [] -> length N <> NonceSize ->
     EncryptData P K N = Err ("invalid nonce size: expected 16, got " +:+
                              itoa_nat (length N))).
Proof.
  split.
  - intros HK. apply Nat.eqb_neq in HK.
    unfold DeriveKeys, EncryptData, DecryptData. rewrite HK. cbn [negb].
    repeat split; reflexivity.
  - intros HK _ HN. apply Nat.eqb_neq in HN.
    unfold EncryptData. rewrite HK, Nat.eqb_refl. cbn [negb].
    rewrite (DeriveKeys_ok K HK). cbn [bind]. rewrite HN. reflexivity.
Qed.

(** ** HMAC *)

Lemma orXor_zero_iff (computed tag : list Z) (acc : Z) :
  length computed = length tag ->
  (orXor computed tag acc = 0 <-> acc = 0 /\ computed = tag).
Proof.
  revert tag acc. induction computed as [|c cs IH]; intros [|t ts] acc Hlen;
    try discriminate Hlen; cbn [orXor].
  - tauto.
  - injection Hlen as Hlen. rewrite (IH ts _ Hlen), Z.lor_eq_0_iff. split.
    + intros [[Ha Hx] ->]. apply Z.lxor_eq in Hx. subst. tauto.
    + intros [Ha E]. injection E as -> ->. rewrite Z.lxor_nilpotent. tauto.
Qed.

(** [X3] [VerifyHMAC] accepts a tag exactly when it is, byte for byte,
    the tag [ComputeHMAC] computes for that key and data (a tag of
    another length is never accepted). *)
Theorem X3_verify_accepts_exactly_the_tag (key data tag : list byte) :
  VerifyHMAC key data tag = true <-> tag = ComputeHMAC key data.
Proof.
  unfold VerifyHMAC. cbv zeta.
  generalize (ComputeHMAC key data). intros computed. split.
  - intros H. destruct (length computed =? length tag)%nat eqn:El;
      cbn [negb] in H; [|discriminate H].
    apply Nat.eqb_eq in El. apply Z.eqb_eq in H.
    pose proof (proj1 (orXor_zero_iff _ _ _ El) H) as [_ E]. symmetry. exact E.
  - intros ->. rewrite Nat.eqb_refl. cbn [negb]. rewrite orXor_self. reflexivity.
Qed.

(** [X5] Key handling of [ComputeHMAC]: a key of at most 136 bytes is
    padded with zero bytes to 136, so zero bytes appended to it (up to
    that length) do not change the tag; a longer key is replaced by its
    SHA3-512 digest. *)
Theorem X5_hmac_key_normalisation (key data : list byte) (k : nat) :
  ((length key + k <= 136)%nat ->
     ComputeHMAC (key ++ replicate k 0) data = ComputeHMAC key data) /\
  ((136 < length key)%nat ->
     ComputeHMAC key data = ComputeHMAC (Keccak.sha3_512 key) data).
Proof.
  split.
  - intros H. unfold ComputeHMAC, hmacBlockSize.
    assert (H1 : (length (key ++ replicate k 0%Z) <=? 136)%nat = true)
      by (apply Nat.leb_le; rewrite length_app, length_replicate; lia).
    assert (H2 : (length key <=? 136)%nat = true) by (apply Nat.leb_le; lia).
    rewrite H1, H2.
    assert (E : (key ++ replicate k 0) ++ replicate (136 - length (key ++ replicate k 0)) 0
                = key ++ replicate (136 - length key) 0).
    { rewrite <- app_assoc. f_equal. rewrite length_app, length_replicate.
      rewrite <- replicate_add. f_equal. lia. }
    now rewrite E.
  - intros H. unfold ComputeHMAC, hmacBlockSize.
    assert (H1 : (length key <=? 136)%nat = false) by (apply Nat.leb_gt; lia).
    assert (H2 : (length (Keccak.sha3_512 key) <=? 136)%nat = true)
      by (rewrite sha3_512_length; reflexivity).
    now rewrite H1, H2.
Qed.

(** ** The CBC loop of [DecryptData] *)

Lemma cbcDecrypt_ragged keys plainLen iters data remaining iv :
  (remaining mod 64 <> 0)%nat -> iters = ((remaining + 63) / 64)%nat ->
  cbcDecrypt keys iters plainLen data remaining iv =
  Panic ("runtime error: index out of range [" +:+ itoa_nat plainLen +:+
         "] with length " +:+ itoa_nat plainLen).
Proof.
  revert data remaining iv. induction iters as [|k IH]; intros data remaining iv Hm Hi.
  - exfalso. destruct remaining as [|r]; [apply Hm; reflexivity|].
    assert (1 <= (S r + 63) / 64)%nat by (apply Nat.div_le_lower_bound; lia). lia.
  - cbn [cbcDecrypt]. unfold BlockSize.
    destruct (remaining <? 64)%nat eqn:Hlt; [reflexivity|].
    apply Nat.ltb_ge in Hlt.
    rewrite (IH (drop 64 data) (remaining - 64)%nat (take 64 data)); [reflexivity| |].
    + replace remaining with ((remaining - 64) + 1 * 64)%nat in Hm by lia.
      rewrite Nat.Div0.mod_add in Hm. exact Hm.
    + replace (remaining + 63)%nat with ((remaining - 64 + 63) + 1 * 64)%nat in Hi by lia.
      rewrite Nat.div_add in Hi by lia. lia.
Qed.

(** [X4] A frame whose tag verifies but whose ciphertext length is not a
    multiple of 64 makes [DecryptData] panic: the CBC loop writes past
    the end of the plaintext buffer (index out of range), so there is
    neither a plaintext nor an error value. *)
Theorem X4_ragged_ciphertext_panics (C N K : list byte) :
  length K = KeySize -> length N = NonceSize -> (length C mod 64 <> 0)%nat ->
  DecryptData (C ++ N ++ ComputeHMAC (derivedKey K 10) (N ++ C)) K =
  Panic ("runtime error: index out of range [" +:+ itoa_nat (length C) +:+
         "] with length " +:+ itoa_nat (length C)).
Proof.
  intros HK HN Hm. rewrite (DecryptData_authentic C N K HK HN).
  rewrite cbcDecrypt_ragged; [reflexivity|exact Hm|].
  unfold BlockSize. f_equal. lia.
Qed.

Lemma X4_ragged_ciphertext_panics_witness :
  length K0 = KeySize /\ length N0 = NonceSize /\ (length [7] mod 64 <> 0)%nat /\
  DecryptData ([7] ++ N0 ++ ComputeHMAC (derivedKey K0 10) (N0 ++ [7])) K0 =
  Panic "runtime error: index out of range [1] with length 1".
Proof.
  split; [reflexivity|]. split; [reflexivity|].
  assert (H : (length [7] mod 64 <> 0)%nat) by (cbn; lia).
  split; [exact H|]. exact (X4_ragged_ciphertext_panics [7] N0 K0 eq_refl eq_refl H).
Defined.

Lemma X2_sizes_checked_first_witness :
  length N0 <> KeySize /\
  DecryptData emptyFrame N0 = Err "invalid master key size: expected 32, got 16" /\
  EncryptData [] K0 [7] = Err ("invalid nonce size: expected 16, got " +:+ itoa_nat 1).
Proof.
  assert (H : length N0 <> KeySize) by (cbn; unfold KeySize; lia).
  split; [exact H|]. split.
  - exact (proj2 (proj2 (proj1 (X2_sizes_checked_first [] N0 N0 emptyFrame) H))).
  - apply (proj2 (X2_sizes_checked_first [] K0 [7] emptyFrame)).
    + reflexivity.
    + discriminate.
    + cbn. unfold NonceSize. lia.
Defined.

Lemma X5_hmac_key_normalisation_witness :
  (length [1; 2] + 3 <= 136)%nat /\
  ComputeHMAC ([1; 2] ++ replicate 3 0) [9] = ComputeHMAC [1; 2] [9].
Proof.
  assert (H : (length [1; 2] + 3 <= 136)%nat) by (cbn; lia).
  split; [exact H|]. exact (proj1 (X5_hmac_key_normalisation [1; 2] [9] 3) H).
Defined.

(** ** The block transform has no diffusion *)

Lemma nth_map_in_range {A : Type} (f : A -> Z) (l : list A) (d : A) (i : nat) :
  (i < length l)%nat -> nth i (map f l) 0 = f (nth i l d).
Proof.
  intros Hi. rewrite (nth_indep _ 0 (f d)) by (now rewrite length_map).
  apply map_nth.
Qed.

Lemma nth_imap_in_range (f : nat -> Z -> Z) (l : list Z) (i : nat) :
  (i < length l)%nat -> nth i (imap f l) 0 = f i (nth i l 0).
Proof.
  intros Hi. destruct (lookup_lt_is_Some_2 l i Hi) as [x Hx].
  rewrite (nth_lookup_Some _ _ 0 _ Hx).
  apply nth_lookup_Some. rewrite list_lookup_imap, Hx. reflexivity.
Qed.

Lemma expandKey_length roundKey : length (expandKey roundKey) = 64%nat.
Proof. unfold expandKey. now rewrite length_map, length_seq. Qed.

(** One round moves byte [j] to position [(5 j + 7) mod 64], after the
    S-box and before the key byte of that position. *)
Lemma encryptRound_pointwise keys (b : list Z) (round j : nat) :
  length b = 64%nat -> (j < 64)%nat ->
  nth ((5 * j + 7) mod 64) (encryptRound keys b round) 0 =
  Z.lxor (sboxOutput (nth j b 0))
         (nth ((5 * j + 7) mod 64) (expandKey (roundKeyAt keys round)) 0).
Proof.
  intros Hb Hj. unfold encryptRound, MixBlock.
  assert (Hp : ((5 * j + 7) mod 64 < 64)%nat) by (apply Nat.mod_upper_bound; lia).
  rewrite nth_imap_in_range
    by (rewrite PermuteBlock_length, SubstituteBlock_length, Hb; exact Hp).
  rewrite expandKey_length, Nat.Div0.mod_mod.
  rewrite (PermuteBlock_places (SubstituteBlock b) j)
    by (rewrite ?SubstituteBlock_length; assumption).
  unfold SubstituteBlock. rewrite (nth_map_in_range sboxOutput b 0 j) by lia.
  reflexivity.
Qed.

Lemma positionAfter_16 j : (j < 64)%nat -> positionAfter 16 j = ((j + 16) mod 64)%nat.
Proof. intros Hj. do 64 (destruct j as [|j]; [reflexivity|]). lia. Qed.

Lemma rounds_pointwise keys (rs : list nat) (b1 b2 : list Z) (j : nat) :
  length b1 = 64%nat -> length b2 = 64%nat -> (j < 64)%nat ->
  nth j b1 0 = nth j b2 0 ->
  nth (positionAfter (length rs) j) (fold_left (encryptRound keys) rs b1) 0 =
  nth (positionAfter (length rs) j) (fold_left (encryptRound keys) rs b2) 0.
Proof.
  revert b1 b2 j. induction rs as [|r rs IH]; intros b1 b2 j H1 H2 Hj E.
  - exact E.
  - rewrite !fold_left_step. cbn [length positionAfter].
    apply IH.
    + rewrite encryptRound_length. exact H1.
    + rewrite encryptRound_length. exact H2.
    + apply Nat.mod_upper_bound. lia.
    + rewrite !encryptRound_pointwise by assumption. now rewrite E.
Qed.

Lemma rounds_length keys (rs : list nat) (b : list Z) :
  length (fold_left (encryptRound keys) rs b) = length b.
Proof.
  revert b. induction rs as [|r rs IH]; intros b; [reflexivity|].
  rewrite fold_left_step, IH. apply encryptRound_length.
Qed.

(** [X6] [EncryptBlock] has no diffusion: on 64-byte blocks the output
    byte at position [(j + 16) mod 64] is determined by the input byte at
    position [j] and the keys alone.  So two blocks that differ in one
    byte have ciphertext blocks that differ in at most one byte. *)
Theorem X6_block_transform_without_diffusion keys (b1 b2 : list byte) (j : nat) :
  length b1 = 64%nat -> length b2 = 64%nat -> (j < 64)%nat ->
  (nth j b1 0 = nth j b2 0 ->
   nth ((j + 16) mod 64) (EncryptBlock b1 keys) 0 =
   nth ((j + 16) mod 64) (EncryptBlock b2 keys) 0) /\
  ((forall i, (i < 64)%nat -> i <> j -> nth i b1 0 = nth i b2 0) ->
   forall i, (i < 64)%nat -> i <> ((j + 16) mod 64)%nat ->
             nth i (EncryptBlock b1 keys) 0 = nth i (EncryptBlock b2 keys) 0).
Proof.
  intros H1 H2 Hj.
  assert (Hone : forall k, (k < 64)%nat -> nth k b1 0 = nth k b2 0 ->
            nth ((k + 16) mod 64) (EncryptBlock b1 keys) 0 =
            nth ((k + 16) mod 64) (EncryptBlock b2 keys) 0).
  { intros k Hk E. rewrite !EncryptBlock_unfold. unfold xorPrefix.
    assert (Hp : ((k + 16) mod 64 < 64)%nat) by (apply Nat.mod_upper_bound; lia).
    rewrite !nth_imap_in_range by (rewrite rounds_length; lia).
    pose proof (rounds_pointwise keys (seq 0 Rounds) b1 b2 k H1 H2 Hk E) as R.
    rewrite length_seq in R. change Rounds with 16%nat in R.
    rewrite (positionAfter_16 k Hk) in R. change Rounds with 16%nat.
    now rewrite R. }
  split; [apply Hone, Hj|].
  intros Hall i Hi Hne.
  replace i with (((i + 48) mod 64 + 16) mod 64)%nat
    by (clear -Hi; do 64 (destruct i as [|i]; [reflexivity|]); lia).
  apply Hone; [apply Nat.mod_upper_bound; lia|].
  apply Hall; [apply Nat.mod_upper_bound; lia|].
  intros E. apply Hne. rewrite <- E.
  clear -Hi. do 64 (destruct i as [|i]; [reflexivity|]). lia.
Qed.

Lemma X6_block_transform_without_diffusion_witness :
  length (replicate 64 0) = 64%nat /\ length (1 :: replicate 63 0) = 64%nat /\ (5 < 64)%nat /\
  nth ((5 + 16) mod 64)
      (EncryptBlock (replicate 64 0) (map (derivedKey K0) (seq 0 numKeys))) 0 =
  nth ((5 + 16) mod 64)
      (EncryptBlock (1 :: replicate 63 0) (map (derivedKey K0) (seq 0 numKeys))) 0.
Proof.
  split; [reflexivity|]. split; [reflexivity|]. split; [lia|].
  exact (proj1 (X6_block_transform_without_diffusion
                  (map (derivedKey K0) (seq 0 numKeys))
                  (replicate 64 0) (1 :: replicate 63 0)
                  5 eq_refl eq_refl (proj1 (Nat.ltb_lt 5 64) eq_refl)) eq_refl).
Defined.

(** ** CBC chaining *)

Lemma nth_take_lt {A : Type} (l : list A) (d : A) (m j : nat) :
  (j < m)%nat -> nth j (take m l) d = nth j l d.
Proof.
  revert l j. induction m as [|m IH]; intros l j Hj; [lia|].
  destruct l as [|x l]; [now destruct j|]. destruct j as [|j]; [reflexivity|].
  cbn. apply IH. lia.
Qed.

Lemma cbcEncrypt_prefix keys (k n1 n2 : nat) (padded1 padded2 iv : list Z) :
  (k <= n1)%nat -> (k <= n2)%nat ->
  take (64 * k) padded1 = take (64 * k) padded2 ->
  take (64 * k) (cbcEncrypt keys n1 padded1 iv) =
  take (64 * k) (cbcEncrypt keys n2 padded2 iv).
Proof.
  revert n1 n2 padded1 padded2 iv.
  induction k as [|k IH]; intros n1 n2 padded1 padded2 iv H1 H2 E.
  - rewrite Nat.mul_0_r. reflexivity.
  - destruct n1 as [|n1]; [lia|]. destruct n2 as [|n2]; [lia|].
    cbn [cbcEncrypt]. unfold BlockSize.
    assert (Ex : map (fun j => Z.lxor (nth j padded1 0) (nth j iv 0)) (seq 0 64) =
                 map (fun j => Z.lxor (nth j padded2 0) (nth j iv 0)) (seq 0 64)).
    { apply map_ext_in. intros j Hj. apply in_seq in Hj. f_equal.
      rewrite <- (nth_take_lt padded1 0 (64 * S k) j) by lia.
      rewrite <- (nth_take_lt padded2 0 (64 * S k) j) by lia.
      now rewrite E. }
    rewrite Ex. set (blk := EncryptBlock _ keys).
    assert (Hb : length blk = 64%nat)
      by (unfold blk; now rewrite EncryptBlock_length, length_map, length_seq).
    replace (64 * S k)%nat with (length blk + 64 * k)%nat by lia.
    rewrite !take_app_add. f_equal. apply IH; [lia|lia|].
    rewrite !take_drop_commute. replace (64 + 64 * k)%nat with (64 * S k)%nat by lia.
    now rewrite E.
Qed.

(** [X7] CBC chaining under one key and nonce: two plaintexts that share
    their first [64 k] bytes get frames that share their first [64 k]
    bytes.  (Ciphertext block [i] depends on the plaintext up to block
    [i] only.) *)
Theorem X7_common_prefix_common_ciphertext (P1 P2 K N : list byte) (k : nat) :
  length K = KeySize -> length N = NonceSize ->
  (64 * k <= length P1)%nat -> (64 * k <= length P2)%nat ->
  take (64 * k) P1 = take (64 * k) P2 ->
  exists F1 F2,
    EncryptData P1 K N = Ok F1 /\ EncryptData P2 K N = Ok F2 /\
    take (64 * k) F1 = take (64 * k) F2.
Proof.
  intros HK HN H1 H2 E.
  do 2 eexists. split; [apply (EncryptData_ok P1 K N HK HN)|].
  split; [apply (EncryptData_ok P2 K N HK HN)|].
  assert (Hq : forall P : list Z, (64 * k <= length P)%nat ->
                 (k <= paddedLengthOf P / BlockSize)%nat).
  { intros P HP. destruct (paddedLengthOf_bounds P) as (_ & Hle & _).
    unfold BlockSize. apply Nat.div_le_lower_bound; lia. }
  assert (Hc : forall P : list Z,
            length (cbcEncrypt (map (derivedKey K) (seq 0 numKeys))
                               (paddedLengthOf P / BlockSize) (padPlaintext P)
                               (DeriveIV N K)) = paddedLengthOf P).
  { intros P. rewrite cbcEncrypt_length. unfold paddedLengthOf.
    rewrite Nat.div_mul by (unfold BlockSize; lia). reflexivity. }
  rewrite !take_app_le
    by (rewrite Hc; match goal with
                    | |- (_ <= paddedLengthOf ?P)%nat =>
                        destruct (paddedLengthOf_bounds P) as (_ & Hle & _); lia
                    end).
  apply cbcEncrypt_prefix; [apply Hq, H1|apply Hq, H2|].
  unfold padPlaintext. rewrite !take_app_le by assumption. exact E.
Qed.

Lemma X7_common_prefix_common_ciphertext_witness :
  length K0 = KeySize /\ length N0 = NonceSize /\
  exists F1 F2,
    EncryptData (replicate 64 7 ++ [1]) K0 N0 = Ok F1 /\
    EncryptData (replicate 64 7 ++ [2; 3]) K0 N0 = Ok F2 /\
    take (64 * 1) F1 = take (64 * 1) F2.
Proof.
  split; [reflexivity|]. split; [reflexivity|].
  apply (X7_common_prefix_common_ciphertext (replicate 64 7 ++ [1]) (replicate 64 7 ++ [2; 3])
           K0 N0 1 eq_refl eq_refl).
  - cbn. lia.
  - cbn. lia.
  - reflexivity.
Defined.

(** ** The NIST-style derivation *)

(** [X8] [DeriveKeysNISTSP80056A] returns eleven keys of sixteen bytes,
    and the keys of neighbouring base counters overlap: key [i + 1] for
    base counter [c] is key [i] for base counter [c + 1], so two calls
    whose counters differ by one share ten of their eleven keys. *)
Theorem X8_nist_keys_slide_with_counter (K N S : list byte) (c : Z) (i : nat) :
  (i < 10)%nat ->
  length (DeriveKeysNISTSP80056A K N S c) = 11%nat /\
  Forall (fun key => length key = 16%nat) (DeriveKeysNISTSP80056A K N S c) /\
  nth (i + 1) (DeriveKeysNISTSP80056A K N S c) [] =
  nth i (DeriveKeysNISTSP80056A K N S (c + 1)) [].
Proof.
  intros Hi. unfold DeriveKeysNISTSP80056A.
  set (f := fun cc (keyIndex : nat) =>
              take 16 (Keccak.sha3_512
                         (counterBytes (wrap32 (cc + Z.of_nat (keyIndex + 1))) ++
                          K ++ N ++ S))).
  change (length (map (f c) (seq 0 11)) = 11%nat /\
          Forall (fun key => length key = 16%nat) (map (f c) (seq 0 11)) /\
          nth (i + 1) (map (f c) (seq 0 11)) [] = nth i (map (f (c + 1)) (seq 0 11)) []).
  split; [now rewrite length_map, length_seq|]. split.
  - apply List.Forall_forall. intros key Hin. apply List.in_map_iff in Hin.
    destruct Hin as (j & <- & _). unfold f. rewrite length_take, sha3_512_length. reflexivity.
  - rewrite (nth_indep _ [] (f c 0%nat)) by (rewrite length_map, length_seq; lia).
    rewrite (nth_indep (map (f (c + 1)) _) [] (f (c + 1) 0%nat))
      by (rewrite length_map, length_seq; lia).
    rewrite !map_nth, !seq_nth by lia. unfold f. cbn [Nat.add].
    replace (c + Z.of_nat (i + 1 + 1)) with (c + 1 + Z.of_nat (i + 1)) by lia.
    reflexivity.
Qed.

Lemma X8_nist_keys_slide_with_counter_witness :
  (0 < 10)%nat /\
  nth (0 + 1) (DeriveKeysNISTSP80056A K0 N0 [] 0) [] =
  nth 0 (DeriveKeysNISTSP80056A K0 N0 [] (0 + 1)) [].
Proof.
  split; [lia|].
  exact (proj2 (proj2 (X8_nist_keys_slide_with_counter K0 N0 [] 0 0 (Nat.lt_0_succ 9)))).
Defined.

(** ** S-boxes and P-layer *)

Lemma recomposeByte_id (b : Z) : isByte b -> recomposeByte b = b.
Proof.
  intros [H0 H1].
  assert (Hall : forallb (fun n => recomposeByte (Z.of_nat n) =? Z.of_nat n) (seq 0 256) = true)
    by (vm_compute; reflexivity).
  rewrite forallb_forall in Hall.
  specialize (Hall (Z.to_nat b)). rewrite Z2Nat.id in Hall by exact H0.
  apply Z.eqb_eq, Hall, in_seq. lia.
Qed.

Lemma fold_left_ext_in {A B} (f g : A -> B -> A) (l : list B) (a : A) :
  (forall x acc, In x l -> f acc x = g acc x) ->
  fold_left f l a = fold_left g l a.
Proof.
  revert a. induction l as [|x l IH]; intros a H; [reflexivity|].
  cbn [fold_left]. rewrite (H x a) by (now left).
  apply IH. intros y acc Hy. apply H. now right.
Qed.

Lemma nth_map_seq (f : nat -> Z) (n k : nat) :
  (k < n)%nat -> nth k (map f (seq 0 n)) 0 = f k.
Proof.
  intros Hk. rewrite (nth_map_in_range f (seq 0 n) 0%nat k) by (now rewrite length_seq).
  now rewrite seq_nth.
Qed.

Lemma bytesToBitsArray_bit (data : list Z) (i j : nat) :
  (i < 64)%nat -> (j < 8)%nat ->
  nth (i * 8 + j) (bytesToBitsArray data) 0 =
  if Z.land (nth i data 0) (Z.shiftl 1 (7 - Z.of_nat j)) =? 0 then 0 else 1.
Proof.
  intros Hi Hj. unfold bytesToBitsArray. rewrite nth_map_seq by lia.
  rewrite Nat.div_add_l, (Nat.div_small j 8), Nat.add_0_r by lia.
  rewrite Nat.add_comm, Nat.Div0.mod_add, (Nat.mod_small j 8) by lia.
  reflexivity.
Qed.

(** [X9] The bit view is lossless: turning 64 bytes into their 512 bits
    (most significant bit first) and back gives the same 64 bytes. *)
Theorem X9_bits_round_trip (data : list byte) :
  length data = 64%nat -> Forall isByte data ->
  bitsToByteArray (bytesToBitsArray data) = data /\
  length (bytesToBitsArray data) = 512%nat /\
  Forall (fun bit => bit = 0 \/ bit = 1) (bytesToBitsArray data).
Proof.
  intros Hlen Hbytes. split; [|split].
  - apply (nth_ext _ _ 0 0).
    + unfold bitsToByteArray. now rewrite length_map, length_seq.
    + unfold bitsToByteArray. rewrite length_map, length_seq. intros i Hi.
      rewrite nth_map_seq by exact Hi.
      transitivity (recomposeByte (nth i data 0));
        [|apply recomposeByte_id, nth_byte, Hbytes].
      unfold recomposeByte. apply fold_left_ext_in. intros j acc Hj.
      apply in_seq in Hj. now rewrite bytesToBitsArray_bit by lia.
  - unfold bytesToBitsArray. now rewrite length_map, length_seq.
  - unfold bytesToBitsArray. apply List.Forall_forall. intros bit Hin.
    apply List.in_map_iff in Hin. destruct Hin as (k & <- & _).
    destruct (_ =? 0); tauto.
Qed.

Lemma permuteBits_overrun (player : list nat) (bits : list Z) (n a : nat) :
  length player = 64%nat -> (a <= 64)%nat -> (64 < a + n)%nat ->
  permuteBits player bits (seq a n) =
  Panic "runtime error: index out of range [64] with length 64".
Proof.
  intros Hlen. revert a. induction n as [|n IH]; intros a Ha Hn; [lia|].
  cbn [seq permuteBits].
  destruct (Nat.eq_dec a 64%nat) as [->|Hne].
  - rewrite (proj2 (lookup_ge_None player 64%nat)) by lia. rewrite Hlen. reflexivity.
  - destruct (lookup_lt_is_Some_2 player a) as [src Hsrc]; [lia|].
    rewrite Hsrc, IH by lia. reflexivity.
Qed.

(** [X10] The P-layer cannot run: its loop reads [player[i]] for every bit
    index up to 511 while the table has 64 entries, so for every input block
    [ApplyPLayer] stops at index 64 with Go's index-out-of-range panic (the entries themselves
    are valid bit positions), and
    [PerformSBoxAndPLayer] returns a block only for zero rounds (the input
    itself). *)
Theorem X10_player_overrun (sboxes : list (list byte)) (player : list nat)
        (input : list byte) (fromRound rounds : nat) :
  length player = 64%nat -> Forall (fun src => (src < 512)%nat) player ->
  ApplyPLayer player input =
    Panic "runtime error: index out of range [64] with length 64" /\
  PerformSBoxAndPLayer sboxes player input fromRound (S rounds) =
    Panic "runtime error: index out of range [64] with length 64" /\
  PerformSBoxAndPLayer sboxes player input fromRound 0 = Ok input.
Proof.
  intros Hlen _.
  assert (Hp : forall blk, ApplyPLayer player blk =
                 Panic "runtime error: index out of range [64] with length 64").
  { intros blk. unfold ApplyPLayer.
    now rewrite (permuteBits_overrun player _ 512%nat 0%nat Hlen) by lia. }
  split; [apply Hp|]. split; [|reflexivity].
  cbn [PerformSBoxAndPLayer]. now rewrite Hp.
Qed.

Lemma X10_player_overrun_witness :
  length PLayerPermutation = 64%nat /\
  Forall (fun src => (src < 512)%nat) PLayerPermutation /\
  ApplyPLayer PLayerPermutation (K0 ++ K0) =
    Panic "runtime error: index out of range [64] with length 64".
Proof.
  assert (Hin : Forall (fun src => (src < 512)%nat) PLayerPermutation)
    by (unfold PLayerPermutation; repeat (constructor; [lia|]); constructor).
  split; [reflexivity|]. split; [exact Hin|].
  exact (proj1 (X10_player_overrun SBoxTable PLayerPermutation (K0 ++ K0) 0%nat 0%nat eq_refl Hin)).
Defined.

(** ** Inverse permutation *)

Lemma inverse_prefix (perm : list nat) (n : nat) :
  isPermutation64 perm -> (n <= 64)%nat ->
  let inv := fold_left (fun inv i => <[nth i perm 0%nat := i]> inv) (seq 0 n)
                       (replicate 64 0%nat) in
  length inv = 64%nat /\
  forall i, (i < n)%nat -> nth (nth i perm 0%nat) inv 0%nat = i.
Proof.
  intros (Hlen & Hnd & Hrange). induction n as [|n IH]; intros Hn.
  - cbn. split; [reflexivity|]. intros i Hi. lia.
  - rewrite seq_S, fold_left_app. cbn [fold_left Nat.add].
    destruct IH as [IHlen IHnth]; [lia|].
    set (inv := fold_left _ (seq 0 n) _) in *.
    split; [now rewrite length_insert|].
    assert (Hlt : forall k, (k < 64)%nat -> (nth k perm 0 < 64)%nat).
    { intros k Hk. rewrite List.Forall_forall in Hrange.
      apply Hrange, nth_In. lia. }
    intros i Hi. rewrite nth_lookup.
    destruct (Nat.eq_dec i n) as [->|Hne].
    + rewrite list_lookup_insert_eq; [reflexivity|]. rewrite IHlen. apply Hlt. lia.
    + rewrite list_lookup_insert_ne.
      * rewrite <- nth_lookup. apply IHnth. lia.
      * intros Heq. apply Hne.
        apply (proj1 (List.NoDup_nth perm 0%nat) (proj1 (NoDup_ListNoDup perm) Hnd)); [lia|lia|].
        symmetry. exact Heq.
Qed.

(** [X11] On every permutation of the positions 0..63,
    [computeInversePermutation] returns its two-sided inverse: looking up
    [perm[i]] in the result gives [i], and looking up [inv[j]] in [perm]
    gives [j]. *)
Theorem X11_inverse_permutation (perm : list nat) :
  isPermutation64 perm ->
  length (computeInversePermutation perm) = 64%nat /\
  (forall i, (i < 64)%nat ->
     nth (nth i perm 0%nat) (computeInversePermutation perm) 0%nat = i) /\
  (forall j, (j < 64)%nat ->
     nth (nth j (computeInversePermutation perm) 0%nat) perm 0%nat = j).
Proof.
  intros Hperm.
  destruct (inverse_prefix perm 64 Hperm (Nat.le_refl _)) as [Hlen Hnth].
  fold (computeInversePermutation perm) in Hlen, Hnth.
  split; [exact Hlen|]. split; [exact Hnth|].
  intros j Hj. destruct Hperm as (Hl & Hnd & Hrange).
  assert (Hin : In j perm).
  { apply (List.NoDup_length_incl (proj1 (NoDup_ListNoDup perm) Hnd) (l' := seq 0 64)).
    - rewrite length_seq, Hl. lia.
    - intros x Hx. apply in_seq. rewrite List.Forall_forall in Hrange.
      specialize (Hrange x Hx). lia.
    - apply in_seq. lia. }
  destruct (In_nth perm j 0%nat Hin) as (i & Hi & Hij).
  rewrite <- Hij at 1. rewrite Hnth by lia. exact Hij.
Qed.

Lemma X11_inverse_permutation_witness :
  isPermutation64 PLayerPermutation /\
  nth (nth 9 PLayerPermutation 0%nat) (computeInversePermutation PLayerPermutation) 0%nat = 9%nat.
Proof.
  assert (Hp : isPermutation64 PLayerPermutation).
  { split; [reflexivity|]. split.
    - apply NoDup_ListNoDup, (proj2 (List.NoDup_nth PLayerPermutation 0%nat)).
      intros i j Hi Hj. cbn [length PLayerPermutation] in Hi, Hj.
      do 64 (destruct i as [|i]; [do 64 (destruct j as [|j]; [cbn; intros; (reflexivity || discriminate)|]); lia|]).
      lia.
    - unfold PLayerPermutation; repeat (constructor; [lia|]); constructor. }
  split; [exact Hp|].
  exact (proj1 (proj2 (X11_inverse_permutation PLayerPermutation Hp)) 9%nat ltac:(lia)).
Defined.

(** ** Truncated S-box tables *)

Lemma nth_replicate_zero (m k : nat) : nth k (replicate m 0) 0 = 0.
Proof.
  revert k. induction m as [|m IH]; intros [|k]; cbn; auto.
Qed.

Lemma zeroFilled_tail (given : list Z) (n : nat) :
  (length given <= n)%nat -> nth n (zeroFilled given) 0 = 0.
Proof.
  intros Hn. unfold zeroFilled. rewrite app_nth2 by lia. apply nth_replicate_zero.
Qed.

Lemma SBoxTable_tail (j n : nat) :
  (j < 8)%nat -> (16 <= n)%nat -> nth n (nth j SBoxTable []) 0 = 0.
Proof.
  intros Hj Hn. unfold SBoxTable.
  do 8 (destruct j as [|j]; [cbn [nth]; apply zeroFilled_tail; cbn [length]; lia|]).
  lia.
Qed.

Lemma map_all_zero (f : nat -> Z) (l : list nat) :
  (forall k, In k l -> f k = 0) -> map f l = replicate (length l) 0.
Proof.
  induction l as [|k l IH]; intros H; [reflexivity|].
  cbn [map length replicate]. rewrite (H k) by (now left).
  rewrite IH; [reflexivity|]. intros k' Hk'. apply H. now right.
Qed.

(** [X12] The S-box tables are filled for the first 16 (box 0) or 8 (boxes
    1..7) inputs only, so every block whose 64 bytes are all at least 16 is
    substituted to the all-zero block, which [VerifyPhase2Output] rejects. *)
Theorem X12_sboxes_collapse (input : list byte) :
  length input = 64%nat -> Forall (fun b => 16 <= b < 256) input ->
  ApplySBoxes SBoxTable input = replicate 64 0 /\
  VerifyPhase2Output (ApplySBoxes SBoxTable input) = false.
Proof.
  intros Hlen Hin.
  assert (E : ApplySBoxes SBoxTable input = replicate 64 0).
  { unfold ApplySBoxes. rewrite map_all_zero; [now rewrite length_seq|].
    intros k Hk. apply in_seq in Hk. cbv zeta.
    rewrite List.Forall_forall in Hin.
    assert (Hb : 16 <= nth k input 0 < 256) by (apply Hin, nth_In; lia).
    apply SBoxTable_tail; [apply Nat.mod_upper_bound; lia | lia]. }
  split; [exact E|]. rewrite E. reflexivity.
Qed.

Lemma X12_sboxes_collapse_witness :
  VerifyPhase2Output (ApplySBoxes SBoxTable (map (fun k => 16 + Z.of_nat k) (seq 0 64))) = false.
Proof.
  apply (X12_sboxes_collapse (map (fun k => 16 + Z.of_nat k) (seq 0 64))).
  - reflexivity.
  - cbn [seq map]. repeat (constructor; [lia|]). constructor.
Defined.

(** ** Key manager: failures, policy, archive, statistics *)

Section KeyRotationExtras.

Import KeyRotation.

Variable clock : nat -> Z.
Variable mono : nat -> Z.
Variable addDate : Z -> Z -> Z.

(** [X13] A rotation that is refused changes nothing: when [RotateKey]
    returns an error, the error is the key-size message (exactly when the
    new key is not 32 bytes long) or the minimum-age message, and the active
    key, the history, the version, the policy, the time of the last rotation,
    the entries and the key buffers are as before: nothing has been rotated,
    archived or erased. *)
Theorem X13_refused_rotation_changes_nothing (newKey : option nat) (order : list Z)
        (km : KeyManager) :
  (RotateKey clock mono addDate newKey order km).1 <> Ok tt ->
  sameButClock km (RotateKey clock mono addDate newKey order km).2 /\
  ((length (sliceBytes (buffers km) newKey) <> KeySize /\
    (RotateKey clock mono addDate newKey order km).1 =
      Err ("invalid new key size: expected 32 bytes, got " +:+
           itoa_nat (length (sliceBytes (buffers km) newKey)))) \/
   (length (sliceBytes (buffers km) newKey) = KeySize /\
    (RotateKey clock mono addDate newKey order km).1 =
      Err ("cannot rotate key before minimum age of " +:+
           itoa (MinKeyAgeDays (policy km)) +:+ " days"))).
Proof.
  unfold RotateKey.
  destruct (length (sliceBytes (buffers km) newKey) =? KeySize)%nat eqn:Hlen; cbn [negb].
  - cbn [timeNow]. destruct (minimumAgeNotReached mono km).
    + intros _. split; [repeat split|].
      right. split; [now apply Nat.eqb_eq|reflexivity].
    + intros H. now contradiction H.
  - intros _. split; [repeat split|].
    left. split; [now apply Nat.eqb_neq|reflexivity].
Qed.

Lemma UpdateRotationPolicy_accepts (pol : KeyRotationPolicy) (km : KeyManager) :
  (UpdateRotationPolicy pol km).1 = Ok tt <->
  0 < IntervalDays pol < MaxKeyAgeDays pol /\ 1 <= RetentionCycles pol.
Proof.
  unfold UpdateRotationPolicy.
  destruct (Z.leb_spec (IntervalDays pol) 0);
    [cbn [fst]; split; [discriminate|lia]|].
  destruct (Z.leb_spec (MaxKeyAgeDays pol) (IntervalDays pol));
    [cbn [fst]; split; [discriminate|lia]|].
  destruct (Z.ltb_spec (RetentionCycles pol) 1);
    [cbn [fst]; split; [discriminate|lia]|].
  cbn [fst]. split; [lia|reflexivity].
Qed.

(** [X14] [UpdateRotationPolicy] accepts a policy exactly when its interval
    is positive, its maximum key age exceeds the interval and it retains at
    least one cycle; the minimum key age, the destruction method and the
    number of passes are not looked at.  An accepted policy replaces the old
    one and nothing else; a rejected one leaves the manager as it was. *)
Theorem X14_policy_validation (pol : KeyRotationPolicy) (km : KeyManager) :
  ((UpdateRotationPolicy pol km).1 = Ok tt <->
   0 < IntervalDays pol < MaxKeyAgeDays pol /\ 1 <= RetentionCycles pol) /\
  ((UpdateRotationPolicy pol km).1 = Ok tt ->
   (UpdateRotationPolicy pol km).2 = setPolicy pol km) /\
  ((UpdateRotationPolicy pol km).1 <> Ok tt ->
   (UpdateRotationPolicy pol km).2 = km).
Proof.
  split; [apply UpdateRotationPolicy_accepts|].
  unfold UpdateRotationPolicy.
  destruct (IntervalDays pol <=? 0); [split; [discriminate|reflexivity]|].
  destruct (MaxKeyAgeDays pol <=? IntervalDays pol); [split; [discriminate|reflexivity]|].
  destruct (RetentionCycles pol <? 1); [split; [discriminate|reflexivity]|].
  split; [reflexivity|]. intros H. now contradiction H.
Qed.

(** [X15] Which key is archived is decided by the order in which the range
    over the history map visits it: when more keys are in use than the policy
    retains, so that the number of keys to archive (an [int] difference) is
    positive, and the version visited first is Rotated, that version is the
    one archived, whatever its age, and [GetKeyByVersion], which returned
    its key before, now answers that it is not available. *)
Theorem X15_first_visited_is_archived (v : Z) (rest : list Z) (p : nat) (e : KeyEntry)
        (km : KeyManager) :
  history km !! v = Some p ->
  entries km !! p = Some e ->
  State (Metadata e) = KeyStateRotated ->
  RetentionCycles (policy km) < activeCountOf km ->
  0 < wrap64 (activeCountOf km - RetentionCycles (policy km)) ->
  GetKeyByVersion v km = Ok (Material e) /\
  GetKeyByVersion v (archiveOldKeys clock (v :: rest) km) =
    Err ("key version " +:+ itoa v +:+ " is not available (state: archived)").
Proof.
  intros Hh He Hs Hn Hpos. split.
  - unfold GetKeyByVersion, entryOf. rewrite Hh. cbn. rewrite He, Hs. reflexivity.
  - unfold archiveOldKeys. rewrite (proj2 (Z.ltb_lt _ _) Hn).
    set (n := wrap64 _) in *.
    destruct (archiveLoop_turn clock v rest n km p e Hpos Hh He Hs)
      as (-> & He2 & _ & _ & Hh2 & _).
    set (km2 := setEntries _ _) in *.
    set (km3 := securelyEraseKey clock p km2).
    assert (He3 : entries km3 !! p = Some (withMaterial None
              (withMetadata (fun m => setArchivedAt (clock (ticks km))
                                                    (setState KeyStateArchived m)) e))).
    { unfold km3. rewrite (securelyEraseKey_entries clock p km2 _ He2).
      apply list_lookup_insert_eq. eapply lookup_lt_Some, He2. }
    assert (Hh3 : history km3 = history km).
    { unfold km3. now rewrite (proj2 (securelyEraseKey_frame clock p km2)). }
    destruct (archiveLoop_erases clock rest (n - 1) km3 p _ He3) as (e' & He' & Hkept).
    destruct (archiveLoop_frame clock rest (n - 1) km3) as [_ Hh'].
    unfold GetKeyByVersion, entryOf. rewrite Hh', Hh3, Hh. cbn [mbind option_bind].
    rewrite He'. destruct Hkept as [->|(Hrot & _)]; [reflexivity|].
    cbn in Hrot. discriminate Hrot.
Qed.

Lemma filter_singleton {A} (f : A -> bool) (l : list A) (x : A) :
  List.NoDup l -> In x l -> f x = true ->
  (forall y, In y l -> f y = true -> y = x) ->
  length (List.filter f l) = 1%nat.
Proof.
  intros Hnd Hin Hfx Huniq.
  assert (Hnd' : List.NoDup (List.filter f l)) by (apply List.NoDup_filter, Hnd).
  assert (Hx : In x (List.filter f l)) by (apply List.filter_In; tauto).
  assert (Hall : forall y, In y (List.filter f l) -> y = x).
  { intros y Hy. apply List.filter_In in Hy. apply Huniq; tauto. }
  destruct (List.filter f l) as [|a [|b l']]; [destruct Hx|reflexivity|].
  exfalso. inversion Hnd' as [|? ? Hnotin _]; subst. apply Hnotin.
  rewrite (Hall a) by (now left). rewrite (Hall b) by (right; now left). now left.
Qed.

(** [X16] On every manager reachable from [NewKeyManager] the statistics
    report exactly one active key, among at least one key in all. *)
Theorem X16_statistics_one_active (km : KeyManager) :
  reachable clock mono addDate km ->
  ActiveKeys (GetStatistics km) = 1 /\ 1 <= TotalKeys (GetStatistics km).
Proof.
  intros Hr. pose proof (reachable_wellFormed clock mono addDate km Hr) as Hw.
  destruct Hw as ((p & e & Ha & Hh & He & Hs) & Huniq & Hvalid).
  assert (Hin : In (currentVersion km, p) (map_to_list (history km))).
  { apply list_elem_of_In, elem_of_map_to_list, Hh. }
  split.
  - cbn [GetStatistics ActiveKeys]. unfold countState.
    rewrite (filter_singleton _ _ (currentVersion km, p)); [reflexivity| | | |].
    + apply NoDup_ListNoDup, NoDup_map_to_list.
    + exact Hin.
    + cbn. unfold stateOf. rewrite He. cbn. now rewrite Hs.
    + intros [v q] Hy Hst. apply list_elem_of_In, elem_of_map_to_list in Hy.
      cbn in Hst. destruct (stateOf (entries km) q) as [s|] eqn:Hq; [|discriminate].
      destruct s; try discriminate.
      pose proof (Huniq v q Hy Hq) as ->.
      rewrite Hh in Hy. now injection Hy as ->.
  - cbn [GetStatistics TotalKeys]. rewrite <- (length_map_to_list (history km)).
    destruct (map_to_list (history km)); [destruct Hin|cbn [length]; lia].
Qed.

(** [X17] [NewKeyManager] takes the policy as it comes: a policy with a
    maximum key age of zero days or less, which [UpdateRotationPolicy]
    refuses, is accepted without error, and when the expiry date that
    [AddDate] computes from it lies before the next reading of the clock,
    the first [GetActiveKey] already fails with the expiry error. *)
Theorem X17_unchecked_initial_policy (bufs : list (list byte)) (ticks0 : nat)
        (initialKey : option nat) (pol : KeyRotationPolicy) :
  length (sliceBytes bufs initialKey) = KeySize ->
  MaxKeyAgeDays pol <= 0 ->
  addDate (clock (ticks0 + 2)) (MaxKeyAgeDays pol) < clock (ticks0 + 4) ->
  exists km,
    NewKeyManager clock mono addDate bufs ticks0 initialKey pol None = Ok km /\
    (GetActiveKey clock km).1 = Err "active key has expired" /\
    (UpdateRotationPolicy pol km).1 <> Ok tt.
Proof.
  intros Hlen Hage Hclock. unfold NewKeyManager.
  rewrite Hlen. cbn [Nat.eqb negb KeySize].
  replace (32 =? 32)%nat with true by reflexivity. cbn [negb].
  eexists. split; [reflexivity|]. split.
  - unfold GetActiveKey. cbn [activeKey timeNow entries ticks fst snd].
    cbn [lookup list_lookup ExpiresAt].
    rewrite (proj2 (Z.ltb_lt _ _) Hclock). reflexivity.
  - intros H. apply UpdateRotationPolicy_accepts in H. lia.
Qed.

End KeyRotationExtras.

Lemma X13_refused_rotation_changes_nothing_witness :
  sameButClock demoManager
    (KeyRotation.RotateKey demoClock demoMono demoAddDate None [] demoManager).2.
Proof.
  apply (X13_refused_rotation_changes_nothing demoClock demoMono demoAddDate None []
           demoManager).
  vm_compute. discriminate.
Defined.

Lemma X15_first_visited_is_archived_witness :
  KeyRotation.GetKeyByVersion 1 (KeyRotation.archiveOldKeys demoClock [1; 2] rotatedPair) =
  Err ("key version " +:+ itoa 1 +:+ " is not available (state: archived)").
Proof.
  refine (proj2 (X15_first_visited_is_archived demoClock 1 [2] 0%nat
                   (KeyRotation.mkKeyEntry _ (Some 0%nat) 0) rotatedPair _ _ _ _ _)).
  - vm_compute. reflexivity.
  - vm_compute. reflexivity.
  - reflexivity.
  - vm_compute. reflexivity.
  - vm_compute. reflexivity.
Defined.

Lemma X16_statistics_one_active_witness :
  KeyRotation.ActiveKeys (KeyRotation.GetStatistics demoManager) = 1.
Proof.
  apply (X16_statistics_one_active demoClock demoMono demoAddDate demoManager).
  apply (KeyRotation.reachable_init demoClock demoMono demoAddDate demoBuffers 0
                                    (Some 0%nat) KeyRotation.DefaultKeyRotationPolicy).
  reflexivity.
Defined.

Lemma X17_unchecked_initial_policy_witness :
  exists km,
    KeyRotation.NewKeyManager demoClock demoMono demoAddDate demoBuffers 0 (Some 0%nat)
      (KeyRotation.mkKeyRotationPolicy true 365 3 0 30 "" "zero" 3) None = Ok km /\
    (KeyRotation.GetActiveKey demoClock km).1 = Err "active key has expired" /\
    (KeyRotation.UpdateRotationPolicy
       (KeyRotation.mkKeyRotationPolicy true 365 3 0 30 "" "zero" 3) km).1 <> Ok tt.
Proof.
  apply (X17_unchecked_initial_policy demoClock demoMono demoAddDate demoBuffers 0
           (Some 0%nat)).
  - reflexivity.
  - cbn. lia.
  - vm_compute. reflexivity.
Defined.

(** ** HSM integration: what the locking makes of it *)

Section HSMExtras.

Import HSM.

Variable clock : nat -> Z.

Lemma LogAudit_under_lock eventType description status_ operatorID (h : HSMIntegration) :
  (writer (mu h) = true \/ readers (mu h) <> 0%nat) ->
  LogAudit clock eventType description status_ operatorID h = Blocks h.
Proof.
  intros H. unfold LogAudit, Lock.
  destruct H as [->|H]; [reflexivity|].
  destruct (readers (mu h)) as [|n]; [now contradiction H|].
  cbn. now rewrite orb_true_r.
Qed.

Lemma Unlock_Lock (h : HSMIntegration) :
  mu h = unlocked -> Unlock (setMu (mkRWMutex true (readers (mu h))) h) = h.
Proof.
  destruct h as [c s a k m t]. cbn. intros ->. reflexivity.
Qed.

Lemma RUnlock_RLock (h : HSMIntegration) :
  mu h = unlocked -> RUnlock (setMu (mkRWMutex false (S (readers (mu h)))) h) = h.
Proof.
  destruct h as [c s a k m t]. cbn. intros ->. reflexivity.
Qed.

Lemma ImportKey_offline (key : list byte) (h : HSMIntegration) :
  mu h = unlocked -> Online (status h) = false ->
  ImportKey clock key h = Returns (Some "HSM not online"%string) h.
Proof.
  intros Hmu Hoff. unfold ImportKey, Lock. rewrite Hmu. cbn [unlocked writer readers].
  cbn [orb Nat.eqb negb andThen setMu status]. rewrite Hoff. cbn [negb].
  change (mkRWMutex true 0) with (mkRWMutex true (readers unlocked)).
  rewrite <- Hmu. now rewrite Unlock_Lock.
Qed.

Lemma ImportKey_not_ok (key : list byte) (h h' : HSMIntegration) :
  ImportKey clock key h <> Returns None h'.
Proof.
  unfold ImportKey, Lock.
  destruct (writer (mu h) || negb (readers (mu h) =? 0)%nat)%bool; [discriminate|].
  cbn [andThen setMu status].
  destruct (Online (status h)); cbn [negb]; [|discriminate].
  rewrite LogAudit_under_lock by (now left). discriminate.
Qed.

(** [X18] [ImportKey] never reports success.  It takes the write lock and,
    when the HSM is online, copies the key and calls [LogAudit], which waits
    for the same lock: the call never returns, with the key already copied
    and the lock still held.  When the HSM is offline it returns the error
    "HSM not online" and leaves the HSM as it was. *)
Theorem X18_import_never_succeeds (key : list byte) (h : HSMIntegration) :
  (forall h', ImportKey clock key h <> Returns None h') /\
  (mu h = unlocked -> Online (status h) = true ->
   exists hb, ImportKey clock key h = Blocks hb /\
              keyMaterial hb = take 32 key /\ writer (mu hb) = true) /\
  (mu h = unlocked -> Online (status h) = false ->
   ImportKey clock key h = Returns (Some "HSM not online"%string) h).
Proof.
  unfold ImportKey, Lock.
  destruct (writer (mu h) || negb (readers (mu h) =? 0)%nat)%bool eqn:Hfree.
  - cbn [andThen]. split; [discriminate|].
    split; intros Hmu; rewrite Hmu in Hfree; discriminate Hfree.
  - cbn [andThen setMu status].
    destruct (Online (status h)) eqn:Hon; cbn [negb].
    + rewrite LogAudit_under_lock by (now left). cbn [andThen].
      split; [discriminate|]. split; [|discriminate].
      intros _ _. eexists. split; [reflexivity|]. split; reflexivity.
    + split; [discriminate|]. split; [discriminate|].
      intros Hmu _. now rewrite Unlock_Lock.
Qed.

(** [X19] [ExportKey] never returns the key: it takes a read lock and then
    calls [LogAudit], which waits for the write lock while that read lock is
    held.  Nothing has been appended to the audit log by then. *)
Theorem X19_export_never_returns (h : HSMIntegration) :
  exists hb, ExportKey clock h = Blocks hb /\ auditLog hb = auditLog h /\
             keyMaterial hb = keyMaterial h.
Proof.
  unfold ExportKey, RLock. destruct (writer (mu h)) eqn:Hw; cbn [andThen].
  - exists h. repeat split.
  - rewrite LogAudit_under_lock by (right; cbn; discriminate).
    cbn [andThen]. eexists. split; [reflexivity|]. split; reflexivity.
Qed.

Lemma initializeHSM_blocks description (h : HSMIntegration) :
  mu h = unlocked ->
  exists hb, initializeHSM clock description h = Blocks hb /\
             Online (status hb) = true /\ auditLog hb = auditLog h.
Proof.
  intros Hmu. unfold initializeHSM, Lock. rewrite Hmu. cbn [unlocked writer readers].
  cbn [orb Nat.eqb negb andThen].
  rewrite LogAudit_under_lock by (now left). cbn [andThen].
  eexists. split; [reflexivity|]. split; reflexivity.
Qed.

(** [X20] The constructor yields no usable HSM.  For each of the four known
    HSM types the initialiser takes the write lock and calls [LogAudit]
    under it, so [NewHSMIntegration] never returns; for every other type it
    returns an HSM that is offline, with an empty audit log, which fails
    [VerifyHSMCompliance] and refuses every key import. *)
Theorem X20_constructor_outcomes (cfg : HSMConfig) (ticks0 : nat) (key : list byte) :
  (In (HSMType cfg) knownHSMTypes ->
   exists hb, NewHSMIntegration clock cfg ticks0 = Blocks hb /\
              Online (status hb) = true /\ auditLog hb = []) /\
  (~ In (HSMType cfg) knownHSMTypes ->
   exists h, NewHSMIntegration clock cfg ticks0 = Returns tt h /\
             Online (status h) = false /\ auditLog h = [] /\
             VerifyHSMCompliance h = Returns false h /\
             ImportKey clock key h = Returns (Some "HSM not online"%string) h).
Proof.
  unfold NewHSMIntegration, initializeThalesHSM, initializeYubiHSM,
    initializeNitroHSM, initializeSoftHSM, knownHSMTypes.
  set (hsm := mkHSMIntegration _ _ _ _ _ _).
  assert (Hmu : mu hsm = unlocked) by reflexivity.
  assert (Hb : forall d, exists hb, initializeHSM clock d hsm = Blocks hb /\
                                    Online (status hb) = true /\ auditLog hb = []).
  { intros d. apply (initializeHSM_blocks d hsm Hmu). }
  destruct (String.eqb_spec (HSMType cfg) "thales") as [E1|E1];
    [split; [intros _; apply Hb|intros H; contradiction H; rewrite E1; cbn; tauto]|].
  destruct (String.eqb_spec (HSMType cfg) "yubihsm") as [E2|E2];
    [split; [intros _; apply Hb|intros H; contradiction H; rewrite E2; cbn; tauto]|].
  destruct (String.eqb_spec (HSMType cfg) "nitro") as [E3|E3];
    [split; [intros _; apply Hb|intros H; contradiction H; rewrite E3; cbn; tauto]|].
  destruct (String.eqb_spec (HSMType cfg) "softhsm") as [E4|E4];
    [split; [intros _; apply Hb|intros H; contradiction H; rewrite E4; cbn; tauto]|].
  split.
  - intros H. cbn in H. exfalso. destruct H as [H|[H|[H|[H|[]]]]]; congruence.
  - intros _. exists hsm. split; [reflexivity|]. split; [reflexivity|].
    split; [reflexivity|]. split.
    + reflexivity.
    + apply ImportKey_offline; reflexivity.
Qed.

(** [X21] [DetectTamper] never reports tampering and never zeroizes: with
    the lock free it returns false and leaves the HSM, its key material and
    its tamper flag as they were, whether or not the tamper sensor is
    configured. *)
Theorem X21_tamper_never_detected (h : HSMIntegration) :
  mu h = unlocked -> DetectTamper clock h = Returns false h.
Proof.
  destruct h as [c s a k m t]. cbn [mu]. intros ->.
  unfold DetectTamper, Lock. cbn. now destruct (TamperSensor c).
Qed.

Lemma NewHSMIntegration_returns (cfg : HSMConfig) (ticks0 : nat) (h : HSMIntegration) :
  NewHSMIntegration clock cfg ticks0 = Returns tt h ->
  mu h = unlocked /\ Online (status h) = false.
Proof.
  unfold NewHSMIntegration, initializeThalesHSM, initializeYubiHSM,
    initializeNitroHSM, initializeSoftHSM.
  set (hsm := mkHSMIntegration _ _ _ _ _ _).
  assert (Hb : forall d, initializeHSM clock d hsm <> Returns tt h).
  { intros d. destruct (initializeHSM_blocks d hsm eq_refl) as (hb & -> & _). discriminate. }
  destruct (String.eqb _ "thales"); [intros H; now apply Hb in H|].
  destruct (String.eqb _ "yubihsm"); [intros H; now apply Hb in H|].
  destruct (String.eqb _ "nitro"); [intros H; now apply Hb in H|].
  destruct (String.eqb _ "softhsm"); [intros H; now apply Hb in H|].
  intros H. injection H as <-. split; reflexivity.
Qed.

End HSMExtras.

Lemma X21_tamper_never_detected_witness :
  HSM.DetectTamper demoClock (idleHSM true) = HSM.Returns false (idleHSM true).
Proof.
  apply (X21_tamper_never_detected demoClock (idleHSM true)). reflexivity.
Defined.

(** ** Key lifecycle manager *)

Section KeyLifecycleExtras.

Import KeyLifecycle.

Variable clock : nat -> Z.

Lemma importToHSM_none material (klm : KeyLifecycleManager) :
  hsm klm = None -> importToHSM clock material klm = Some (None, klm).
Proof. intros H. unfold importToHSM. now rewrite H. Qed.

Lemma importToHSM_offline material (klm : KeyLifecycleManager) (h : HSM.HSMIntegration) :
  hsm klm = Some h -> HSM.mu h = unlocked -> HSM.Online (HSM.status h) = false ->
  importToHSM clock material klm = Some (Some "HSM not online"%string, klm).
Proof.
  intros H Hmu Hoff. unfold importToHSM. rewrite H.
  rewrite (ImportKey_offline clock material h Hmu Hoff).
  destruct klm as [ks hs ri t]. cbn in H. subst hs. reflexivity.
Qed.

Lemma importToHSM_frame material (klm klm2 : KeyLifecycleManager) (err : option string) :
  importToHSM clock material klm = Some (err, klm2) ->
  keys klm2 = keys klm /\ ticks klm2 = ticks klm /\ (hsm klm <> None -> err <> None).
Proof.
  unfold importToHSM. destruct (hsm klm) as [h|].
  - destruct (HSM.ImportKey clock material h) as [e h'|hb] eqn:Himp; [|discriminate].
    intros H. injection H as <- <-. split; [reflexivity|]. split; [reflexivity|].
    intros _ ->. now apply (ImportKey_not_ok clock material h h').
  - intros H. injection H as <- <-. split; [reflexivity|]. split; [reflexivity|].
    intros Hn. now contradiction Hn.
Qed.

(** [X22] The rotation interval is never applied: a key generated and then
    activated is reported by [GetKeysNeedingRotation] at once.  [GenerateKey]
    leaves [RotationDue] at the zero time, [ActivateKey] sets it to the
    activation time plus the (saturated, negative) difference between the
    zero time and the generation time, which lies before the activation. *)
Theorem X22_activated_key_is_due (keyID op1 op2 : string) (material : list byte)
        (order : list string) (klm : KeyLifecycleManager) :
  hsm klm = None ->
  keys klm !! keyID = None ->
  0 < clock (ticks klm) ->
  clock (ticks klm + 2) <= clock (ticks klm + 4) ->
  In keyID order ->
  exists klm1 klm2,
    GenerateKey clock keyID op1 (Ok material) klm = Returns (Ok keyID) klm1 /\
    ActivateKey clock keyID op2 klm1 = (Ok tt, klm2) /\
    In keyID (GetKeysNeedingRotation clock order klm2).1.
Proof.
  intros Hhsm Hnew Hpos Hmono Hin.
  replace (ticks klm + 2)%nat with (S (S (ticks klm))) in Hmono by lia.
  replace (ticks klm + 4)%nat with (S (S (S (S (ticks klm))))) in Hmono by lia.
  unfold GenerateKey. rewrite Hnew.
  rewrite importToHSM_none by exact Hhsm.
  eexists. eexists. split; [reflexivity|].
  unfold ActivateKey. cbn [keys setTicks setKeys ticks].
  rewrite lookup_insert_eq. cbn [addAuditEntry State].
  rewrite bool_decide_eq_true_2 by reflexivity. cbn [negb].
  split; [reflexivity|].
  unfold GetKeysNeedingRotation. cbn [fst keys setTicks setKeys ticks].
  apply List.filter_In. split; [exact Hin|].
  rewrite lookup_insert_eq. cbn [addAuditEntry State RotationDue Generated].
  rewrite bool_decide_eq_true_2 by reflexivity. cbn [andb].
  unfold timeAfter, timeAdd, timeSub, minDuration, maxDuration.
  apply Z.ltb_lt. lia.
Qed.

Lemma stateAt_insert (klm : KeyLifecycleManager) (ks : gmap string KeyLifecycle)
      (keyID id : string) (k : KeyLifecycle) :
  stateAt (setKeys (<[keyID := k]> ks) klm) id =
  if decide (keyID = id) then Some (State k) else State <$> ks !! id.
Proof.
  unfold stateAt. cbn [keys setKeys].
  destruct (decide (keyID = id)) as [->|Hne].
  - now rewrite lookup_insert_eq.
  - now rewrite lookup_insert_ne.
Qed.

Lemma lifecycleStep_retired (klm klm' : KeyLifecycleManager) (id : string) :
  lifecycleStep clock klm klm' ->
  (retired (stateAt klm id) -> retired (stateAt klm' id)) /\
  (stateAt klm' id = Some StateRotating -> stateAt klm id = Some StateRotating).
Proof.
  intros Hstep. destruct Hstep as
    [klm keyID op random r klm' H | klm keyID op | klm keyID op random r klm' H
    | klm keyID op | klm keyID op | klm order].
  - (* GenerateKey *)
    unfold GenerateKey in H.
    destruct (keys klm !! keyID) as [k|] eqn:Hk; [injection H as _ <-; tauto|].
    destruct random as [material|err|msg]; try (injection H as _ <-; tauto).
    destruct (importToHSM clock material _) as [[[err|] klm2]|] eqn:Himp;
      [| |discriminate H];
      destruct (importToHSM_frame _ _ _ _ Himp) as (Hkeys & _ & _);
      cbn [keys setTicks] in Hkeys; injection H as _ <-.
    + unfold stateAt. rewrite Hkeys. tauto.
    + unfold stateAt. cbn [keys setTicks setKeys]. rewrite Hkeys.
      destruct (decide (keyID = id)) as [->|Hne].
      * rewrite lookup_insert_eq, Hk. cbn. unfold retired. split; [intros [?|?]|]; discriminate.
      * rewrite lookup_insert_ne by exact Hne. tauto.
  - (* ActivateKey *)
    unfold ActivateKey.
    destruct (keys klm !! keyID) as [k|] eqn:Hk; [|cbn; tauto].
    destruct (bool_decide (State k = StateGenerated)) eqn:Hst; cbn [negb snd]; [|tauto].
    apply bool_decide_eq_true_1 in Hst.
    unfold stateAt. cbn [keys setTicks setKeys].
    destruct (decide (keyID = id)) as [->|Hne].
    + rewrite lookup_insert_eq, Hk. cbn. rewrite Hst. unfold retired.
      split; [intros [?|?]|]; discriminate.
    + rewrite lookup_insert_ne by exact Hne. tauto.
  - (* RotateKey *)
    unfold RotateKey in H.
    destruct (keys klm !! keyID) as [k|] eqn:Hk; [|injection H as _ <-; tauto].
    destruct (bool_decide (State k = StateActivated)) eqn:Hst; cbn [negb] in H;
      [|injection H as _ <-; tauto].
    apply bool_decide_eq_true_1 in Hst.
    destruct random as [material|err|msg]; try (injection H as _ <-; tauto).
    destruct (importToHSM clock material _) as [[[err|] klm2]|] eqn:Himp;
      [| |discriminate H];
      destruct (importToHSM_frame _ _ _ _ Himp) as (Hkeys & _ & _);
      cbn [keys setTicks] in Hkeys; injection H as _ <-;
      unfold stateAt; cbn [keys setKeys setTicks]; rewrite Hkeys;
      (destruct (decide (keyID = id)) as [->|Hne];
       [rewrite lookup_insert_eq, Hk; cbn; rewrite Hst; unfold retired;
        split; [intros [?|?]|]; discriminate
       |rewrite lookup_insert_ne by exact Hne; tauto]).
  - (* DeactivateKey *)
    unfold DeactivateKey.
    destruct (keys klm !! keyID) as [k|] eqn:Hk; [|cbn; tauto].
    unfold stateAt. cbn [snd keys setTicks setKeys].
    destruct (decide (keyID = id)) as [->|Hne].
    + rewrite lookup_insert_eq, Hk. cbn. unfold retired.
      split; [intros _; now left|discriminate].
    + rewrite lookup_insert_ne by exact Hne. tauto.
  - (* ZeroizeKey *)
    unfold ZeroizeKey.
    destruct (keys klm !! keyID) as [k|] eqn:Hk; [|cbn; tauto].
    unfold stateAt. cbn [snd keys setTicks setKeys].
    destruct (decide (keyID = id)) as [->|Hne].
    + rewrite lookup_insert_eq, Hk. cbn. unfold retired.
      split; [intros _; now right|discriminate].
    + rewrite lookup_insert_ne by exact Hne. tauto.
  - (* GetKeysNeedingRotation *)
    cbn. tauto.
Qed.

(** [X23] Retired keys stay retired, and [StateRotating] is never entered:
    over any sequence of returning calls of [GenerateKey], [ActivateKey],
    [RotateKey], [DeactivateKey], [ZeroizeKey] and [GetKeysNeedingRotation],
    a key that is Deactivated or Destroyed is Deactivated or Destroyed
    afterwards, and a key found in state Rotating was in that state from the
    start. *)
Theorem X23_retired_keys_stay_retired (klm klm' : KeyLifecycleManager) (id : string) :
  rtc (lifecycleStep clock) klm klm' ->
  (retired (stateAt klm id) -> retired (stateAt klm' id)) /\
  (stateAt klm' id = Some StateRotating -> stateAt klm id = Some StateRotating).
Proof.
  induction 1 as [klm|klm klm1 klm' Hstep _ IH]; [tauto|].
  destruct (lifecycleStep_retired klm klm1 id Hstep) as [H1 H2]. tauto.
Qed.

(** [X24] The state checks are one-sided: [DeactivateKey] has none, so a key
    that [ZeroizeKey] destroyed is moved back to Deactivated by it.  The key
    stays zeroized, its 32 bytes are zero, [DeactivateKey] (not
    [ZeroizeKey]) records its operator as [DestroyedBy], and each call adds
    one audit entry. *)
Theorem X24_destroyed_key_can_be_deactivated (keyID op1 op2 : string) (k : KeyLifecycle)
        (klm : KeyLifecycleManager) :
  keys klm !! keyID = Some k ->
  length (KeyMaterial k) = 32%nat ->
  exists k1 k2,
    ZeroizeKey clock keyID op1 klm = (Ok tt, (ZeroizeKey clock keyID op1 klm).2) /\
    keys (ZeroizeKey clock keyID op1 klm).2 !! keyID = Some k1 /\
    State k1 = StateDestroyed /\ DestroyedBy k1 = DestroyedBy k /\
    DeactivateKey clock keyID op2 (ZeroizeKey clock keyID op1 klm).2 =
      (Ok tt, (DeactivateKey clock keyID op2 (ZeroizeKey clock keyID op1 klm).2).2) /\
    keys (DeactivateKey clock keyID op2 (ZeroizeKey clock keyID op1 klm).2).2 !! keyID
      = Some k2 /\
    State k2 = StateDeactivated /\ Zeroized k2 = true /\ DestroyedBy k2 = op2 /\
    KeyMaterial k2 = replicate 32 0 /\
    length (AuditTrail k2) = (length (AuditTrail k) + 2)%nat.
Proof.
  intros Hk Hlen. unfold ZeroizeKey. rewrite Hk. cbn [snd].
  eexists. eexists. split; [reflexivity|].
  cbn [keys setTicks setKeys]. rewrite lookup_insert_eq.
  split; [reflexivity|]. split; [reflexivity|]. split; [reflexivity|].
  unfold DeactivateKey. cbn [keys setTicks setKeys]. rewrite lookup_insert_eq. cbn [snd].
  split; [reflexivity|].
  cbn [keys setTicks setKeys]. rewrite lookup_insert_eq.
  split; [reflexivity|]. split; [reflexivity|]. split; [reflexivity|].
  split; [reflexivity|]. split.
  - cbn [addAuditEntry KeyMaterial].
    destruct (KeyMaterial k) as [|b0 l] eqn:Hm; [discriminate Hlen|].
    do 31 (destruct l as [|? l]; [discriminate Hlen|]).
    destruct l; [reflexivity|discriminate Hlen].
  - cbn [addAuditEntry AuditTrail]. rewrite !length_app. cbn [length]. lia.
Qed.

(** [X25] A rotation whose HSM import fails is rolled back in part only:
    with the HSM offline [RotateKey] returns the import error and the old
    key material is back in place, while the rotation count has gone up, the
    operator is recorded as [RotatedBy], the rotation date is the time of the
    call, and the audit trail shows nothing. *)
Theorem X25_failed_rotation_is_half_undone (keyID op : string) (newMaterial : list byte)
        (k : KeyLifecycle) (h : HSM.HSMIntegration) (klm : KeyLifecycleManager) :
  keys klm !! keyID = Some k ->
  State k = StateActivated ->
  hsm klm = Some h -> HSM.mu h = unlocked -> HSM.Online (HSM.status h) = false ->
  exists klm' k',
    RotateKey clock keyID op (Ok newMaterial) klm =
      Returns (Err "failed to import rotated key to HSM: HSM not online") klm' /\
    keys klm' !! keyID = Some k' /\
    KeyMaterial k' = KeyMaterial k /\
    RotationCount k' = wrap64 (RotationCount k + 1) /\
    RotatedBy k' = op /\
    RotationDue k' = clock (ticks klm) /\
    State k' = StateActivated /\
    AuditTrail k' = AuditTrail k.
Proof.
  intros Hk Hst Hhsm Hmu Hoff. unfold RotateKey. rewrite Hk.
  rewrite bool_decide_eq_true_2 by exact Hst. cbn [negb].
  rewrite (importToHSM_offline newMaterial _ h) by assumption.
  eexists. eexists. split; [reflexivity|].
  cbn [keys setTicks setKeys]. rewrite lookup_insert_eq.
  split; [reflexivity|]. cbn [KeyMaterial RotationCount RotatedBy RotationDue State AuditTrail].
  repeat split; try assumption.
  unfold timeAdd, timeSub, minDuration, maxDuration. lia.
Qed.

(** [X26] With an HSM behind it the manager never comes to track a key: a
    call of [GenerateKey] that returns has not added a key and has not
    returned a key id; and on an HSM as [NewHSMIntegration] returns it, every
    call with fresh random bytes returns the import error. *)
Theorem X26_no_key_with_hsm (keyID op : string) (random : result (list byte))
        (h : HSM.HSMIntegration) (klm : KeyLifecycleManager) :
  hsm klm = Some h ->
  (forall r klm', GenerateKey clock keyID op random klm = Returns r klm' ->
                  keys klm' = keys klm /\ forall id, r <> Ok id) /\
  (forall cfg ticks0 material,
     HSM.NewHSMIntegration clock cfg ticks0 = HSM.Returns tt h ->
     keys klm !! keyID = None ->
     GenerateKey clock keyID op (Ok material) klm =
       Returns (Err "failed to import key to HSM: HSM not online")
               (setTicks (S (ticks klm)) klm)).
Proof.
  intros Hhsm. split.
  - intros r klm' H. unfold GenerateKey in H.
    destruct (keys klm !! keyID) as [k|]; [injection H as <- <-; split; [reflexivity|discriminate]|].
    destruct random as [material|err|msg];
      try (injection H as <- <-; split; [reflexivity|discriminate]).
    destruct (importToHSM clock material _) as [[[err|] klm2]|] eqn:Himp;
      [| |discriminate H];
      destruct (importToHSM_frame _ _ _ _ Himp) as (Hkeys & _ & Herr);
      cbn [keys hsm setTicks] in Hkeys, Herr.
    + injection H as <- <-. split; [exact Hkeys|discriminate].
    + exfalso. apply Herr; [now rewrite Hhsm|reflexivity].
  - intros cfg ticks0 material Hnew Hfresh.
    destruct (NewHSMIntegration_returns clock cfg ticks0 h Hnew) as [Hmu Hoff].
    unfold GenerateKey. rewrite Hfresh.
    rewrite (importToHSM_offline material _ h); [reflexivity|exact Hhsm|exact Hmu|exact Hoff].
Qed.

End KeyLifecycleExtras.

Lemma X22_activated_key_is_due_witness :
  exists klm1 klm2,
    KeyLifecycle.GenerateKey demoClock "k1" "alice" (Ok K0)
      (KeyLifecycle.NewKeyLifecycleManager None 1) = KeyLifecycle.Returns (Ok "k1"%string) klm1 /\
    KeyLifecycle.ActivateKey demoClock "k1" "bob" klm1 = (Ok tt, klm2) /\
    In "k1"%string (KeyLifecycle.GetKeysNeedingRotation demoClock ["k1"%string] klm2).1.
Proof.
  apply (X22_activated_key_is_due demoClock "k1" "alice" "bob" K0 ["k1"%string]
           (KeyLifecycle.NewKeyLifecycleManager None 1)).
  - reflexivity.
  - reflexivity.
  - unfold demoClock. cbn [KeyLifecycle.ticks KeyLifecycle.NewKeyLifecycleManager]. lia.
  - unfold demoClock. cbn [KeyLifecycle.ticks KeyLifecycle.NewKeyLifecycleManager]. lia.
  - now left.
Defined.

Lemma X23_retired_keys_stay_retired_witness :
  retired (stateAt
             (KeyLifecycle.ActivateKey demoClock "k1" "bob"
                (KeyLifecycle.DeactivateKey demoClock "k1" "bob" (oneActivatedKey None)).2).2
             "k1").
Proof.
  apply (proj1 (X23_retired_keys_stay_retired demoClock
                  (KeyLifecycle.DeactivateKey demoClock "k1" "bob" (oneActivatedKey None)).2
                  _ "k1"
                  (rtc_once _ _ (lifecycle_activate demoClock _ "k1" "bob")))).
  left. vm_compute. reflexivity.
Defined.

Lemma X24_destroyed_key_can_be_deactivated_witness :
  exists k2,
    KeyLifecycle.keys
      (KeyLifecycle.DeactivateKey demoClock "k1" "bob"
         (KeyLifecycle.ZeroizeKey demoClock "k1" "alice" (oneActivatedKey None)).2).2
      !! "k1"%string = Some k2 /\
    KeyLifecycle.State k2 = KeyLifecycle.StateDeactivated /\
    KeyLifecycle.Zeroized k2 = true.
Proof.
  destruct (X24_destroyed_key_can_be_deactivated demoClock "k1" "alice" "bob" demoKey
              (oneActivatedKey None) eq_refl eq_refl)
    as (k1 & k2 & _ & _ & _ & _ & _ & H1 & H2 & H3 & _).
  exists k2. split; [exact H1|]. split; [exact H2|exact H3].
Defined.

Lemma X25_failed_rotation_is_half_undone_witness :
  exists klm' k',
    KeyLifecycle.RotateKey demoClock "k1" "bob" (Ok (N0 ++ N0))
                           (oneActivatedKey (Some (idleHSM false))) =
      KeyLifecycle.Returns (Err "failed to import rotated key to HSM: HSM not online") klm' /\
    KeyLifecycle.keys klm' !! "k1"%string = Some k' /\
    KeyLifecycle.KeyMaterial k' = K0 /\
    KeyLifecycle.RotationCount k' = 1.
Proof.
  destruct (X25_failed_rotation_is_half_undone demoClock "k1" "bob" (N0 ++ N0) demoKey
              (idleHSM false) (oneActivatedKey (Some (idleHSM false)))
              eq_refl eq_refl eq_refl eq_refl eq_refl)
    as (klm' & k' & H1 & H2 & H3 & H4 & _).
  exists klm', k'. split; [exact H1|]. split; [exact H2|]. split; [exact H3|exact H4].
Defined.

Lemma X26_no_key_with_hsm_witness :
  KeyLifecycle.GenerateKey demoClock "k2" "alice" (Ok K0)
                           (oneActivatedKey (Some (idleHSM false))) =
    KeyLifecycle.Returns (Err "failed to import key to HSM: HSM not online")
                         (KeyLifecycle.setTicks 1 (oneActivatedKey (Some (idleHSM false)))) /\
  KeyLifecycle.keys (KeyLifecycle.setTicks 1 (oneActivatedKey (Some (idleHSM false)))) =
    KeyLifecycle.keys (oneActivatedKey (Some (idleHSM false))).
Proof.
  assert (H : KeyLifecycle.GenerateKey demoClock "k2" "alice" (Ok K0)
                (oneActivatedKey (Some (idleHSM false))) =
              KeyLifecycle.Returns (Err "failed to import key to HSM: HSM not online")
                (KeyLifecycle.setTicks 1 (oneActivatedKey (Some (idleHSM false)))))
    by (vm_compute; reflexivity).
  split; [exact H|].
  exact (proj1 (proj1 (X26_no_key_with_hsm demoClock "k2" "alice" (Ok K0) (idleHSM false)
                         (oneActivatedKey (Some (idleHSM false))) eq_refl) _ _ H)).
Defined.

(** ** Known answer tests *)

Section KATExtras.

Import KAT.

Lemma arraysMatch_eq (a b : list byte) :
  length a = 64%nat -> length b = 64%nat -> (arraysMatch a b = true <-> a = b).
Proof.
  intros Ha Hb. unfold arraysMatch. rewrite forallb_forall. split.
  - intros H. apply (nth_ext _ _ 0 0); [congruence|].
    intros i Hi. apply Z.eqb_eq, H, in_seq. lia.
  - intros -> i _. apply Z.eqb_refl.
Qed.

(** [X27] What a known-answer vector is checked against are the stubs, not
    the cipher: a vector passes [VerifyVector] exactly when its expected
    ciphertext is its plaintext and its expected MAC is 64 zero bytes; the
    key plays no part. *)
Theorem X27_vectors_checked_against_stubs (vector : KATVector) :
  length (Plaintext vector) = 64%nat ->
  length (Ciphertext vector) = 64%nat ->
  length (MAC vector) = 64%nat ->
  (VerifyVector vector = true <->
   Ciphertext vector = Plaintext vector /\ MAC vector = replicate 64 0).
Proof.
  intros Hp Hc Hm. unfold VerifyVector, Encrypt, ComputeHMAC.
  pose proof (arraysMatch_eq (Plaintext vector) (Ciphertext vector) Hp Hc) as H1.
  pose proof (arraysMatch_eq (replicate 64 0) (MAC vector) eq_refl Hm) as H2.
  destruct (arraysMatch (Plaintext vector) (Ciphertext vector));
    destruct (arraysMatch (replicate 64 0) (MAC vector)); cbn [andb].
  - split; [intros _|reflexivity]. split; symmetry; [now apply H1|now apply H2].
  - split; [discriminate|]. intros [_ E]. symmetry in E. now apply H2 in E.
  - split; [discriminate|]. intros [E _]. symmetry in E. now apply H1 in E.
  - split; [discriminate|]. intros [E _]. symmetry in E. now apply H1 in E.
Qed.

Lemma countVector_frame (kat : KATTestSuite) (vector : KATVector) :
  vectors (countVector kat vector) = vectors kat /\
  (0 <= failed kat < 2 ^ 63 - 1 ->
   failed kat <= failed (countVector kat vector) <= failed kat + 1) /\
  (VerifyVector vector = false -> 0 <= failed kat < 2 ^ 63 - 1 ->
   failed (countVector kat vector) = failed kat + 1).
Proof.
  unfold countVector. destruct (VerifyVector vector); cbn [negb vectors failed].
  - split; [reflexivity|]. split; [lia|discriminate].
  - split; [reflexivity|]. split.
    + intros H. rewrite wrap64_small by lia. lia.
    + intros _ H. apply wrap64_small. lia.
Qed.

Lemma count_all_bounds (vs : list KATVector) (kat : KATTestSuite) :
  0 <= failed kat -> failed kat + Z.of_nat (length vs) < 2 ^ 63 ->
  vectors (fold_left countVector vs kat) = vectors kat /\
  failed kat <= failed (fold_left countVector vs kat) <= failed kat + Z.of_nat (length vs).
Proof.
  revert kat. induction vs as [|v vs IH]; intros kat H0 Hb.
  - cbn. split; [reflexivity|lia].
  - cbn [fold_left]. cbn [length] in Hb.
    destruct (countVector_frame kat v) as (Hv & Hf & _).
    specialize (Hf ltac:(lia)).
    destruct (IH (countVector kat v)) as [IHv IHf]; [lia|lia|].
    split; [now rewrite IHv|]. cbn [length]. lia.
Qed.

Lemma count_failing_last (vs : list KATVector) (v : KATVector) (kat : KATTestSuite) :
  VerifyVector v = false ->
  0 <= failed kat -> failed kat + Z.of_nat (length vs) + 1 < 2 ^ 63 ->
  0 < failed (fold_left countVector (vs ++ [v]) kat).
Proof.
  intros Hv H0 Hb. rewrite fold_left_app. cbn [fold_left].
  destruct (count_all_bounds vs kat H0 ltac:(lia)) as [_ Hf].
  destruct (countVector_frame (fold_left countVector vs kat) v) as (_ & _ & Hc).
  rewrite Hc by (exact Hv || lia). lia.
Qed.

(** [X28] The start-up self-test cannot pass: [RunAllTests] appends the
    default vectors, whose expected values are not those of the stubs, so on
    every suite whose failure count is not negative (and not about to
    overflow) it leaves a positive failure count and [GetComplianceStatus]
    is false.  On a new suite all five default vectors fail and none passes,
    so [InitializeKATOnStartup] returns false. *)
Theorem X28_startup_self_test_fails (kat : KATTestSuite) :
  0 <= failed kat ->
  failed kat + Z.of_nat (length (vectors kat)) + 5 < 2 ^ 63 ->
  GetComplianceStatus (RunAllTests kat) = false /\
  0 < failed (RunAllTests kat) /\
  failed (RunAllTests NewKATTestSuite) = 5 /\
  passed (RunAllTests NewKATTestSuite) = 0 /\
  InitializeKATOnStartup = false.
Proof.
  intros H0 Hb.
  assert (Hpos : forall k, 0 <= failed k ->
                           failed k + Z.of_nat (length (vectors k)) + 5 < 2 ^ 63 ->
                           0 < failed (RunAllTests k)).
  { intros k Hk0 Hkb. unfold RunAllTests, GenerateDefaultVectors.
    destruct (pseudoRandom 32 _) as [key5 seed1] eqn:E1.
    destruct (pseudoRandom 64 seed1) as [plaintext5 seed2] eqn:E2.
    cbn [AddTestVector vectors passed failed].
    apply count_failing_last.
    - unfold VerifyVector, Encrypt, ComputeHMAC. cbn [MAC Ciphertext Plaintext].
      replace (arraysMatch (replicate 64 0) (multiples 107)) with false
        by (vm_compute; reflexivity).
      now rewrite andb_false_r.
    - unfold AddTestVector. cbn [failed]. exact Hk0.
    - unfold AddTestVector. cbn [failed vectors]. rewrite !length_app. cbn [length]. lia. }
  assert (Hfail : forall k, 0 < failed k -> GetComplianceStatus k = false).
  { intros k Hk. unfold GetComplianceStatus.
    destruct (Z.eqb_spec (failed k) 0); [lia|reflexivity]. }
  split; [apply Hfail, Hpos; assumption|]. split; [apply Hpos; assumption|].
  split; [vm_compute; reflexivity|]. split; [vm_compute; reflexivity|].
  unfold InitializeKATOnStartup. apply Hfail, Hpos; cbn; lia.
Qed.

End KATExtras.

Lemma X27_vectors_checked_against_stubs_witness :
  KAT.VerifyVector (KAT.mkKATVector "stub" K0 (N0 ++ N0 ++ N0 ++ N0) (N0 ++ N0 ++ N0 ++ N0)
                                    (replicate 64 0) "what the stubs return") = true.
Proof.
  apply (X27_vectors_checked_against_stubs
           (KAT.mkKATVector "stub" K0 (N0 ++ N0 ++ N0 ++ N0) (N0 ++ N0 ++ N0 ++ N0)
                            (replicate 64 0) "what the stubs return")).
  - reflexivity.
  - reflexivity.
  - reflexivity.
  - split; reflexivity.
Defined.

Lemma X28_startup_self_test_fails_witness :
  KAT.GetComplianceStatus (KAT.RunAllTests KAT.NewKATTestSuite) = false.
Proof.
  apply (X28_startup_self_test_fails KAT.NewKATTestSuite).
  - cbn. lia.
  - cbn. lia.
Defined.

(** ** Modified Salsa20: the shape of [PerformMSAEncryption] *)

Section MSAExtras.

Import MSA.

Lemma nth_xorMask (mask : nat -> Z) (l : list byte) (i : nat) :
  (i < length l)%nat -> nth i (xorMask mask l) 0 = Z.lxor (nth i l 0) (mask i).
Proof. intros Hi. unfold xorMask. now rewrite nth_imap_in_range. Qed.

Lemma xorMask_length (mask : nat -> Z) (l : list byte) :
  length (xorMask mask l) = length l.
Proof. apply length_imap. Qed.

Lemma nth_xorBlocks (a b : list byte) (i : nat) :
  (i < length a)%nat -> nth i (xorBlocks a b) 0 = Z.lxor (nth i a 0) (nth i b 0).
Proof. intros Hi. unfold xorBlocks. now rewrite nth_imap_in_range. Qed.

Lemma xorBlocks_length (a b : list byte) : length (xorBlocks a b) = length a.
Proof. apply length_imap. Qed.

Lemma msaRounds_keys (n : nat) msa (l r : list byte) (keys keys' : list (list byte)) :
  msaRounds n msa l r keys = msaRounds n msa l r keys'.
Proof.
  revert msa l r keys keys'. induction n as [|n IH]; intros; [reflexivity|].
  cbn [msaRounds]. apply IH.
Qed.

Lemma msaRounds_step (n : nat) msa (l r : list byte) keys :
  msaRounds (S n) msa l r keys =
  msaRounds n (MSAround msa)
            (xorMask (fun i => nth i (GetOutput (MSAround msa)) 0) l)
            (xorMask (fun i => nth (i + 32) (GetOutput (MSAround msa)) 0) r) keys.
Proof. cbn [msaRounds]. apply msaRounds_keys. Qed.

Lemma msaRounds_length (n : nat) msa (l r : list byte) keys :
  length (msaRounds n msa l r keys).1 = length l /\
  length (msaRounds n msa l r keys).2 = length r.
Proof.
  revert msa l r. induction n as [|n IH]; intros msa l r; [split; reflexivity|].
  rewrite msaRounds_step.
  destruct (IH (MSAround msa)
               (xorMask (fun i => nth i (GetOutput (MSAround msa)) 0) l)
               (xorMask (fun i => nth (i + 32) (GetOutput (MSAround msa)) 0) r)) as [H1 H2].
  rewrite H1, H2, !xorMask_length. split; reflexivity.
Qed.

Lemma xor_regroup (l a : list byte) (mask : nat -> Z) :
  xorBlocks (xorMask mask l) a =
  xorBlocks l (xorBlocks (xorMask mask (replicate (length l) 0)) a).
Proof.
  apply (nth_ext _ _ 0 0).
  - now rewrite !xorBlocks_length, xorMask_length.
  - rewrite xorBlocks_length, xorMask_length. intros i Hi.
    rewrite !nth_xorBlocks, !nth_xorMask;
      rewrite ?xorBlocks_length, ?xorMask_length, ?length_replicate; try exact Hi.
    rewrite nth_replicate_zero, Z.lxor_0_l, Z.lxor_assoc. reflexivity.
Qed.

Lemma msaRounds_xor (n : nat) msa (l r : list byte) keys :
  msaRounds n msa l r keys =
  (xorBlocks l (msaRounds n msa (replicate (length l) 0) (replicate (length r) 0) keys).1,
   xorBlocks r (msaRounds n msa (replicate (length l) 0) (replicate (length r) 0) keys).2).
Proof.
  revert msa l r. induction n as [|n IH]; intros msa l r.
  - cbn [msaRounds fst snd]. f_equal.
    + apply (nth_ext _ _ 0 0); [now rewrite xorBlocks_length|].
      intros i Hi. now rewrite nth_xorBlocks, nth_replicate_zero, Z.lxor_0_r.
    + apply (nth_ext _ _ 0 0); [now rewrite xorBlocks_length|].
      intros i Hi. now rewrite nth_xorBlocks, nth_replicate_zero, Z.lxor_0_r.
  - rewrite !msaRounds_step.
    set (m1 := MSAround msa).
    set (f1 := fun i => nth i (GetOutput m1) 0).
    set (f2 := fun i => nth (i + 32) (GetOutput m1) 0).
    rewrite (IH m1 (xorMask f1 l) (xorMask f2 r)).
    rewrite (IH m1 (xorMask f1 (replicate (length l) 0)) (xorMask f2 (replicate (length r) 0))).
    rewrite !xorMask_length, !length_replicate. cbn [fst snd].
    now rewrite <- !xor_regroup.
Qed.

Lemma PerformMSAEncryption_stream (input : list byte) (keys : list (list byte)) :
  length input = 64%nat ->
  PerformMSAEncryption input keys =
  xorBlocks input (PerformMSAEncryption (replicate 64 0) keys).
Proof.
  intros Hlen. unfold PerformMSAEncryption.
  set (msa := NewMSAState _ _ _).
  assert (Hl : length (take 32 input) = 32%nat) by (rewrite length_take; lia).
  assert (Hr : length (take 32 (drop 32 input)) = 32%nat)
    by (rewrite length_take, length_drop; lia).
  rewrite (msaRounds_xor 11 msa (take 32 input) (take 32 (drop 32 input))).
  rewrite Hl, Hr.
  change (take 32 (replicate 64 0)) with (replicate 32 0).
  change (take 32 (drop 32 (replicate 64 0))) with (replicate 32 0).
  destruct (msaRounds_length 11 msa (replicate 32 0) (replicate 32 0) keys) as [L1 L2].
  destruct (msaRounds 11 msa (replicate 32 0) (replicate 32 0) keys) as [l0 r0].
  cbn [fst snd] in *. rewrite length_replicate in L1, L2.
  apply (nth_ext _ _ 0 0).
  - rewrite length_app, !xorBlocks_length. lia.
  - rewrite length_app, !xorBlocks_length, Hl, Hr. intros i Hi.
    rewrite (nth_xorBlocks input) by lia.
    destruct (Nat.lt_ge_cases i 32) as [Hlt|Hge].
    + rewrite !app_nth1 by (rewrite ?xorBlocks_length; lia).
      rewrite nth_xorBlocks by lia. now rewrite nth_take_lt.
    + rewrite !app_nth2 by (rewrite ?xorBlocks_length; lia).
      rewrite xorBlocks_length, Hl, L1.
      rewrite nth_xorBlocks by lia.
      rewrite nth_take_lt, nth_skipn by lia.
      replace (32 + (i - 32))%nat with i by lia. reflexivity.
Qed.

Lemma PerformMSAEncryption_keys (input : list byte) (keys keys' : list (list byte)) :
  nth 7 keys' [] = nth 7 keys [] -> nth 8 keys' [] = nth 8 keys [] ->
  nth 9 keys' [] = nth 9 keys [] ->
  PerformMSAEncryption input keys' = PerformMSAEncryption input keys.
Proof.
  intros H7 H8 H9. unfold PerformMSAEncryption. rewrite H7, H8, H9.
  now rewrite (msaRounds_keys 11 _ _ _ keys' keys).
Qed.

(** [X29] [PerformMSAEncryption] is the exclusive or of its input with a
    key stream: the result on a 64-byte block is the block xored with the
    result on the zero block.  Hence applying it twice under the same keys
    gives the block back, and a change of input bits changes the same output
    bits; and the result depends on the round keys 7, 8 and 9 only, the
    rotation of keys 7 and 8 inside the loop having no effect. *)
Theorem X29_msa_is_a_keystream_xor (input : list byte) (keys : list (list byte)) :
  length input = 64%nat ->
  PerformMSAEncryption input keys =
    xorBlocks input (PerformMSAEncryption (replicate 64 0) keys) /\
  PerformMSAEncryption (PerformMSAEncryption input keys) keys = input /\
  (forall keys',
     nth 7 keys' [] = nth 7 keys [] -> nth 8 keys' [] = nth 8 keys [] ->
     nth 9 keys' [] = nth 9 keys [] ->
     PerformMSAEncryption input keys' = PerformMSAEncryption input keys).
Proof.
  intros Hlen. split; [now apply PerformMSAEncryption_stream|].
  split; [|intros keys'; apply PerformMSAEncryption_keys].
  rewrite (PerformMSAEncryption_stream (PerformMSAEncryption input keys))
    by (rewrite (PerformMSAEncryption_stream input keys Hlen);
        now rewrite xorBlocks_length).
  rewrite (PerformMSAEncryption_stream input keys Hlen) at 1.
  generalize (PerformMSAEncryption (replicate 64 0) keys). intros e.
  apply (nth_ext _ _ 0 0); [now rewrite !xorBlocks_length|].
  rewrite !xorBlocks_length. intros i Hi.
  rewrite !nth_xorBlocks by (rewrite ?xorBlocks_length; exact Hi).
  now rewrite Z.lxor_assoc, Z.lxor_nilpotent, Z.lxor_0_r.
Qed.

(** [X30] Zero key material is a weak key: when the round keys 7, 8 and 9
    are all zero the state matrix is zero, every round leaves it zero, and
    [PerformMSAEncryption] returns every 64-byte block unchanged. *)
Theorem X30_msa_zero_keys_are_the_identity (input : list byte) (keys : list (list byte)) :
  length input = 64%nat ->
  nth 7 keys [] = replicate 16 0 -> nth 8 keys [] = replicate 16 0 ->
  nth 9 keys [] = replicate 16 0 ->
  MSAround (NewMSAState (nth 7 keys []) (nth 8 keys []) (nth 9 keys [])) =
    NewMSAState (nth 7 keys []) (nth 8 keys []) (nth 9 keys []) /\
  PerformMSAEncryption input keys = input.
Proof.
  intros Hlen H7 H8 H9. split; [rewrite H7, H8, H9; vm_compute; reflexivity|].
  rewrite (PerformMSAEncryption_stream input keys Hlen).
  rewrite (PerformMSAEncryption_keys (replicate 64 0) (replicate 11 (replicate 16 0)) keys
             H7 H8 H9).
  replace (PerformMSAEncryption (replicate 64 0) (replicate 11 (replicate 16 0)))
    with (replicate 64 0) by (vm_compute; reflexivity).
  apply (nth_ext _ _ 0 0); [now rewrite xorBlocks_length|].
  rewrite xorBlocks_length. intros i Hi.
  now rewrite nth_xorBlocks, nth_replicate_zero, Z.lxor_0_r.
Qed.

End MSAExtras.

Lemma X29_msa_is_a_keystream_xor_witness :
  MSA.PerformMSAEncryption (MSA.PerformMSAEncryption (K0 ++ K0) demoRoundKeys) demoRoundKeys =
  K0 ++ K0.
Proof.
  exact (proj1 (proj2 (X29_msa_is_a_keystream_xor (K0 ++ K0) demoRoundKeys eq_refl))).
Defined.

Lemma X30_msa_zero_keys_are_the_identity_witness :
  MSA.PerformMSAEncryption (K0 ++ K0) (replicate 11 (replicate 16 0)) = K0 ++ K0.
Proof.
  exact (proj2 (X30_msa_zero_keys_are_the_identity (K0 ++ K0) (replicate 11 (replicate 16 0))
                  eq_refl eq_refl eq_refl eq_refl)).
Defined.

(** ** Instances *)

Lemma X9_bits_round_trip_witness :
  bitsToByteArray (bytesToBitsArray (K0 ++ K0)) = K0 ++ K0.
Proof.
  refine (proj1 (X9_bits_round_trip (K0 ++ K0) eq_refl _)).
  apply List.Forall_forall. intros b Hb.
  apply in_app_or in Hb. unfold K0 in Hb.
  assert (Hin : In b (map Z.of_nat (seq 0 32))) by tauto.
  apply List.in_map_iff in Hin. destruct Hin as (n & <- & Hn).
  apply in_seq in Hn. unfold isByte. lia.
Defined.

Lemma X14_policy_validation_witness :
  (KeyRotation.UpdateRotationPolicy shortRetention rotatedPair).2 =
  KeyRotation.setPolicy shortRetention rotatedPair.
Proof.
  exact (proj1 (proj2 (X14_policy_validation shortRetention rotatedPair)) eq_refl).
Defined.

Lemma X18_import_never_succeeds_witness :
  HSM.ImportKey demoClock K0 (idleHSM false) =
  HSM.Returns (Some "HSM not online"%string) (idleHSM false).
Proof.
  exact (proj2 (proj2 (X18_import_never_succeeds demoClock K0 (idleHSM false)))
               eq_refl eq_refl).
Defined.

Lemma X20_constructor_outcomes_witness :
  exists hb, HSM.NewHSMIntegration demoClock (demoConfig "softhsm") 0 = HSM.Blocks hb /\
             HSM.Online (HSM.status hb) = true /\ HSM.auditLog hb = [].
Proof.
  apply (proj1 (X20_constructor_outcomes demoClock (demoConfig "softhsm") 0 K0)).
  unfold knownHSMTypes. cbn [In demoConfig HSM.HSMType]. tauto.
Defined.
(** [C6], the claim as stated, refuted: [oneBlockFrame] carries the right
    tag and fails padding validation with "invalid padding: 98", while
    the same frame with one ciphertext bit pattern flipped fails with the
    authentication error; the two error results differ. *)
Lemma C6_counterexample :
  DecryptData oneBlockFrame K0 = Err "invalid padding: 98" /\
  DecryptData tamperedFrame K0 = Err authError /\
  Err (A := list byte) "invalid padding: 98" <> Err authError.
Proof.
  split; [|split].
  - lazy. reflexivity.
  - lazy. reflexivity.
  - discriminate.
Qed.

(** [C7], the claim as stated, refuted: a frame of exactly 80 bytes (no
    ciphertext) is not turned away by the length check; its tag is
    verified and the frame is rejected later, as an empty plaintext.
    A frame of 81 zero bytes reaches tag verification as well. *)
Lemma C7_counterexample :
  length emptyFrame = 80%nat /\
  DecryptData emptyFrame K0 = Err "decrypted plaintext is empty" /\
  DecryptData (replicate 81 0) K0 = Err authError.
Proof.
  split; [reflexivity|]. split.
  - rewrite <- emptyFrame_value.
    apply (decrypt_of_empty_encryption K0 N0); reflexivity.
  - lazy. reflexivity.
Qed.

